(** * hf-discord-webhook: the relay pipeline of [src/index.ts]

    A shallow embedding of the worker's pipeline: the keyword denylist, the
    number abbreviation, the markdown cleaner (with the regular expressions
    of the source and a backtracking matcher for them) and [sendToDiscord]
    over an explicit network environment, and the entry point of lines
    45-77 (method and secret checks, the fixed 200 answer) around it.

    Modelling conventions.
    - A JavaScript string is the list of its UTF-16 code units ([N]).
    - A JavaScript number is NaN, an infinity, or a rational that is a
      binary64 value; a division is rounded to the nearest binary64 value.
    - Case mapping is computed on ASCII letters; the capital of a code unit
      beyond ASCII is read from the case table of the platform.
    - [await] is sequencing: the worker runs one task per request.  A
      computation issues requests to a world that answers them, and the
      requests issued are kept in a trace. *)

From Stdlib Require Import List NArith ZArith QArith Qround Qpower Qabs.
From Stdlib Require Import Bool Lia Lqa.
From Stdlib Require Import Ascii String DecimalString.
From Equations Require Import Equations.
Import ListNotations.

Set Implicit Arguments.
Local Open Scope N_scope.

(** ** Strings *)

Definition jsstring := list N.

(** An ASCII literal as a string of code units. *)
Definition js (s : string) : jsstring :=
  map N_of_ascii (list_ascii_of_string s).

Module Str.

Definition is_upper (c : N) : bool := (65 <=? c) && (c <=? 90).
Definition is_lower (c : N) : bool := (97 <=? c) && (c <=? 122).

(** The case mapping of one ASCII code unit: the letters A-Z and a-z are
    mapped; any other code unit is left in place. *)
Definition lower_unit (c : N) : N := if is_upper c then c + 32 else c.
Definition upper_unit (c : N) : N := if is_lower c then c - 32 else c.

(** [toLowerCase], as far as the denylist test sees it.  Unicode case
    mapping maps a code unit outside ASCII to code units outside ASCII,
    with the two exceptions U+212A (to "k") and U+0130 (to "i" followed by
    U+0307); none of them can complete an occurrence of a denylist keyword
    (no keyword has a "k", and the "i" of "bit" is followed by "t"), so the
    denylist test is the same on the model and on the source. *)
Definition toLowerCase (s : jsstring) : jsstring := map lower_unit s.

Fixpoint eqb (s t : jsstring) : bool :=
  match s, t with
  | [], [] => true
  | c :: s', d :: t' => (c =? d) && eqb s' t'
  | _, _ => false
  end.

(** [s.startsWith(k)] *)
Fixpoint startsWith (s k : jsstring) : bool :=
  match k, s with
  | [], _ => true
  | d :: k', c :: s' => (c =? d) && startsWith s' k'
  | _ :: _, [] => false
  end.

(** [s.includes(k)]: [k] occurs in [s] as a substring. *)
Fixpoint includes (s k : jsstring) : bool :=
  startsWith s k ||
  match s with
  | [] => false
  | _ :: s' => includes s' k
  end.

(** [s.slice(0, n)] and [s.slice(n)] for [0 <= n]. *)
Definition slice_to (n : nat) (s : jsstring) : jsstring := firstn n s.
Definition slice_from (n : nat) (s : jsstring) : jsstring := skipn n s.

(** [s.charAt(0)]: the empty string when [s] is empty. *)
Definition charAt0 (s : jsstring) : jsstring := firstn 1 s.

(** White space and line terminators of ECMAScript: the class [\s] of
    regular expressions and the characters removed by [trim]. *)
Definition is_line_terminator (c : N) : bool :=
  (c =? 10) || (c =? 13) || (c =? 8232) || (c =? 8233).

Definition is_space (c : N) : bool :=
  ((9 <=? c) && (c <=? 13)) || (c =? 32) || (c =? 160) || (c =? 5760) ||
  ((8192 <=? c) && (c <=? 8202)) || (c =? 8232) || (c =? 8233) ||
  (c =? 8239) || (c =? 8287) || (c =? 12288) || (c =? 65279).

Fixpoint trimStart (s : jsstring) : jsstring :=
  match s with
  | c :: s' => if is_space c then trimStart s' else s
  | [] => []
  end.

Definition trimEnd (s : jsstring) : jsstring := rev (trimStart (rev s)).

Definition trim (s : jsstring) : jsstring := trimEnd (trimStart s).

(** [parts.join(sep)] *)
Fixpoint join (sep : jsstring) (parts : list jsstring) : jsstring :=
  match parts with
  | [] => []
  | [p] => p
  | p :: ps => p ++ sep ++ join sep ps
  end.

End Str.

(** ** The denylist (lines 1-13) and the relevance test (lines 148-152) *)

Definition DENYLIST : list jsstring :=
  [ js "gguf"; js "gptq"; js "awq"; js "exl3"; js "exl2"; js "fp8"; js "mlx";
    js "mxfp4"; js "nvfp4"; js "bnb-4bit"; js "bnb-8bit" ].

(** [DENYLIST.some(keyword => name.includes(keyword))] with
    [name = repo.name.toLowerCase()]. *)
Definition denied (repo_name : jsstring) : bool :=
  let name := Str.toLowerCase repo_name in
  existsb (fun keyword => Str.includes name keyword) DENYLIST.

(** The subject is announced when the early exit of line 151 is not taken. *)
Definition isRelevant (repo_name : jsstring) : bool := negb (denied repo_name).

(** ** Numbers *)

(** A JavaScript number: NaN, an infinity, or a finite value.  A finite
    value is a rational; the numbers of the language are the binary64
    values among them (the two zeros are one value here: no operation of
    the source tells them apart). *)
Inductive number : Type :=
| NaN
| Infinity (negative : bool)
| Finite (q : Q).

(** The result of [Math.floor] and [Math.round]: an integer, or the special
    value it was given.  (The zero of [Math.round(-0.2)] prints as "0".) *)
Inductive integral : Type :=
| INaN
| IInfinity (negative : bool)
| IInt (z : Z).

Module Num.

(** [x >= 1000] *)
Definition ge_1000 (x : number) : bool :=
  match x with
  | NaN => false
  | Infinity negative => negb negative
  | Finite q => Qle_bool 1000 q
  end.

(** The exponent [e] of a positive rational [a]: [2^e <= a < 2^(e+1)]. *)
Definition exponent (a : Q) : Z :=
  let e := (Z.log2 (Qnum a) - Z.log2 (Zpos (Qden a)))%Z in
  if Qle_bool (2 ^ e) a then e else (e - 1)%Z.

(** The integer nearest to a rational, a tie going to the even one. *)
Definition nearest_even (x : Q) : Z :=
  let f := Qfloor x in
  match (x - inject_Z f ?= 1 # 2)%Q with
  | Lt => f
  | Gt => (f + 1)%Z
  | Eq => if Z.even f then f else (f + 1)%Z
  end.

(** The binary64 value nearest to a rational (IEEE 754, round to nearest,
    ties to even): 53 bits of precision in the binade of exponent [e], that
    is a multiple of [2^(e-52)]; below the exponent -1022 the values are the
    multiples of [2^(-1074)]; the rounding that reaches [2^1024] gives an
    infinity. *)
Definition binary64 (q : Q) : number :=
  let a := Qabs q in
  let e := Z.max (exponent a) (-1022) in
  let ulp := (2 ^ (e - 52))%Q in
  let v := (inject_Z (nearest_even (a / ulp)) * ulp)%Q in
  if Qle_bool (2 ^ 1024) v then Infinity (negb (Qle_bool 0 q))
  else Finite (if Qle_bool 0 q then v else - v).

(** [x / 1000]: the quotient, rounded. *)
Definition div_1000 (x : number) : number :=
  match x with
  | NaN => NaN
  | Infinity negative => Infinity negative
  | Finite q => binary64 (q / 1000)
  end.

(** [Math.floor(x)]: the largest integer not above [x]. *)
Definition floor (x : number) : integral :=
  match x with
  | NaN => INaN
  | Infinity negative => IInfinity negative
  | Finite q => IInt (Qfloor q)
  end.

(** [Math.round(x)]: the nearest integer, a tie going up. *)
Definition round (x : number) : integral :=
  match x with
  | NaN => INaN
  | Infinity negative => IInfinity negative
  | Finite q => IInt (Qfloor (q + (1 # 2)))
  end.

(** Truncation toward zero ([Math.trunc]); the source does not call it, the
    specification names it. *)
Definition trunc (x : number) : integral :=
  match x with
  | NaN => INaN
  | Infinity negative => IInfinity negative
  | Finite q => IInt (Z.quot (Qnum q) (Zpos (Qden q)))
  end.

(** The decimal digits of an integer, with its sign. *)
Definition decimal (z : Z) : jsstring :=
  js (NilZero.string_of_int (Z.to_int z)).

Section ToString.
(** The text of an integer of magnitude [2^53] or more (one that is not a
    safe integer) is a parameter: it has the digits of the shortest decimal
    that reads back as the same binary64 value, which the language
    definition does not fix to the last digit, then zeros, and it is in
    exponent notation from [10^21] on. *)
Variable unsafe_text : Z -> jsstring.

(** The template literal [`${value}`] on a value of [Math.floor] or
    [Math.round]: a safe integer is written with all its digits. *)
Definition toString (v : integral) : jsstring :=
  match v with
  | INaN => js "NaN"
  | IInfinity false => js "Infinity"
  | IInfinity true => js "-Infinity"
  | IInt z => if (Z.abs z <? 2 ^ 53)%Z then decimal z else unsafe_text z
  end.
End ToString.

End Num.

(** ** [abbreviateNumber] (lines 79-95) *)

(** [(round === 'round') ? Math.round(n) : Math.floor(n)]: every mode other
    than ['round'] (the default ['floor'] among them) takes the floor. *)
Definition rounded (round : jsstring) (n : number) : integral :=
  if Str.eqb round (js "round") then Num.round n else Num.floor n.

Definition units : list jsstring := [js "K"; js "M"; js "B"; js "T"].

(** The loop test [n >= 1000 && unitIndex < units.length - 1]. *)
Definition reduce_cond (n : number) (unitIndex : Z) : bool :=
  Num.ge_1000 n && (unitIndex <? Z.of_nat (List.length units) - 1)%Z.

(** A value together with the equation that it is the value of [x]. *)
Definition inspect {A : Type} (x : A) : { y : A | x = y } :=
  exist _ x eq_refl.

(** The loop variant: how many units are left above [unitIndex]. *)
Definition reduce_variant (unitIndex : Z) : nat :=
  Z.to_nat (Z.of_nat (List.length units) - 1 - unitIndex).
Arguments reduce_variant : simpl never.

(** The [while] loop of lines 85-88 on the pair [(n, unitIndex)]; it ends
    because the variant decreases. *)
Equations? reduce (n : number) (unitIndex : Z) : number * Z
  by wf (reduce_variant unitIndex) lt :=
  reduce n unitIndex with inspect (reduce_cond n unitIndex) := {
    | exist _ true _ => reduce (Num.div_1000 n) (unitIndex + 1)%Z
    | exist _ false _ => (n, unitIndex) }.
Proof.
  unfold reduce_cond in e. apply andb_prop in e. destruct e as [_ e].
  apply Z.ltb_lt in e. unfold reduce_variant. lia.
Qed.

(** [units[unitIndex]] inside a template literal: an index outside the array
    reads [undefined]. *)
Definition unit_at (unitIndex : Z) : jsstring :=
  match nth_error units (Z.to_nat unitIndex) with
  | Some u => u
  | None => js "undefined"
  end.

Section Abbreviate.
Variable unsafe_text : Z -> jsstring.

Definition abbreviateNumber (num : number) (round : jsstring) : jsstring :=
  let '(n, unitIndex) := reduce num (-1) in
  let value := rounded round n in
  if (0 <=? unitIndex)%Z
  then Num.toString unsafe_text value ++ unit_at unitIndex
  else Num.toString unsafe_text value.
End Abbreviate.

(** ** Exceptions *)

Inductive exn : Type :=
| RangeError      (* [String.fromCodePoint] on an invalid code point *)
| TypeError       (* the [in] operator on a value that is not an object *)
| SyntaxError     (* [Response.json] on a body that is not JSON *)
| NetworkError    (* [fetch] rejected *)
| DeliveryError (status : Z) (statusText : jsstring).
                  (* the [Error] of lines 212-214 *)

Inductive result (A : Type) : Type :=
| Ok (a : A)
| Throw (e : exn).
Arguments Ok {A} a.
Arguments Throw {A} e.

Definition rbind {A B : Type} (x : result A) (f : A -> result B) : result B :=
  match x with
  | Ok a => f a
  | Throw e => Throw e
  end.

(** ** Regular expressions

    The fragment of ECMAScript regular expressions that [cleanMarkdown] uses,
    with the backtracking matcher of the language definition, written with
    continuations as it is there: a matcher takes the state and the
    continuation that matches the rest of the pattern. *)

Module Regex.

Record flags : Type :=
  { global : bool; ignoreCase : bool; multiline : bool }.

(** A term that matches one code unit. *)
Inductive atom : Type :=
| Char (c : N)              (* a pattern character *)
| Class (p : N -> bool).    (* a class, a class escape or the dot *)

Inductive regex : Type :=
| Empty
| One (a : atom)
| Quant (a : atom) (lo : nat) (hi : option nat) (greedy : bool)
| Seq (r1 r2 : regex)
| Alt (r1 r2 : regex)
| Bol                       (* ^ *)
| Eol                       (* $ *)
| Group (r : regex)         (* the capturing group, number 1 *)
| Backref.                  (* \1 *)

(** The matcher state: the code unit before the current position, the
    input from the current position on, and the capture of group 1. *)
Record state : Type :=
  { prev : option N; rest : jsstring; cap : option jsstring }.

(** Canonicalize: under flag [i] a code unit is compared by its upper case.
    A code unit outside ASCII never canonicalizes to an ASCII one, and the
    pattern characters of the source, and so the captures of its groups,
    are ASCII: on them the comparison is that of the language. *)
Definition canon (fl : flags) (c : N) : N :=
  if ignoreCase fl then Str.upper_unit c else c.

(** The classes of the source contain no letter, so flag [i] does not
    change what they match. *)
Definition atom_ok (fl : flags) (a : atom) (c : N) : bool :=
  match a with
  | Char d => canon fl c =? canon fl d
  | Class p => p c
  end.

Definition at_bol (fl : flags) (st : state) : bool :=
  match prev st with
  | None => true
  | Some c => multiline fl && Str.is_line_terminator c
  end.

Definition at_eol (fl : flags) (st : state) : bool :=
  match rest st with
  | [] => true
  | c :: _ => multiline fl && Str.is_line_terminator c
  end.

Definition below (hi : option nat) (count : nat) : bool :=
  match hi with
  | None => true
  | Some h => (count <? h)%nat
  end.

(** A quantified atom, [count] repetitions done: a greedy quantifier tries
    one more repetition before the continuation, a lazy one after it. *)
Fixpoint quant (ok : N -> bool) (lo : nat) (hi : option nat) (greedy : bool)
    (count : nat) (p : option N) (s : jsstring) (w : option jsstring)
    (k : state -> option state) {struct s} : option state :=
  let stop (_ : unit) :=
    if (lo <=? count)%nat then k {| prev := p; rest := s; cap := w |}
    else None in
  let more (_ : unit) :=
    match s with
    | c :: s' =>
        if below hi count && ok c
        then quant ok lo hi greedy (S count) (Some c) s' w k
        else None
    | [] => None
    end in
  if greedy
  then match more tt with Some y => Some y | None => stop tt end
  else match stop tt with Some y => Some y | None => more tt end.

(** The text between two states of one run. *)
Definition consumed (st st' : state) : jsstring :=
  firstn (List.length (rest st) - List.length (rest st')) (rest st).

(** [w] at the head of [s], compared by [canon]: the rest of [s] and the
    last code unit passed. *)
Fixpoint skip_same (fl : flags) (w : jsstring) (p : option N) (s : jsstring)
    : option (option N * jsstring) :=
  match w, s with
  | [], _ => Some (p, s)
  | d :: w', c :: s' =>
      if canon fl c =? canon fl d then skip_same fl w' (Some c) s' else None
  | _ :: _, [] => None
  end.

Fixpoint exec (fl : flags) (r : regex) (st : state)
    (k : state -> option state) : option state :=
  match r with
  | Empty => k st
  | One a =>
      match rest st with
      | c :: s' =>
          if atom_ok fl a c
          then k {| prev := Some c; rest := s'; cap := cap st |}
          else None
      | [] => None
      end
  | Quant a lo hi greedy =>
      quant (atom_ok fl a) lo hi greedy 0 (prev st) (rest st) (cap st) k
  | Seq r1 r2 => exec fl r1 st (fun st' => exec fl r2 st' k)
  | Alt r1 r2 =>
      match exec fl r1 st k with
      | Some y => Some y
      | None => exec fl r2 st k
      end
  | Bol => if at_bol fl st then k st else None
  | Eol => if at_eol fl st then k st else None
  | Group r =>
      exec fl r st
        (fun st' =>
           k {| prev := prev st'; rest := rest st';
                cap := Some (consumed st st') |})
  | Backref =>
      match cap st with
      | None => k st
      | Some w =>
          match skip_same fl w (prev st) (rest st) with
          | Some (p, s') => k {| prev := p; rest := s'; cap := cap st |}
          | None => None
          end
      end
  end.

(** A match attempt at one position: the state at the end of the match. *)
Definition match_at (fl : flags) (r : regex) (p : option N) (s : jsstring)
    : option state :=
  exec fl r {| prev := p; rest := s; cap := None |} Some.

(** The input cut by the matches of a pattern, left to right. *)
Inductive segment : Type :=
| Keep (c : N)
| Hit (matched : jsstring) (group1 : option jsstring).

(** The scan of [String.prototype.replace]: [skip] code units of the last
    match are still to be passed; [active] is off after the first match of
    a pattern without flag [g].  After an empty match the scan moves on by
    one code unit, which is kept. *)
Fixpoint scan (fl : flags) (r : regex) (active : bool) (skip : nat)
    (p : option N) (s : jsstring) : list segment :=
  match s with
  | [] =>
      if active && (skip =? 0)%nat
      then match match_at fl r p [] with
           | Some st' => [Hit [] (cap st')]
           | None => []
           end
      else []
  | c :: s' =>
      match skip with
      | S skip' => scan fl r active skip' (Some c) s'
      | O =>
          if active
          then match match_at fl r p s with
               | Some st' =>
                   let m := consumed {| prev := p; rest := s; cap := None |}
                                     st' in
                   Hit m (cap st') ::
                   match List.length m with
                   | O => Keep c :: scan fl r (global fl) 0 (Some c) s'
                   | S j => scan fl r (global fl) j (Some c) s'
                   end
               | None => Keep c :: scan fl r active 0 (Some c) s'
               end
          else Keep c :: scan fl r false 0 (Some c) s'
      end
  end.

(** [s.replace(r, newSubstr)]; no replacement text of the source has a
    dollar sign. *)
Definition replace (fl : flags) (r : regex) (newSubstr : jsstring)
    (s : jsstring) : jsstring :=
  flat_map (fun seg => match seg with
                       | Keep c => [c]
                       | Hit _ _ => newSubstr
                       end)
           (scan fl r true 0 None s).

(** [s.replace(r, fn)]: the replacement function is called on each match,
    left to right, with the matched text and group 1; it may throw. *)
Fixpoint substitute (fn : jsstring -> option jsstring -> result jsstring)
    (segs : list segment) : result jsstring :=
  match segs with
  | [] => Ok []
  | Keep c :: segs' =>
      rbind (substitute fn segs') (fun t => Ok (c :: t))
  | Hit m g :: segs' =>
      rbind (fn m g) (fun u =>
      rbind (substitute fn segs') (fun t => Ok (u ++ t)))
  end.

Definition replace_fn (fl : flags) (r : regex)
    (fn : jsstring -> option jsstring -> result jsstring) (s : jsstring)
    : result jsstring :=
  substitute fn (scan fl r true 0 None s).

(** *** Pattern syntax *)

Definition chr (c : N) : regex := One (Char c).
Definition cls (p : N -> bool) : regex := One (Class p).
Definition seq (rs : list regex) : regex := fold_right Seq Empty rs.
Definition lit (s : string) : regex := seq (map chr (js s)).
Fixpoint alts (rs : list regex) : regex :=
  match rs with
  | [] => Empty
  | [r] => r
  | r :: rs' => Alt r (alts rs')
  end.

Definition opt (a : atom) : regex := Quant a 0 (Some 1%nat) true.
Definition star (a : atom) : regex := Quant a 0 None true.
Definition plus (a : atom) : regex := Quant a 1 None true.
Definition lazy_star (a : atom) : regex := Quant a 0 None false.
Definition at_least (n : nat) (a : atom) : regex := Quant a n None true.
Definition between (lo hi : nat) (a : atom) : regex :=
  Quant a lo (Some hi) true.

(** Classes and escapes. *)
Definition space : atom := Class Str.is_space.                   (* \s *)
Definition any : atom := Class (fun _ => true).                  (* [\s\S] *)
Definition dot : atom := Class (fun c => negb (Str.is_line_terminator c)).
Definition none_of (cs : list N) : atom :=
  Class (fun c => negb (existsb (N.eqb c) cs)).
Definition one_of (cs : list N) : atom :=
  Class (fun c => existsb (N.eqb c) cs).
Definition is_digit (c : N) : bool := (48 <=? c) && (c <=? 57).
Definition is_hex (c : N) : bool :=
  is_digit c || ((97 <=? c) && (c <=? 102)) || ((65 <=? c) && (c <=? 70)).
Definition digit : atom := Class is_digit.                       (* \d *)
Definition hex : atom := Class is_hex.                  (* [\da-fA-F] *)

(** The code unit of a one-character ASCII literal. *)
Definition code (s : string) : N := hd 0 (js s).

Definition no_flags : flags :=
  {| global := false; ignoreCase := false; multiline := false |}.
Definition g : flags :=
  {| global := true; ignoreCase := false; multiline := false |}.
Definition gi : flags :=
  {| global := true; ignoreCase := true; multiline := false |}.
Definition gm : flags :=
  {| global := true; ignoreCase := false; multiline := true |}.

End Regex.

(** ** [cleanMarkdown] (lines 97-142) *)

Module Markdown.
Import Regex.

(** [/^\uFEFF?---\s*[\s\S]*?\n---\s*\n?/] *)
Definition frontmatter : regex :=
  seq [ Bol; opt (Char 65279); lit "---"; star space; lazy_star any;
        chr 10; lit "---"; star space; opt (Char 10) ].

(** [/<\s*(details|summary|...|figcaption)[\s\S]*?<\/\s*\1\s*>/gi] *)
Definition html_block : regex :=
  seq [ lit "<"; star space;
        Group (alts (map lit
          [ "details"; "summary"; "div"; "table"; "thead"; "tbody"; "tr";
            "td"; "th"; "style"; "script"; "footer"; "header"; "nav";
            "section"; "aside"; "figure"; "figcaption" ]%string));
        lazy_star any; lit "</"; star space; Backref; star space; lit ">" ].

(** [/<\s*(img|br|hr|input|meta|link)[^>]*>/gi] *)
Definition void_tag : regex :=
  seq [ lit "<"; star space;
        Group (alts (map lit
          [ "img"; "br"; "hr"; "input"; "meta"; "link" ]%string));
        star (none_of [code ">"]); lit ">" ].

(** [/<\/?[^>]+>/g] *)
Definition any_tag : regex :=
  seq [ lit "<"; opt (Char (code "/")); plus (none_of [code ">"]); lit ">" ].

(** [/^\s{0,3}#{1,6}\s+.*$/gm] *)
Definition atx_heading : regex :=
  seq [ Bol; between 0 3 space; between 1 6 (Char (code "#")); plus space;
        star dot; Eol ].

(** [/^\s*[-=]{3,}\s*$/gm] *)
Definition setext_underline : regex :=
  seq [ Bol; star space; at_least 3 (one_of [code "-"; code "="]);
        star space; Eol ].

(** [/!\[[^\]]*\]\([^)]*\)/g] *)
Definition image : regex :=
  seq [ lit "!["; star (none_of [code "]"]); lit "]("; 
        star (none_of [code ")"]); lit ")" ].

(** [/^\s*\|.*\|\s*$/gm] *)
Definition table_row : regex :=
  seq [ Bol; star space; lit "|"; star dot; lit "|"; star space; Eol ].

(** [/&#x([\da-fA-F]+);/g] and [/&#(\d+);/g] *)
Definition hex_entity : regex := seq [ lit "&#x"; Group (plus hex); lit ";" ].
Definition dec_entity : regex := seq [ lit "&#"; Group (plus digit); lit ";" ].

(** [/[ \t]+\n/g] and [/\n{3,}/g] *)
Definition trailing_blanks : regex := seq [ plus (one_of [32; 9]); chr 10 ].
Definition blank_lines : regex := at_least 3 (Char 10).

(** [parseInt(s, radix)] on a string of digits of that radix. *)
Definition digit_value (c : N) : N :=
  if is_digit c then c - 48 else if 97 <=? c then c - 87 else c - 55.
Definition parseInt (radix : N) (s : jsstring) : N :=
  fold_left (fun acc c => acc * radix + digit_value c) s 0.

(** [String.fromCodePoint(cp)]: one code unit, or a surrogate pair above
    U+FFFF; a RangeError above U+10FFFF. *)
Definition fromCodePoint (cp : N) : result jsstring :=
  if cp <=? 65535 then Ok [cp]
  else if cp <=? 1114111
       then Ok [55296 + (cp - 65536) / 1024; 56320 + (cp - 65536) mod 1024]
       else Throw RangeError.

(** The replacement function [(_, h) => String.fromCodePoint(parseInt(h,
    radix))]; without a group [parseInt] gives NaN, which is refused. *)
Definition decode (radix : N) (_ : jsstring) (h : option jsstring)
    : result jsstring :=
  match h with
  | Some digits => fromCodePoint (parseInt radix digits)
  | None => Throw RangeError
  end.

(** The steps, numbered as the comments of the source number them. *)

(** 1) leading BOM and YAML frontmatter *)
Definition strip_frontmatter (s : jsstring) : jsstring :=
  replace no_flags frontmatter [] s.

(** 2) whole HTML block sections *)
Definition drop_html_blocks (s : jsstring) : jsstring :=
  replace gi html_block [] s.

(** 3) standalone HTML tags *)
Definition drop_void_tags (s : jsstring) : jsstring :=
  replace gi void_tag [] s.

(** 4) any remaining HTML tag *)
Definition strip_tags (s : jsstring) : jsstring :=
  replace g any_tag [] s.

(** 5) ATX headers, then Setext underlines *)
Definition drop_atx_headings (s : jsstring) : jsstring :=
  replace gm atx_heading [] s.
Definition drop_setext_underlines (s : jsstring) : jsstring :=
  replace gm setext_underline [] s.
Definition drop_headings (s : jsstring) : jsstring :=
  drop_setext_underlines (drop_atx_headings s).

(** 8) markdown images *)
Definition drop_images (s : jsstring) : jsstring :=
  replace g image [] s.

(** 9) markdown table rows *)
Definition drop_table_rows (s : jsstring) : jsstring :=
  replace gm table_row [] s.

(** 10) HTML entities: four named ones, then hexadecimal, then decimal *)
Definition decode_entities (s : jsstring) : result jsstring :=
  let s := replace g (lit "&nbsp;") (js " ") s in
  let s := replace g (lit "&amp;") (js "&") s in
  let s := replace g (lit "&lt;") (js "<") s in
  let s := replace g (lit "&gt;") (js ">") s in
  rbind (replace_fn g hex_entity (decode 16) s) (fun s =>
  replace_fn g dec_entity (decode 10) s).

(** 11) extra white space *)
Definition collapse_whitespace (s : jsstring) : jsstring :=
  let s := replace g trailing_blanks [10] s in
  let s := replace g blank_lines [10; 10] s in
  Str.trim s.

(** The text before the final cut: steps 1 to 11 on [md || ""]. *)
Definition cleaned (md : option jsstring) : result jsstring :=
  let s := match md with Some t => t | None => [] end in
  let s := strip_frontmatter s in
  let s := drop_html_blocks s in
  let s := drop_void_tags s in
  let s := strip_tags s in
  let s := drop_headings s in
  let s := drop_images s in
  let s := drop_table_rows s in
  rbind (decode_entities s) (fun s => Ok (collapse_whitespace s)).

(** [return s.slice(0,1021) + "..."] *)
Definition cleanMarkdown (md : option jsstring) : result jsstring :=
  rbind (cleaned md) (fun s => Ok (Str.slice_to 1021 s ++ js "...")).

End Markdown.

(** ** JSON documents *)

#[local] Unset Elimination Schemes.
Inductive JSON : Type :=
| JNull
| JBool (b : bool)
| JNumber (x : Q)         (* of a parsed document: a binary64 value *)
| JString (s : jsstring)
| JArray (items : list JSON)
| JObject (members : list (jsstring * JSON)).
#[local] Set Elimination Schemes.

Module Json.

(** [v[key]] on an object: [None] is [undefined].  The members of a parsed
    object have distinct keys. *)
Fixpoint lookup (key : jsstring) (members : list (jsstring * JSON))
    : option JSON :=
  match members with
  | [] => None
  | (k, v) :: members' =>
      if Str.eqb k key then Some v else lookup key members'
  end.

(** [key in v], for the four keys of the source (none of them is an array
    index or a member of a prototype): a TypeError when [v] is not an
    object; [None] stands for [undefined]. *)
Definition has (key : jsstring) (v : option JSON) : result bool :=
  match v with
  | Some (JObject members) =>
      Ok (match lookup key members with Some _ => true | None => false end)
  | Some (JArray _) => Ok false
  | _ => Throw TypeError
  end.

(** [v.key] where [key in v] holds. *)
Definition get (key : jsstring) (v : option JSON) : option JSON :=
  match v with
  | Some (JObject members) => lookup key members
  | _ => None
  end.

End Json.

(** ** The inbound event (lines 15-38) *)

Module Repo.
Record t : Type :=
  { type : jsstring;
    name : jsstring;
    id : jsstring;
    private : bool;
    url_web : jsstring;
    url_api : jsstring;
    owner_id : jsstring;
    tags : option (list jsstring) }.
End Repo.

Record HFWebhookPayload : Type :=
  { event_action : jsstring;
    event_scope : jsstring;
    repo : Repo.t;
    webhook_id : jsstring;
    webhook_version : Z }.

(** ** The outbound document (lines 173-194) *)

(** A value read from the [colors] object: a number of the table, or a
    member that the object inherits from [Object.prototype]. *)
Inductive color_value : Type :=
| ColorNumber (n : Z)
| Inherited (member : jsstring).

Record field : Type :=
  { field_name : jsstring; field_value : JSON; inline : bool }.

Record embed : Type :=
  { title : jsstring;
    description : jsstring;
    color : color_value;
    fields : list field;
    url : jsstring;
    timestamp : jsstring;
    footer_text : jsstring;
    footer_icon_url : jsstring }.

Record discordPayload : Type := { embeds : list embed }.

(** ** The network *)

Inductive request : Type :=
| Get (url : jsstring)
| Post (url : jsstring) (contentType : jsstring) (body : discordPayload).

(** A response: [json] is the outcome of [Response.json()] on the body (the
    JSON parser is not modelled). *)
Record Response : Type :=
  { status : Z;
    statusText : jsstring;
    text : jsstring;
    json : result JSON }.

(** [response.ok] *)
Definition ok (r : Response) : bool :=
  ((200 <=? status r) && (status r <=? 299))%Z.

(** The world outside the worker: what [fetch] answers to a request, given
    the requests issued before it, what [new Date().toISOString()] reads,
    and the case table of the platform: what [toUpperCase] gives on a
    string of one code unit beyond ASCII (one code unit or more: the sharp
    s gives "SS"), which depends on its version of Unicode. *)
Record World : Type :=
  { answer : list request -> request -> result Response;
    now : jsstring;
    unicode_upper : N -> jsstring }.

(** A computation issues requests, in order, and returns or throws. *)
Definition M (A : Type) : Type := list request -> result A * list request.

Definition ret {A : Type} (a : A) : M A := fun tr => (Ok a, tr).

Definition bind {A B : Type} (m : M A) (f : A -> M B) : M B :=
  fun tr =>
    match m tr with
    | (Ok a, tr') => f a tr'
    | (Throw e, tr') => (Throw e, tr')
    end.

Definition lift {A : Type} (x : result A) : M A := fun tr => (x, tr).

Definition fetch (w : World) (req : request) : M Response :=
  fun tr => (answer w tr req, tr ++ [req]).

Declare Scope m_scope.
Delimit Scope m_scope with M.
Notation "x <- m ;; k" := (bind m (fun x => k))
  (at level 61, m at next level, right associativity) : m_scope.

(** ** [sendToDiscord] (lines 145-215) *)

(** The [colors] object of lines 155-159. *)
Definition colors : list (jsstring * Z) :=
  [ (js "model", 0xFF9D00%Z); (js "dataset", 0x00D1FF%Z);
    (js "space", 0xFF006E%Z) ].

(** The members of [Object.prototype], which every object literal inherits;
    each is a function or an object. *)
Definition Object_prototype : list jsstring :=
  [ js "constructor"; js "hasOwnProperty"; js "isPrototypeOf";
    js "propertyIsEnumerable"; js "toLocaleString"; js "toString";
    js "valueOf"; js "__proto__"; js "__defineGetter__";
    js "__defineSetter__"; js "__lookupGetter__"; js "__lookupSetter__" ].

Fixpoint own_color (key : jsstring) (table : list (jsstring * Z)) : option Z :=
  match table with
  | [] => None
  | (k, n) :: table' => if Str.eqb k key then Some n else own_color key table'
  end.

(** [colors[key]]: an own property, else an inherited one, else
    [undefined]. *)
Definition colors_at (key : jsstring) : option color_value :=
  match own_color key colors with
  | Some n => Some (ColorNumber n)
  | None =>
      if existsb (Str.eqb key) Object_prototype then Some (Inherited key)
      else None
  end.

(** [colors[repo.type] || 0x808080] *)
Definition color_of (type : jsstring) : color_value :=
  match colors_at type with
  | Some (ColorNumber n) =>
      if (n =? 0)%Z then ColorNumber 0x808080%Z else ColorNumber n
  | Some (Inherited member) => Inherited member
  | None => ColorNumber 0x808080%Z
  end.

(** [repo.tags?.slice(0, 5).join(', ') || 'None'] *)
Definition tags_of (tags : option (list jsstring)) : jsstring :=
  match tags with
  | Some ts =>
      match Str.join (js ", ") (firstn 5 ts) with
      | [] => js "None"
      | joined => joined
      end
  | None => js "None"
  end.

(** [s.toUpperCase()] on a string of at most one code unit, as [charAt]
    gives it: the ASCII mapping on an ASCII code unit, the case table of
    the platform beyond. *)
Definition toUpperCase (w : World) (s : jsstring) : jsstring :=
  flat_map (fun c => if c <? 128 then [Str.upper_unit c]
                     else unicode_upper w c) s.

(** [type.charAt(0).toUpperCase() + type.slice(1)] *)
Definition capitalize (w : World) (type : jsstring) : jsstring :=
  toUpperCase w (Str.charAt0 type) ++ Str.slice_from 1 type.

(** The icon of the footer, line 190. *)
Definition huggingface_logo : jsstring :=
  js "https://huggingface.co/front/assets/huggingface_logo-noborder.svg".

Definition readme_url (name : jsstring) : jsstring :=
  js "https://huggingface.co/" ++ name ++ js "/raw/main/README.md".

Section Pipeline.
Local Open Scope m_scope.

(** Two parts of the language are parameters: the text of an integer that
    is not safe, and the conversion to a number of a value that is a
    string, an array or an object. *)
Variable unsafe_text : Z -> jsstring.
Variable coerce : JSON -> number.

(** The number that arithmetic and comparison see in a JSON value;
    [undefined] gives NaN. *)
Definition ToNumber (v : option JSON) : number :=
  match v with
  | None => NaN
  | Some JNull => Finite 0
  | Some (JBool b) => Finite (if b then 1 else 0)
  | Some (JNumber x) => Finite x
  | Some other => coerce other
  end.

(** ["safetensors" in model_info && "total" in model_info.safetensors] *)
Definition has_path (outer inner : jsstring) (model_info : JSON)
    : result bool :=
  rbind (Json.has outer (Some model_info)) (fun present =>
  if present
  then Json.has inner (Json.get outer (Some model_info))
  else Ok false).

Definition get_path (outer inner : jsstring) (model_info : JSON)
    : option JSON :=
  Json.get inner (Json.get outer (Some model_info)).

Definition sendToDiscord (w : World) (payload : HFWebhookPayload)
    (webhookUrl : jsstring) : M unit :=
  let repo := repo payload in
  if denied (Repo.name repo) then ret tt
  else
    let color := color_of (Repo.type repo) in
    let tags := tags_of (Repo.tags repo) in
    model_info_res <- fetch w (Get (Repo.url_api repo)) ;;
    model_info <- lift (json model_info_res) ;;
    readme_res <- fetch w (Get (readme_url (Repo.name repo))) ;;
    let readme :=
      if (status readme_res =? 200)%Z then Some (text readme_res)
      else None in
    description <- lift (Markdown.cleanMarkdown readme) ;;
    let fields0 :=
      [ {| field_name := js "Type";
           field_value := JString (capitalize w (Repo.type repo));
           inline := true |} ] in
    has_total <- lift (has_path (js "safetensors") (js "total") model_info) ;;
    let fields1 :=
      if has_total
      then fields0 ++
           [ {| field_name := js "Parameters";
                field_value :=
                  JString (abbreviateNumber unsafe_text
                    (ToNumber (get_path (js "safetensors") (js "total")
                                        model_info))
                    (js "floor"));
                inline := true |} ]
      else fields0 in
    has_license <- lift (has_path (js "cardData") (js "license") model_info) ;;
    let fields2 :=
      if has_license
      then fields1 ++
           [ {| field_name := js "License";
                field_value :=
                  match get_path (js "cardData") (js "license") model_info
                  with Some v => v | None => JNull end;
                inline := true |} ]
      else fields1 in
    let discordPayload :=
      {| embeds :=
           [ {| title := Repo.name repo;
                description := description;
                color := color;
                fields := fields2;
                url := Repo.url_web repo;
                timestamp := now w;
                footer_text := js "Hugging Face";
                footer_icon_url := huggingface_logo |} ] |} in
    response <- fetch w (Post webhookUrl (js "application/json")
                              discordPayload) ;;
    if negb (ok response)
    then lift (Throw (DeliveryError (status response) (statusText response)))
    else ret tt.

End Pipeline.

(** ** The entry point (lines 40-77) *)

Module Worker.

(** The inbound request as the handler reads it: the method, the value of
    [request.headers.get('X-Webhook-Secret')] ([None] is [null]) and the
    outcome of [request.json()].  A body that is not JSON rejects; a body
    that is JSON is taken to be of the declared interface
    [HFWebhookPayload]. *)
Record Request : Type :=
  { method : jsstring;
    secret_header : option jsstring;
    json_body : result HFWebhookPayload }.

(** The interface [Env] of lines 40-43; [None] is an unset secret. *)
Record Env : Type :=
  { DISCORD_WEBHOOK_URL : jsstring;
    HF_WEBHOOK_SECRET : option jsstring }.

(** [new Response(body, { status })] *)
Record Answer : Type := { answer_body : jsstring; answer_status : Z }.

(** [if (env.HF_WEBHOOK_SECRET)]: an unset secret and the empty string are
    falsy. *)
Definition truthy (secret : option jsstring) : bool :=
  match secret with
  | Some (_ :: _) => true
  | _ => false
  end.

(** [providedSecret !== env.HF_WEBHOOK_SECRET] *)
Definition differs (provided secret : option jsstring) : bool :=
  match provided, secret with
  | Some a, Some b => negb (Str.eqb a b)
  | None, None => false
  | _, _ => true
  end.

(** [try { ... } catch (error) { ... }]: the requests issued before the
    throw stay issued. *)
Definition try_catch {A : Type} (body : M A) (handler : exn -> M A) : M A :=
  fun tr =>
    match body tr with
    | (Ok a, tr') => (Ok a, tr')
    | (Throw e, tr') => handler e tr'
    end.

Definition method_not_allowed : Answer :=
  {| answer_body := js "Method not allowed"; answer_status := 405 |}.
Definition unauthorized : Answer :=
  {| answer_body := js "Unauthorized"; answer_status := 401 |}.
Definition OK : Answer := {| answer_body := js "OK"; answer_status := 200 |}.

Section Handler.
Local Open Scope m_scope.
Variable unsafe_text : Z -> jsstring.
Variable coerce : JSON -> number.

(** The handler [fetch(request, env)].  It returns the answer to the
    platform and what [console.error] was given, if it was called. *)
Definition fetch (w : World) (request : Request) (env : Env)
    : M (Answer * option exn) :=
  if negb (Str.eqb (method request) (js "POST"))
  then ret (method_not_allowed, None)
  else
    if truthy (HF_WEBHOOK_SECRET env) &&
       differs (secret_header request) (HF_WEBHOOK_SECRET env)
    then ret (unauthorized, None)
    else
      try_catch
        (payload <- lift (json_body request) ;;
         _ <- (if Str.eqb (event_scope payload) (js "repo") &&
                  Str.eqb (event_action payload) (js "create")
               then sendToDiscord unsafe_text coerce w payload
                      (DISCORD_WEBHOOK_URL env)
               else ret tt) ;;
         ret (OK, None))
        (fun error => ret (OK, Some error)).

End Handler.

End Worker.

(** * The vocabulary of the properties *)

Module Spec.
Import Regex.

(** ** Numbers *)

(** At or beyond one trillion. *)
Definition trillion_le (x : number) : Prop :=
  match x with
  | Finite q => (1000000000000 <= q)%Q
  | Infinity negative => negative = false
  | NaN => False
  end.

(** At or beyond the integer [k]. *)
Definition no_less (k : Z) (x : number) : Prop :=
  match x with
  | Finite q => (inject_Z k <= q)%Q
  | Infinity negative => negative = false
  | NaN => False
  end.

(** A binary64 value: a rational that the rounding leaves as it is. *)
Definition is_binary64 (q : Q) : Prop :=
  exists v, Num.binary64 q = Finite v /\ (v == q)%Q.

(** The rounding of a positive value of exponent [e]: the nearest multiple
    of [2^(e-52)]. *)
Definition on_grid (e : Z) (q : Q) : Q :=
  (inject_Z (Num.nearest_even (q / 2 ^ (e - 52))) * 2 ^ (e - 52))%Q.

(** [k] divisions of the loop. *)
Fixpoint divs (k : nat) (x : number) : number :=
  match k with
  | O => x
  | S k' => divs k' (Num.div_1000 x)
  end.

(** ** Letter case

    A letter case of a keyword, stated on code units and without the case
    mapping of the program: a small letter of the keyword ([a] to [z], the
    code units 97 to 122) stands as it is or as its capital, which is 32
    less; every other code unit stands as it is. *)
Definition cased_unit (c d : N) : Prop :=
  c = d \/ (97 <= d /\ d <= 122 /\ c + 32 = d).

Definition cased (K' K : jsstring) : Prop := Forall2 cased_unit K' K.

(** One thousand to the power [k]: where the unit of index [k - 1]
    starts. *)
Definition magnitude (k : nat) : Q := inject_Z (1000 ^ Z.of_nat k).

(** ** What a pattern matches

    [Matches fl r st st'] holds when the pattern [r] can take the matcher
    from the state [st] to the state [st'], stated without continuations. *)

(** The code unit before the position reached by passing [m]. *)
Fixpoint walk (p : option N) (m : jsstring) : option N :=
  match m with
  | [] => p
  | c :: m' => walk (Some c) m'
  end.

Definition within (hi : option nat) (n : nat) : Prop :=
  match hi with
  | None => True
  | Some h => (n <= h)%nat
  end.

Fixpoint Matches (fl : flags) (r : regex) (st st' : state) : Prop :=
  match r with
  | Empty => st' = st
  | One a =>
      exists c, rest st = c :: rest st' /\ atom_ok fl a c = true /\
                prev st' = Some c /\ cap st' = cap st
  | Quant a lo hi _ =>
      exists cs, rest st = cs ++ rest st' /\
                 forallb (atom_ok fl a) cs = true /\
                 (lo <= List.length cs)%nat /\ within hi (List.length cs) /\
                 prev st' = walk (prev st) cs /\ cap st' = cap st
  | Seq r1 r2 => exists mid, Matches fl r1 st mid /\ Matches fl r2 mid st'
  | Alt r1 r2 => Matches fl r1 st st' \/ Matches fl r2 st st'
  | Bol => st' = st /\ at_bol fl st = true
  | Eol => st' = st /\ at_eol fl st = true
  | Group r1 =>
      exists st1, Matches fl r1 st st1 /\
                  st' = {| prev := prev st1; rest := rest st1;
                           cap := Some (consumed st st1) |}
  | Backref =>
      match cap st with
      | None => st' = st
      | Some w =>
          skip_same fl w (prev st) (rest st) = Some (prev st', rest st') /\
          cap st' = cap st
      end
  end.

(** ** Lines *)

(** The lines of a text, as the flag [m] sees them: each line terminator
    ends a line. *)
Fixpoint lines (s : jsstring) : list jsstring :=
  match s with
  | [] => [[]]
  | c :: s' =>
      if Str.is_line_terminator c then [] :: lines s'
      else match lines s' with
           | l :: ls => (c :: l) :: ls
           | [] => [[c]]
           end
  end.

Definition noterm (l : jsstring) : Prop :=
  forallb (fun c => negb (Str.is_line_terminator c)) l = true.

(** A position at the start of a line, and one at the end of a line. *)
Definition bol (p : option N) : Prop :=
  match p with
  | None => True
  | Some c => Str.is_line_terminator c = true
  end.

Definition eolpos (s : jsstring) : Prop :=
  match s with
  | [] => True
  | c :: _ => Str.is_line_terminator c = true
  end.

(** A pattern whose every match starts at the start of a line, ends at the
    end of a line and is not empty. *)
Definition anchored (fl : flags) (r : regex) : Prop :=
  forall p s st',
    match_at fl r p s = Some st' ->
    bol p /\ eolpos (rest st') /\ exists m, m <> [] /\ s = m ++ rest st'.

(** The text left when every match is removed. *)
Definition erase (segs : list segment) : jsstring :=
  flat_map (fun seg => match seg with Keep c => [c] | Hit _ _ => [] end) segs.

Section Survivor.
Variable fl : flags.
Variable r : regex.

(** A line of the result is empty, or is a line of the input on which the
    pattern does not match. *)
Definition survivor (ctx l : jsstring) : Prop :=
  l = [] \/
  (In l (lines ctx) /\
   exists p0 b, bol p0 /\ eolpos b /\ match_at fl r p0 (l ++ b) = None).

End Survivor.

(** A heading line as the pattern of step 5 has it: up to three white space
    characters, one to six [#], at least one white space character, then any
    text. *)
Definition atx_line (l : jsstring) : Prop :=
  exists indent n gap text,
    l = indent ++ repeat (code "#") n ++ gap ++ text /\
    (List.length indent <= 3)%nat /\ forallb Str.is_space indent = true /\
    (1 <= n <= 6)%nat /\
    gap <> [] /\ forallb Str.is_space gap = true.

Definition is_underline_mark (c : N) : bool :=
  (c =? code "-") || (c =? code "=").

(** An underline line: three or more [-] or [=], white space allowed before
    and after. *)
Definition setext_line (l : jsstring) : Prop :=
  exists indent marks trail,
    l = indent ++ marks ++ trail /\
    forallb Str.is_space indent = true /\
    (3 <= List.length marks)%nat /\ forallb is_underline_mark marks = true /\
    forallb Str.is_space trail = true.

(** ** Metadata paths and the expected document *)

(** What a metadata document has at a path of two keys: a value, nothing, or
    something that is not an object where an object has to be. *)
Inductive path_status : Type :=
| Exposed (v : JSON)
| Absent
| Malformed.

Definition path_of (outer inner : jsstring) (model_info : JSON)
    : path_status :=
  match model_info with
  | JObject members =>
      match Json.lookup outer members with
      | None => Absent
      | Some (JObject inner_members) =>
          match Json.lookup inner inner_members with
          | Some v => Exposed v
          | None => Absent
          end
      | Some (JArray _) => Absent
      | Some _ => Malformed
      end
  | JArray _ => Absent
  | _ => Malformed
  end.

(** The event with its visibility flag set to [b]. *)
Definition with_private (b : bool) (payload : HFWebhookPayload)
    : HFWebhookPayload :=
  let r := repo payload in
  {| event_action := event_action payload;
     event_scope := event_scope payload;
     repo := {| Repo.type := Repo.type r; Repo.name := Repo.name r;
                Repo.id := Repo.id r; Repo.private := b;
                Repo.url_web := Repo.url_web r;
                Repo.url_api := Repo.url_api r;
                Repo.owner_id := Repo.owner_id r;
                Repo.tags := Repo.tags r |};
     webhook_id := webhook_id payload;
     webhook_version := webhook_version payload |}.

Definition type_field (w : World) (payload : HFWebhookPayload) : field :=
  {| field_name := js "Type";
     field_value := JString (capitalize w (Repo.type (repo payload)));
     inline := true |}.

Definition license_field (license : JSON) : field :=
  {| field_name := js "License"; field_value := license; inline := true |}.

(** The outcome of the last step: the answer to the post, lines 204-214. *)
Definition delivery (w : World) (issued : list request) (post : request)
    : result unit :=
  match answer w issued post with
  | Ok response =>
      if ok response then Ok tt
      else Throw (DeliveryError (status response) (statusText response))
  | Throw e => Throw e
  end.

(** The two network reads of an accepted event. *)
Record reads (w : World) (payload : HFWebhookPayload) (tr : list request)
    (model_info : JSON) (readme_res : Response) : Prop :=
  { reads_accepted : isRelevant (Repo.name (repo payload)) = true;
    reads_api :
      exists model_info_res,
        answer w tr (Get (Repo.url_api (repo payload))) = Ok model_info_res /\
        json model_info_res = Ok model_info;
    reads_readme :
      answer w (tr ++ [Get (Repo.url_api (repo payload))])
             (Get (readme_url (Repo.name (repo payload)))) = Ok readme_res;
    reads_total :
      path_of (js "safetensors") (js "total") model_info <> Malformed;
    reads_license :
      path_of (js "cardData") (js "license") model_info <> Malformed }.

Section Expected.
Variable unsafe_text : Z -> jsstring.
Variable coerce : JSON -> number.

Definition parameters_field (total : JSON) : field :=
  {| field_name := js "Parameters";
     field_value :=
       JString (abbreviateNumber unsafe_text (ToNumber coerce (Some total))
                                 (js "floor"));
     inline := true |}.

(** The field list of the specification: Type, then Parameters when the
    metadata has [safetensors.total], then License when it has
    [cardData.license]. *)
Definition expected_fields (w : World) (payload : HFWebhookPayload)
    (model_info : JSON) : list field :=
  [type_field w payload] ++
  match path_of (js "safetensors") (js "total") model_info with
  | Exposed total => [parameters_field total]
  | _ => []
  end ++
  match path_of (js "cardData") (js "license") model_info with
  | Exposed license => [license_field license]
  | _ => []
  end.

Definition expected_embed (w : World) (payload : HFWebhookPayload)
    (model_info : JSON) (description : jsstring) : embed :=
  {| title := Repo.name (repo payload);
     description := description;
     color := color_of (Repo.type (repo payload));
     fields := expected_fields w payload model_info;
     url := Repo.url_web (repo payload);
     timestamp := now w;
     footer_text := js "Hugging Face";
     footer_icon_url := huggingface_logo |}.

End Expected.

(** ** What every match of a pattern has *)

(** A lower bound of the length of a match. *)
Fixpoint min_len (r : regex) : nat :=
  match r with
  | Empty => 0
  | One _ => 1
  | Quant _ lo _ _ => lo
  | Seq r1 r2 => min_len r1 + min_len r2
  | Alt r1 r2 => Nat.min (min_len r1) (min_len r2)
  | Bol => 0
  | Eol => 0
  | Group r1 => min_len r1
  | Backref => 0
  end.

(** The atom is the pattern character [c], which is no letter (so that flag
    [i] makes no difference). *)
Definition needs_atom (c : N) (a : atom) : bool :=
  match a with
  | Char d => (d =? c) && negb (Str.is_upper c) && negb (Str.is_lower c)
  | Class _ => false
  end.

(** Every match of the pattern contains the code unit [c]: a sufficient
    test. *)
Fixpoint needs (c : N) (r : regex) : bool :=
  match r with
  | One a => needs_atom c a
  | Quant a lo _ _ => (1 <=? lo)%nat && needs_atom c a
  | Seq r1 r2 => needs c r1 || needs c r2
  | Alt r1 r2 => needs c r1 && needs c r2
  | Group r1 => needs c r1
  | _ => false
  end.

(** The text that a list of segments was cut from. *)
Definition source (segs : list segment) : jsstring :=
  flat_map (fun seg => match seg with Keep c => [c] | Hit m _ => m end) segs.

(** ** Shapes of text *)

(** A text without the characters that start markup ([<], [#], [!], [|],
    [&]) and without line terminators. *)
Definition markup_free (s : jsstring) : bool :=
  forallb (fun c =>
             negb (existsb (N.eqb c)
                     [code "<"; code "#"; code "!"; code "|"; code "&"]) &&
             negb (Str.is_line_terminator c)) s.

(** A text with a code unit that is neither white space nor [-] nor [=]. *)
Definition has_word (s : jsstring) : bool :=
  existsb (fun c => negb (Str.is_space c) && negb (is_underline_mark c)) s.

(** A table row as the pattern of step 9 has it: white space, a pipe, any
    text, a pipe, white space. *)
Definition table_line (l : jsstring) : Prop :=
  exists indent body trail,
    l = indent ++ code "|" :: body ++ code "|" :: trail /\
    forallb Str.is_space indent = true /\
    forallb Str.is_space trail = true.

(** Three line feeds in a row. *)
Definition has_blank_lines (t : jsstring) : Prop :=
  exists a b, t = a ++ [10; 10; 10] ++ b.

(** The number of line feeds at the head of a text. *)
Fixpoint lead (s : jsstring) : nat :=
  match s with
  | c :: s' => if c =? 10 then S (lead s') else 0%nat
  | [] => 0%nat
  end.

(** ** The requests of a run and the entry point *)

Definition api_get (payload : HFWebhookPayload) : request :=
  Get (Repo.url_api (repo payload)).

Definition readme_get (payload : HFWebhookPayload) : request :=
  Get (readme_url (Repo.name (repo payload))).

(** The secret check of lines 53-58 passes: no secret is configured (or the
    empty one), or the header carries the configured secret. *)
Definition authorized (request : Worker.Request) (env : Worker.Env) : bool :=
  match Worker.HF_WEBHOOK_SECRET env with
  | Some (c :: secret) =>
      match Worker.secret_header request with
      | Some provided => Str.eqb provided (c :: secret)
      | None => false
      end
  | _ => true
  end.

(** The event is the creation of a repository (line 65). *)
Definition is_create (payload : HFWebhookPayload) : bool :=
  Str.eqb (event_scope payload) (js "repo") &&
  Str.eqb (event_action payload) (js "create").

End Spec.

(** ** An example run: the end-to-end scenario of the specification *)

Module Scenario.

Definition api_url : jsstring :=
  js "https://huggingface.co/api/models/acme/small-model".

Definition payload_of_type (type : jsstring) : HFWebhookPayload :=
  {| event_action := js "create";
     event_scope := js "repo";
     repo := {| Repo.type := type;
                Repo.name := js "acme/small-model";
                Repo.id := js "1";
                Repo.private := false;
                Repo.url_web := js "https://huggingface.co/acme/small-model";
                Repo.url_api := api_url;
                Repo.owner_id := js "2";
                Repo.tags := None |};
     webhook_id := js "3";
     webhook_version := 3 |}.

Definition payload : HFWebhookPayload := payload_of_type (js "model").

Definition metadata : JSON :=
  JObject
    [ (js "safetensors", JObject [ (js "total", JNumber 7000000000) ]);
      (js "cardData", JObject [ (js "license", JString (js "mit")) ]) ].

(** A world in which the metadata API answers with [model_info], the
    documentation host with a 404, the webhook with a 204. *)
Definition world_of (model_info : JSON) : World :=
  {| answer := fun _ req =>
       match req with
       | Get u =>
           if Str.eqb u api_url
           then Ok {| status := 200; statusText := js "OK"; text := [];
                      json := Ok model_info |}
           else Ok {| status := 404; statusText := js "Not Found";
                      text := js "Not Found"; json := Throw SyntaxError |}
       | Post _ _ _ =>
           Ok {| status := 204; statusText := js "No Content"; text := [];
                 json := Throw SyntaxError |}
       end;
     now := js "2024-01-01T00:00:00.000Z";
     unicode_upper := fun c => [c] |}.

Definition world : World := world_of metadata.

Definition not_found : Response :=
  {| status := 404; statusText := js "Not Found"; text := js "Not Found";
     json := Throw SyntaxError |}.

Definition webhook : jsstring := js "https://discord.com/api/webhooks/1/x".

Definition no_unsafe : Z -> jsstring := fun _ => [].
Definition no_coercion : JSON -> number := fun _ => NaN.

(** A world in which every request is rejected. *)
Definition offline : World :=
  {| answer := fun _ _ => Throw NetworkError; now := [];
     unicode_upper := fun c => [c] |}.

(** A world like [world] in which the documentation host answers with the
    text [readme] and the webhook answers with [webhook_status]. *)
Definition world_with (readme : jsstring) (webhook_status : Z) : World :=
  {| answer := fun _ req =>
       match req with
       | Get u =>
           if Str.eqb u api_url
           then Ok {| status := 200; statusText := js "OK"; text := [];
                      json := Ok metadata |}
           else Ok {| status := 200; statusText := js "OK"; text := readme;
                      json := Throw SyntaxError |}
       | Post _ _ _ =>
           Ok {| status := webhook_status; statusText := js "status";
                 text := []; json := Throw SyntaxError |}
       end;
     now := js "2024-01-01T00:00:00.000Z";
     unicode_upper := fun c => [c] |}.

Definition found (readme : jsstring) : Response :=
  {| status := 200; statusText := js "OK"; text := readme;
     json := Throw SyntaxError |}.

Definition request : Worker.Request :=
  {| Worker.method := js "POST";
     Worker.secret_header := Some (js "s3cret");
     Worker.json_body := Ok payload |}.

Definition env : Worker.Env :=
  {| Worker.DISCORD_WEBHOOK_URL := webhook;
     Worker.HF_WEBHOOK_SECRET := Some (js "s3cret") |}.

(** A request with another method, and a POST without the secret header. *)
Definition get_request : Worker.Request :=
  {| Worker.method := js "GET";
     Worker.secret_header := None;
     Worker.json_body := Throw SyntaxError |}.

Definition unsigned_request : Worker.Request :=
  {| Worker.method := js "POST";
     Worker.secret_header := None;
     Worker.json_body := Ok payload |}.

(** An event that differs from [payload] in every field that the run does
    not read. *)
Definition other_payload : HFWebhookPayload :=
  {| event_action := js "update";
     event_scope := js "repo.content";
     repo := {| Repo.type := js "model";
                Repo.name := js "acme/small-model";
                Repo.id := js "41";
                Repo.private := true;
                Repo.url_web := js "https://huggingface.co/acme/small-model";
                Repo.url_api := api_url;
                Repo.owner_id := js "42";
                Repo.tags := Some [js "gguf"] |};
     webhook_id := js "43";
     webhook_version := 2 |}.

End Scenario.

(** * Properties *)

Import Spec.

(** ** Strings *)

Lemma eqb_eq (s t : jsstring) : Str.eqb s t = true <-> s = t.
Proof.
  revert t; induction s as [|c s IH]; intros [|d t]; simpl;
    try (split; [discriminate | congruence]); try tauto.
  rewrite andb_true_iff, N.eqb_eq, IH. split.
  - intros [-> ->]; reflexivity.
  - intros H; inversion H; auto.
Qed.

Lemma startsWith_app (s k : jsstring) :
  Str.startsWith s k = true <-> exists post, s = k ++ post.
Proof.
  revert s; induction k as [|d k IH]; intros [|c s]; simpl.
  - split; [intros _; exists []; reflexivity | reflexivity].
  - split; [intros _; exists (c :: s); reflexivity | reflexivity].
  - split; [discriminate | intros [post H]; discriminate].
  - rewrite andb_true_iff, N.eqb_eq, IH. split.
    + intros [-> [post ->]]. exists post; reflexivity.
    + intros [post H]. inversion H; subst. split; [reflexivity | eauto].
Qed.

Lemma includes_app (s k : jsstring) :
  Str.includes s k = true <-> exists pre post, s = pre ++ k ++ post.
Proof.
  induction s as [|c s IH].
  - change (Str.includes [] k) with (Str.startsWith [] k || false).
    rewrite orb_false_r, startsWith_app. split.
    + intros [post H]. exists [], post. exact H.
    + intros [pre [post H]]. destruct pre as [|x pre]; [|discriminate].
      exists post. exact H.
  - change (Str.includes (c :: s) k)
      with (Str.startsWith (c :: s) k || Str.includes s k).
    rewrite orb_true_iff, startsWith_app, IH. split.
    + intros [[post H] | [pre [post H]]].
      * exists [], post. exact H.
      * exists (c :: pre), post. rewrite H. reflexivity.
    + intros [pre [post H]]. destruct pre as [|x pre].
      * left. exists post. exact H.
      * right. inversion H; subst. exists pre, post. reflexivity.
Qed.

(** ** The relevance filter *)

Lemma denied_iff (name : jsstring) :
  denied name = true <->
  exists K pre post,
    In K DENYLIST /\ Str.toLowerCase name = pre ++ K ++ post.
Proof.
  unfold denied. rewrite existsb_exists. split.
  - intros [K [HK H]]. apply includes_app in H. destruct H as [pre [post H]].
    exists K, pre, post. auto.
  - intros [K [pre [post [HK H]]]]. exists K. split; [exact HK|].
    apply includes_app. eauto.
Qed.

(** A letter case of a keyword is lower-cased to the keyword, and nothing
    else is. *)
Lemma cased_lower (K' K : jsstring) :
  forallb (fun d => negb (Str.is_upper d)) K = true ->
  cased K' K -> Str.toLowerCase K' = K.
Proof.
  intros Hlow H. induction H as [|c d K' K Hc H IH]; [reflexivity|].
  simpl in Hlow. apply andb_true_iff in Hlow. destruct Hlow as [Hd Hlow].
  simpl. f_equal; [|exact (IH Hlow)].
  unfold Str.lower_unit, Str.is_upper in *.
  destruct Hc as [-> | [H1 [H2 H3]]].
  - apply negb_true_iff in Hd. rewrite Hd. reflexivity.
  - replace ((65 <=? c) && (c <=? 90)) with true; [exact H3|].
    symmetry. apply andb_true_iff. split; apply N.leb_le; lia.
Qed.

Lemma lower_cased (K' : jsstring) : cased K' (Str.toLowerCase K').
Proof.
  induction K' as [|c K' IH]; [constructor|].
  simpl. constructor; [|exact IH].
  unfold cased_unit, Str.lower_unit, Str.is_upper.
  destruct ((65 <=? c) && (c <=? 90)) eqn:E; [|left; reflexivity].
  apply andb_true_iff in E. destruct E as [E1 E2].
  apply N.leb_le in E1, E2. right. lia.
Qed.

Lemma DENYLIST_lower (K : jsstring) :
  In K DENYLIST -> forallb (fun d => negb (Str.is_upper d)) K = true.
Proof.
  intros H. repeat (destruct H as [<- | H]; [reflexivity|]). contradiction.
Qed.

(** C1. An identifier in which a denylist keyword occurs, each of its
    letters small or capital, is rejected; an identifier in which no keyword
    occurs in any letter case is accepted; the empty identifier is
    accepted. *)
Theorem isRelevant_denylist :
  (forall K K' pre post,
      In K DENYLIST -> cased K' K ->
      isRelevant (pre ++ K' ++ post) = false) /\
  (forall name,
      (forall K K' pre post,
          In K DENYLIST -> cased K' K ->
          name <> pre ++ K' ++ post) ->
      isRelevant name = true) /\
  isRelevant [] = true.
Proof.
  split; [|split].
  - intros K K' pre post HK HK'. unfold isRelevant.
    apply negb_false_iff, denied_iff.
    exists K, (Str.toLowerCase pre), (Str.toLowerCase post).
    split; [exact HK|].
    rewrite <- (cased_lower (DENYLIST_lower HK) HK').
    unfold Str.toLowerCase. rewrite !map_app. reflexivity.
  - intros name Hnone. unfold isRelevant. apply negb_true_iff.
    destruct (denied name) eqn:Hd; [|reflexivity]. exfalso.
    apply denied_iff in Hd. destruct Hd as [K [pre [post [HK H]]]].
    unfold Str.toLowerCase in H.
    apply map_eq_app in H. destruct H as [a [bc [Hname [Ha Hbc]]]].
    apply map_eq_app in Hbc. destruct Hbc as [b [c [Hbc [Hb Hc]]]].
    subst name bc. apply (Hnone K b a c HK); [|reflexivity].
    rewrite <- Hb. apply lower_cased.
  - reflexivity.
Qed.

Lemma isRelevant_denylist_witness :
  isRelevant (js "acme/Model-GGuf") = false /\
  isRelevant (js "acme/small-model") = true.
Proof.
  split.
  - apply (proj1 isRelevant_denylist (js "gguf") (js "GGuf")
             (js "acme/Model-") []).
    + simpl. auto.
    + unfold cased.
      apply Forall2_cons;
        [right; vm_compute; repeat split; discriminate|].
      apply Forall2_cons;
        [right; vm_compute; repeat split; discriminate|].
      apply Forall2_cons; [left; reflexivity|].
      apply Forall2_cons; [left; reflexivity|]. apply Forall2_nil.
  - apply (proj1 (proj2 isRelevant_denylist)).
    intros K K' pre post HK HK' Hname.
    pose proof (proj1 isRelevant_denylist K K' pre post HK HK') as Hrej.
    rewrite <- Hname in Hrej. vm_compute in Hrej. discriminate Hrej.
Defined.

(** ** Binary64 rounding *)

Module FloatFacts.
Import Num.
#[local] Unset Implicit Arguments.
Local Open Scope Z_scope.
Local Open Scope Q_scope.

Lemma two_neq_0 : ~ 2 == 0.
Proof. discriminate. Qed.

Lemma pow2_pos (e : Z) : 0 < 2 ^ e.
Proof. apply Qpower_0_lt. reflexivity. Qed.

Lemma pow2_plus (a b : Z) : 2 ^ (a + b) == 2 ^ a * 2 ^ b.
Proof. apply Qpower_plus, two_neq_0. Qed.

Lemma pow2_minus (a b : Z) : 2 ^ (a - b) == 2 ^ a / 2 ^ b.
Proof. apply Qpower_minus, two_neq_0. Qed.

Lemma pow2_inject (n : Z) : (0 <= n)%Z -> 2 ^ n == inject_Z (2 ^ n).
Proof. intros H. symmetry. exact (Zpower_Qpower 2 n H). Qed.

Lemma pow2_le (a b : Z) : (a <= b)%Z -> 2 ^ a <= 2 ^ b.
Proof. intros H. apply Qpower_le_compat_l; [exact H | discriminate]. Qed.

Lemma pow2_lt (a b : Z) : (a < b)%Z -> 2 ^ a < 2 ^ b.
Proof. intros H. apply Qpower_lt_compat_l; [exact H | reflexivity]. Qed.

Lemma pow2_lt_inv (a b : Z) : 2 ^ a < 2 ^ b -> (a < b)%Z.
Proof. intros H. apply (Qpower_lt_compat_l_inv 2); [exact H | reflexivity]. Qed.

Lemma cross_lt (x d p r : Q) :
  0 < d -> 0 < r -> x * r < p * d -> x / d < p / r.
Proof.
  intros Hd Hr H. apply Qlt_shift_div_r; [exact Hd|].
  setoid_replace (p / r * d) with (p * d / r) by (field; lra).
  apply Qlt_shift_div_l; assumption.
Qed.

Lemma cross_le (x d p r : Q) :
  0 < d -> 0 < r -> x * r <= p * d -> x / d <= p / r.
Proof.
  intros Hd Hr H. apply Qle_shift_div_r; [exact Hd|].
  setoid_replace (p / r * d) with (p * d / r) by (field; lra).
  apply Qle_shift_div_l; assumption.
Qed.

(** The exponent of a positive rational. *)
Lemma exponent_spec (a : Q) :
  0 < a -> 2 ^ exponent a <= a /\ a < 2 ^ (exponent a + 1).
Proof.
  intros Ha. destruct a as [n d]. unfold exponent. cbn [Qnum Qden].
  assert (0 < n)%Z as Hn by (unfold Qlt in Ha; simpl in Ha; lia).
  destruct (Z.log2_spec n Hn) as [Hn1 Hn2].
  destruct (Z.log2_spec (Z.pos d) (Pos2Z.is_pos d)) as [Hd1 Hd2].
  pose proof (Z.log2_nonneg n) as Hln.
  pose proof (Z.log2_nonneg (Z.pos d)) as Hld.
  set (ln := Z.log2 n) in *. set (ld := Z.log2 (Z.pos d)) in *.
  assert (n # d == inject_Z n / inject_Z (Z.pos d)) as Hq
      by apply Qmake_Qdiv.
  assert (0 < inject_Z (Z.pos d)) as Hdpos by reflexivity.
  destruct (Qle_bool (2 ^ (ln - ld)) (n # d)) eqn:E.
  - apply Qle_bool_iff in E. split; [exact E|].
    replace (ln - ld + 1)%Z with (Z.succ ln - ld)%Z by lia.
    rewrite pow2_minus, Hq.
    apply cross_lt; [exact Hdpos | apply pow2_pos|].
    rewrite !pow2_inject by lia. rewrite <- !inject_Z_mult, <- Zlt_Qlt.
    nia.
  - assert (n # d < 2 ^ (ln - ld)) as Hlt.
    { apply Qnot_le_lt. intros H. apply Qle_bool_iff in H. congruence. }
    split; [|replace (ln - ld - 1 + 1)%Z with (ln - ld)%Z by lia; exact Hlt].
    replace (ln - ld - 1)%Z with (ln - Z.succ ld)%Z by lia.
    rewrite pow2_minus, Hq.
    apply cross_le; [apply pow2_pos | exact Hdpos|].
    rewrite !pow2_inject by lia. rewrite <- !inject_Z_mult, <- Zle_Qle.
    nia.
Qed.

Lemma exponent_unique (a : Q) (e : Z) :
  2 ^ e <= a -> a < 2 ^ (e + 1) -> exponent a = e.
Proof.
  intros H1 H2.
  assert (0 < a) as Ha by (eapply Qlt_le_trans; [apply pow2_pos | exact H1]).
  destruct (exponent_spec a Ha) as [H3 H4].
  assert (2 ^ e < 2 ^ (exponent a + 1)) as Hx
      by (eapply Qle_lt_trans; eassumption).
  assert (2 ^ exponent a < 2 ^ (e + 1)) as Hy
      by (eapply Qle_lt_trans; eassumption).
  apply pow2_lt_inv in Hx, Hy. lia.
Qed.


(** *** The nearest integer *)

Lemma nearest_even_floor (x : Q) :
  (Qfloor x <= nearest_even x <= Qfloor x + 1)%Z.
Proof.
  unfold nearest_even. destruct (x - inject_Z (Qfloor x) ?= 1 # 2);
    [destruct (Z.even (Qfloor x))| |]; lia.
Qed.

Lemma nearest_even_ge (x : Q) (k : Z) :
  inject_Z k <= x -> (k <= nearest_even x)%Z.
Proof.
  intros H. apply Qfloor_resp_le in H. rewrite Qfloor_Z in H.
  pose proof (nearest_even_floor x). lia.
Qed.

Lemma nearest_even_low (x : Q) :
  x - inject_Z (Qfloor x) < 1 # 2 -> nearest_even x = Qfloor x.
Proof.
  intros H. unfold nearest_even.
  rewrite (proj1 (Qlt_alt _ _) H). reflexivity.
Qed.

Lemma nearest_even_le (x : Q) (k : Z) :
  x <= inject_Z k -> (nearest_even x <= k)%Z.
Proof.
  intros H. pose proof (Qfloor_resp_le _ _ H) as Hf. rewrite Qfloor_Z in Hf.
  pose proof (nearest_even_floor x) as Hn.
  destruct (Z.eq_dec (Qfloor x) k) as [E | E]; [|lia].
  rewrite nearest_even_low; [lia|]. rewrite E. lra.
Qed.

Lemma nearest_even_lt (x : Q) (k : Z) :
  x < inject_Z k - (1 # 2) -> (nearest_even x < k)%Z.
Proof.
  intros H. pose proof (Qfloor_le x) as Hf.
  assert (Qfloor x < k)%Z as Hlt by (rewrite Zlt_Qlt; lra).
  pose proof (nearest_even_floor x) as Hn.
  destruct (Z.eq_dec (Qfloor x) (k - 1)) as [E | E]; [|lia].
  rewrite nearest_even_low; [lia|]. rewrite E.
  assert (inject_Z (k - 1) == inject_Z k - 1) as Ek
      by (unfold Qeq; simpl; lia).
  lra.
Qed.

Lemma nearest_even_comp (x y : Q) :
  x == y -> nearest_even x = nearest_even y.
Proof.
  intros H. unfold nearest_even. rewrite (Qfloor_comp _ _ H).
  assert (x - inject_Z (Qfloor y) == y - inject_Z (Qfloor y)) as H'
      by (rewrite H; reflexivity).
  rewrite (Qcompare_comp _ _ H' (1 # 2) (1 # 2) (Qeq_refl _)). reflexivity.
Qed.

Lemma nearest_even_Z (k : Z) : nearest_even (inject_Z k) = k.
Proof.
  pose proof (nearest_even_ge (inject_Z k) k (Qle_refl _)).
  pose proof (nearest_even_le (inject_Z k) k (Qle_refl _)). lia.
Qed.

(** *** Rounding to binary64 *)

Lemma binary64_binade (q : Q) (e : Z) :
  2 ^ e <= q -> q < 2 ^ (e + 1) -> (-1022 <= e)%Z ->
  binary64 q = if Qle_bool (2 ^ 1024) (on_grid e q) then Infinity false
               else Finite (on_grid e q).
Proof.
  intros H1 H2 He.
  assert (0 < q) as Hq by (eapply Qlt_le_trans; [apply pow2_pos | exact H1]).
  destruct q as [[|p|p] d]; try (vm_compute in Hq; discriminate).
  unfold binary64, on_grid.
  change (Qabs (Z.pos p # d)) with (Z.pos p # d).
  change (Qle_bool 0 (Z.pos p # d)) with true.
  rewrite (exponent_unique _ e H1 H2), Z.max_l by lia. reflexivity.
Qed.

Lemma on_grid_bounds (q : Q) (e : Z) :
  2 ^ e <= q -> q < 2 ^ (e + 1) ->
  (2 ^ 52 <= nearest_even (q / 2 ^ (e - 52)) <= 2 ^ 53)%Z /\
  2 ^ e <= on_grid e q /\ on_grid e q <= 2 ^ (e + 1).
Proof.
  intros H1 H2. pose proof (pow2_pos (e - 52)) as Hu.
  assert (2 ^ e == inject_Z (2 ^ 52) * 2 ^ (e - 52)) as Ee.
  { rewrite <- (pow2_inject 52) by lia. rewrite <- pow2_plus.
    replace (52 + (e - 52))%Z with e by lia. reflexivity. }
  assert (2 ^ (e + 1) == inject_Z (2 ^ 53) * 2 ^ (e - 52)) as Ee1.
  { rewrite <- (pow2_inject 53) by lia. rewrite <- pow2_plus.
    replace (53 + (e - 52))%Z with (e + 1)%Z by lia. reflexivity. }
  assert (2 ^ 52 <= nearest_even (q / 2 ^ (e - 52)))%Z as Hlo.
  { apply nearest_even_ge. apply Qle_shift_div_l; [exact Hu|].
    rewrite <- Ee. exact H1. }
  assert (nearest_even (q / 2 ^ (e - 52)) <= 2 ^ 53)%Z as Hhi.
  { apply nearest_even_le. apply Qle_shift_div_r; [exact Hu|].
    rewrite <- Ee1. apply Qlt_le_weak. exact H2. }
  split; [split; assumption|]. unfold on_grid. rewrite Ee, Ee1. split.
  - apply Qmult_le_compat_r; [|lra]. rewrite <- Zle_Qle. exact Hlo.
  - apply Qmult_le_compat_r; [|lra]. rewrite <- Zle_Qle. exact Hhi.
Qed.


Lemma binary64_finite (q : Q) (e : Z) :
  2 ^ e <= q -> q < 2 ^ (e + 1) -> (-1022 <= e <= 1022)%Z ->
  binary64 q = Finite (on_grid e q).
Proof.
  intros H1 H2 He. rewrite (binary64_binade q e H1 H2) by lia.
  destruct (Qle_bool (2 ^ 1024) (on_grid e q)) eqn:E; [|reflexivity].
  exfalso. apply Qle_bool_iff in E.
  destruct (on_grid_bounds q e H1 H2) as [_ [_ Hhi]].
  assert (2 ^ (e + 1) < 2 ^ 1024) by (apply pow2_lt; lia). lra.
Qed.

Lemma on_grid_Z (e m : Z) :
  on_grid e (inject_Z m * 2 ^ (e - 52)) = inject_Z m * 2 ^ (e - 52).
Proof.
  unfold on_grid. f_equal. f_equal.
  rewrite <- (nearest_even_Z m) at 2. apply nearest_even_comp.
  field. pose proof (pow2_pos (e - 52)). lra.
Qed.

(** Rounding is idempotent. *)
Lemma on_grid_is_binary64 (q : Q) (e : Z) :
  2 ^ e <= q -> q < 2 ^ (e + 1) -> (-1022 <= e < 1022)%Z ->
  is_binary64 (on_grid e q).
Proof.
  intros H1 H2 He.
  destruct (on_grid_bounds q e H1 H2) as [[Hlo Hhi] [Hge Hle]].
  set (m := nearest_even (q / 2 ^ (e - 52))) in *.
  assert (on_grid e q = inject_Z m * 2 ^ (e - 52)) as Ev by reflexivity.
  pose proof (pow2_pos (e - 52)) as Hu.
  destruct (Z.eq_dec m (2 ^ 53)) as [E | E].
  - assert (on_grid e q == inject_Z (2 ^ 52) * 2 ^ (e + 1 - 52)) as Ev'.
    { rewrite Ev, E. replace (e + 1 - 52)%Z with (1 + (e - 52))%Z by lia.
      rewrite pow2_plus. change (2 ^ 53)%Z with (2 * 2 ^ 52)%Z.
      rewrite inject_Z_mult. change (2 ^ 1) with 2.
      change (inject_Z 2) with 2. ring. }
    assert (on_grid e q == 2 ^ (e + 1)) as Ev''.
    { rewrite Ev'. rewrite <- (pow2_inject 52) by lia. rewrite <- pow2_plus.
      replace (52 + (e + 1 - 52))%Z with (e + 1)%Z by lia. reflexivity. }
    exists (on_grid (e + 1) (on_grid e q)). split.
    + apply binary64_finite; [rewrite Ev''; lra| |lia].
      rewrite Ev''. apply pow2_lt. lia.
    + unfold on_grid at 1.
      rewrite (nearest_even_comp _ (inject_Z (2 ^ 52))).
      * rewrite nearest_even_Z. symmetry. exact Ev'.
      * rewrite Ev'. field. pose proof (pow2_pos (e + 1 - 52)). lra.
  - exists (on_grid e (on_grid e q)). split.
    + apply binary64_finite; [exact Hge| |lia].
      rewrite Ev.
      assert (2 ^ (e + 1) == inject_Z (2 ^ 53) * 2 ^ (e - 52)) as Ee1.
      { rewrite <- (pow2_inject 53) by lia. rewrite <- pow2_plus.
        replace (53 + (e - 52))%Z with (e + 1)%Z by lia. reflexivity. }
      rewrite Ee1. apply Qmult_lt_compat_r; [exact Hu|].
      rewrite <- Zlt_Qlt. lia.
    + rewrite Ev, on_grid_Z. reflexivity.
Qed.

(** A binary64 value is a multiple of the unit of its binade. *)
Lemma is_binary64_grid (x : Q) (e : Z) :
  is_binary64 x -> 2 ^ e <= x -> x < 2 ^ (e + 1) ->
  (-1022 <= e <= 1022)%Z ->
  exists M, x == inject_Z M * 2 ^ (e - 52).
Proof.
  intros [v [Hv Ex]] H1 H2 He.
  rewrite (binary64_finite x e H1 H2 He) in Hv. injection Hv as <-.
  exists (nearest_even (x / 2 ^ (e - 52))). symmetry. exact Ex.
Qed.


Lemma exponent_range (q : Q) (lo hi : Z) :
  2 ^ lo <= q -> q < 2 ^ hi ->
  (lo <= exponent q < hi)%Z /\
  2 ^ exponent q <= q /\ q < 2 ^ (exponent q + 1).
Proof.
  intros H1 H2.
  assert (0 < q) as Hq by (eapply Qlt_le_trans; [apply pow2_pos | exact H1]).
  destruct (exponent_spec q Hq) as [H3 H4]. split; [|split; assumption].
  assert (2 ^ lo < 2 ^ (exponent q + 1)) as Hx
      by (eapply Qle_lt_trans; eassumption).
  assert (2 ^ exponent q < 2 ^ hi) as Hy
      by (eapply Qle_lt_trans; eassumption).
  apply pow2_lt_inv in Hx, Hy. lia.
Qed.

Lemma pow2_cancel (a : Z) : 2 ^ a * 2 ^ (- a) == 1.
Proof.
  rewrite <- pow2_plus. replace (a + - a)%Z with 0%Z by lia. reflexivity.
Qed.

(** One division of the loop on a binary64 value from one thousand on, below
    2^53: the quotient is rounded, and it is on the same side of every
    integer and of every half of an integer as the exact quotient. *)
Lemma div_1000_step (x : Q) :
  is_binary64 x -> 1000 <= x -> x < inject_Z (2 ^ 53) ->
  exists v,
    div_1000 (Finite x) = Finite v /\ is_binary64 v /\
    v < inject_Z (2 ^ 53) /\
    forall T2 : Z,
      (x < inject_Z (500 * T2) -> v < inject_Z T2 / 2) /\
      (inject_Z (500 * T2) <= x -> inject_Z T2 / 2 <= v).
Proof.
  intros Hx Hlo Hhi.
  assert (2 ^ 53 == inject_Z (2 ^ 53)) as E53 by (apply pow2_inject; lia).
  (* the quotient and its binade *)
  set (y := x / 1000).
  assert (y == x * (1 # 1000)) as Ey by (unfold y; field).
  assert (2 ^ 0 <= y) as Hy0 by (change (2 ^ 0) with 1; lra).
  assert (y < 2 ^ 44) as Hy1.
  { rewrite (pow2_inject 44) by lia. rewrite <- E53 in Hhi.
    rewrite (pow2_inject 53) in Hhi by lia.
    change (inject_Z (2 ^ 53)) with 9007199254740992 in Hhi.
    change (inject_Z (2 ^ 44)) with 17592186044416. lra. }
  destruct (exponent_range y 0 44 Hy0 Hy1) as [He [Hy2 Hy3]].
  set (e := exponent y) in *.
  pose proof (pow2_pos (e - 52)) as Hu.
  (* the dividend and its binade *)
  assert (2 ^ 9 <= x) as Hx0 by (change (2 ^ 9) with 512; lra).
  assert (x < 2 ^ 53) as Hx1 by (rewrite E53; exact Hhi).
  destruct (exponent_range x 9 53 Hx0 Hx1) as [Hex [Hx2 Hx3]].
  set (ex := exponent x) in *.
  destruct (is_binary64_grid x ex Hx Hx2 Hx3) as [M EM]; [lia|].
  pose proof (pow2_pos (ex - 52)) as Hux.
  assert (e + 9 <= ex)%Z as Hee.
  { assert (2 ^ (e + 9) < 2 ^ (ex + 1)) as H.
    { rewrite pow2_plus. change (2 ^ 9) with 512. lra. }
    apply pow2_lt_inv in H. lia. }
  assert (512 * 2 ^ (e - 52) <= 2 ^ (ex - 52)) as Hunits.
  { change 512 with (2 ^ 9). rewrite <- pow2_plus.
    apply pow2_le. lia. }
  exists (on_grid e y). split; [|split; [|split]].
  - apply binary64_finite; [exact Hy2 | exact Hy3 | lia].
  - apply on_grid_is_binary64; [exact Hy2 | exact Hy3 | lia].
  - destruct (on_grid_bounds y e Hy2 Hy3) as [_ [_ Hle]].
    rewrite <- E53.
    assert (2 ^ (e + 1) < 2 ^ 53) by (apply pow2_lt; lia). lra.
  - intros T2.
    set (K := (T2 * 2 ^ (51 - e))%Z).
    assert (inject_Z K * 2 ^ (e - 52) == inject_Z T2 / 2) as EK.
    { unfold K. rewrite inject_Z_mult, <- (pow2_inject (51 - e)) by lia.
      rewrite <- Qmult_assoc, <- pow2_plus.
      replace (51 - e + (e - 52))%Z with (-1)%Z by lia.
      change (2 ^ (-1)) with (1 # 2). field. }
    assert (inject_Z (500 * T2) == 1000 * (inject_Z T2 / 2)) as E500.
    { rewrite inject_Z_mult. change (inject_Z 500) with 500. field. }
    unfold on_grid. set (m := nearest_even (y / 2 ^ (e - 52))).
    split; intros H.
    + (* below the threshold *)
      set (W := (500 * T2 * 2 ^ (52 - ex))%Z).
      assert (inject_Z W * 2 ^ (ex - 52) == inject_Z (500 * T2)) as EW.
      { unfold W. rewrite (inject_Z_mult (500 * T2)).
        rewrite <- (pow2_inject (52 - ex)) by lia.
        rewrite <- Qmult_assoc, <- pow2_plus.
        replace (52 - ex + (ex - 52))%Z with 0%Z by lia.
        change (2 ^ 0) with 1. ring. }
      assert (M + 1 <= W)%Z as HMW.
      { assert (M < W)%Z; [|lia]. rewrite Zlt_Qlt.
        apply (Qmult_lt_r _ _ (2 ^ (ex - 52))); [exact Hux|].
        rewrite EW, <- EM. exact H. }
      assert (x + 2 ^ (ex - 52) <= inject_Z (500 * T2)) as Hgap.
      { rewrite <- EW, EM.
        setoid_replace (inject_Z M * 2 ^ (ex - 52) + 2 ^ (ex - 52))
          with (inject_Z (M + 1) * 2 ^ (ex - 52))
          by (rewrite inject_Z_plus; change (inject_Z 1) with 1; ring).
        apply Qmult_le_compat_r; [|lra]. rewrite <- Zle_Qle. exact HMW. }
      assert (m < K)%Z as HmK.
      { apply nearest_even_lt. apply Qlt_shift_div_r; [exact Hu|].
        setoid_replace ((inject_Z K - (1 # 2)) * 2 ^ (e - 52))
          with (inject_Z T2 / 2 - (1 # 2) * 2 ^ (e - 52))
          by (rewrite <- EK; ring).
        rewrite E500 in Hgap. lra. }
      rewrite <- EK. apply Qmult_lt_compat_r; [exact Hu|].
      rewrite <- Zlt_Qlt. exact HmK.
    + (* at or above the threshold *)
      assert (K <= m)%Z as HKm.
      { apply nearest_even_ge. apply Qle_shift_div_l; [exact Hu|].
        rewrite EK. rewrite E500 in H. lra. }
      rewrite <- EK. apply Qmult_le_compat_r; [|lra].
      rewrite <- Zle_Qle. exact HKm.
Qed.


(** The rounding never falls below an integer that the value has reached. *)
Lemma binary64_no_less (y : Q) (k : Z) :
  (0 < k < 2 ^ 53)%Z -> inject_Z k <= y -> no_less k (binary64 y).
Proof.
  intros Hk Hy.
  assert (2 ^ 0 <= y) as Hy0.
  { change (2 ^ 0) with (inject_Z 1). eapply Qle_trans; [|exact Hy].
    rewrite <- Zle_Qle. lia. }
  assert (0 < y) as Hpos by (change (2 ^ 0) with 1 in Hy0; lra).
  destruct (exponent_spec y Hpos) as [H1 H2].
  assert (0 <= exponent y)%Z as He.
  { assert (2 ^ 0 < 2 ^ (exponent y + 1)) as H
        by (eapply Qle_lt_trans; eassumption).
    apply pow2_lt_inv in H. lia. }
  set (e := exponent y) in *.
  rewrite (binary64_binade y e H1 H2) by lia.
  destruct (Qle_bool (2 ^ 1024) (on_grid e y)); [reflexivity|].
  unfold no_less. pose proof (pow2_pos (e - 52)) as Hu.
  destruct (Z.le_gt_cases e 52) as [Hsmall | Hbig].
  - set (K := (k * 2 ^ (52 - e))%Z).
    assert (inject_Z K * 2 ^ (e - 52) == inject_Z k) as EK.
    { unfold K. rewrite inject_Z_mult, <- (pow2_inject (52 - e)) by lia.
      rewrite <- Qmult_assoc, <- pow2_plus.
      replace (52 - e + (e - 52))%Z with 0%Z by lia.
      change (2 ^ 0) with 1. ring. }
    rewrite <- EK. unfold on_grid. apply Qmult_le_compat_r; [|lra].
    rewrite <- Zle_Qle. apply nearest_even_ge.
    apply Qle_shift_div_l; [exact Hu|]. rewrite EK. exact Hy.
  - destruct (on_grid_bounds y e H1 H2) as [_ [Hge _]].
    assert (2 ^ 53 <= 2 ^ e) as H53 by (apply pow2_le; lia).
    rewrite (pow2_inject 53) in H53 by lia.
    assert (inject_Z k <= inject_Z (2 ^ 53)) by (rewrite <- Zle_Qle; lia).
    lra.
Qed.

(** The rounding on known values: one tenth; the halfway point between the
    largest finite value and [2^1024], which goes to infinity, and the value
    just below it; a tie between two multiples of [2^(-1074)]. *)
Lemma binary64_examples :
  (exists v, binary64 (1 # 10) = Finite v /\
             v == 3602879701896397 # 36028797018963968) /\
  binary64 (inject_Z (2 ^ 1024 - 2 ^ 970)) = Infinity false /\
  (exists v, binary64 (inject_Z (2 ^ 1024 - 2 ^ 970 - 1)) = Finite v /\
             v == inject_Z (2 ^ 1024 - 2 ^ 971)) /\
  (exists v, binary64 (3 # 2 ^ 1075) = Finite v /\ v == 2 # 2 ^ 1074).
Proof.
  split; [|split; [|split]].
  - eexists. split; vm_compute; reflexivity.
  - vm_compute. reflexivity.
  - eexists. split; vm_compute; reflexivity.
  - eexists. split; vm_compute; reflexivity.
Qed.

Lemma div_1000_no_less (x : number) (k : Z) :
  (0 < k < 2 ^ 53)%Z -> no_less (1000 * k) x -> no_less k (div_1000 x).
Proof.
  intros Hk H. destruct x as [|negative|q]; cbn [no_less div_1000] in *;
    try assumption.
  apply binary64_no_less; [exact Hk|].
  rewrite inject_Z_mult in H. change (inject_Z 1000) with 1000 in H.
  apply Qle_shift_div_l; [reflexivity|]. lra.
Qed.

Lemma ge_1000_no_less (x : number) (k : Z) :
  (1000 <= k)%Z -> no_less k x -> ge_1000 x = true.
Proof.
  intros Hk H. destruct x as [|negative|q]; cbn [no_less ge_1000] in *.
  - contradiction.
  - subst negative. reflexivity.
  - apply Qle_bool_iff. eapply Qle_trans; [|exact H].
    change 1000 with (inject_Z 1000). rewrite <- Zle_Qle. exact Hk.
Qed.

End FloatFacts.

(** ** The number abbreviation *)

Lemma reduce_step (n : number) (unitIndex : Z) :
  reduce n unitIndex =
  if reduce_cond n unitIndex
  then reduce (Num.div_1000 n) (unitIndex + 1)%Z
  else (n, unitIndex).
Proof.
  rewrite reduce_equation_1. unfold reduce_unfold_clause_1.
  destruct (reduce_cond n unitIndex); reflexivity.
Qed.

Lemma reduce_stop (n : number) (unitIndex : Z) :
  reduce_cond n unitIndex = false -> reduce n unitIndex = (n, unitIndex).
Proof. intros H. rewrite reduce_step, H. reflexivity. Qed.

Ltac units_length :=
  unfold reduce_cond, reduce_variant in *;
  change (Z.of_nat (List.length units)) with 4%Z in *.

Lemma reduce_go (n : number) (unitIndex : Z) :
  Num.ge_1000 n = true -> (unitIndex < 3)%Z ->
  reduce n unitIndex = reduce (Num.div_1000 n) (unitIndex + 1)%Z.
Proof.
  intros Hn Hi. rewrite reduce_step. units_length. rewrite Hn.
  replace (unitIndex <? _)%Z with true; [reflexivity|].
  symmetry. apply Z.ltb_lt. lia.
Qed.

(** The loop leaves the index between its start and the last unit. *)
Lemma reduce_index (v : nat) :
  forall n unitIndex,
    reduce_variant unitIndex = v -> (-1 <= unitIndex)%Z ->
    (unitIndex <= snd (reduce n unitIndex) <= Z.max unitIndex 3)%Z.
Proof.
  induction v as [|v IH]; intros n i Hv Hi; rewrite reduce_step.
  - units_length.
    replace (i <? _)%Z with false by (symmetry; apply Z.ltb_ge; lia).
    rewrite andb_false_r. simpl. lia.
  - unfold reduce_cond.
    change (Z.of_nat (List.length units) - 1)%Z with 3%Z.
    destruct (Num.ge_1000 n); simpl; [|lia].
    destruct (i <? 3)%Z eqn:Hlt; simpl; [|lia].
    apply Z.ltb_lt in Hlt.
    specialize (IH (Num.div_1000 n) (i + 1)%Z).
    units_length. lia.
Qed.

Lemma unit_at_cases (i : Z) :
  (0 <= i <= 3)%Z -> In (unit_at i) units.
Proof.
  intros H. assert (i = 0 \/ i = 1 \/ i = 2 \/ i = 3)%Z as Hi by lia.
  destruct Hi as [-> | [-> | [-> | ->]]]; vm_compute; auto.
Qed.

Lemma reduce_trillion (x : number) :
  trillion_le x ->
  reduce x (-1) =
  (Num.div_1000 (Num.div_1000 (Num.div_1000 (Num.div_1000 x))), 3%Z).
Proof.
  intros H.
  assert (forall k, (0 < k <= 1000000000)%Z -> (0 < k < 2 ^ 53)%Z)
    as Hsmall.
  { intros k Hk. split; [lia|]. apply (Z.le_lt_trans _ 1000000000); [lia|].
    reflexivity. }
  assert (no_less (1000 * 1000000000) x) as H12
      by (destruct x; exact H).
  pose proof (FloatFacts.div_1000_no_less x 1000000000
                (Hsmall 1000000000%Z ltac:(lia)) H12)
    as H9.
  change 1000000000%Z with (1000 * 1000000)%Z in H9.
  pose proof (FloatFacts.div_1000_no_less _ 1000000
                (Hsmall 1000000%Z ltac:(lia)) H9) as H6.
  change 1000000%Z with (1000 * 1000)%Z in H6.
  pose proof (FloatFacts.div_1000_no_less _ 1000
                (Hsmall 1000%Z ltac:(lia)) H6) as H3.
  rewrite reduce_go;
    [|eapply FloatFacts.ge_1000_no_less; [|exact H12]; lia | lia].
  rewrite reduce_go;
    [|eapply FloatFacts.ge_1000_no_less; [|exact H9]; lia | lia].
  rewrite reduce_go;
    [|eapply FloatFacts.ge_1000_no_less; [|exact H6]; lia | lia].
  rewrite reduce_go;
    [|eapply FloatFacts.ge_1000_no_less; [|exact H3]; lia | lia].
  apply reduce_stop. units_length. apply andb_false_r.
Qed.

Section AbbreviateProperties.
Variable unsafe_text : Z -> jsstring.

Lemma abbreviateNumber_reduce (num : number) (round : jsstring) :
  abbreviateNumber unsafe_text num round =
  Num.toString unsafe_text (rounded round (fst (reduce num (-1)))) ++
  (if (0 <=? snd (reduce num (-1)))%Z then unit_at (snd (reduce num (-1)))
   else []).
Proof.
  unfold abbreviateNumber. destruct (reduce num (-1)) as [n i]. simpl.
  destruct (0 <=? i)%Z; [reflexivity | rewrite app_nil_r; reflexivity].
Qed.

(** C2. The five examples of the specification, and the last unit: a value
    at or beyond one trillion is divided four times and shown in T; every
    result is the rounding of the value divided zero to four times, with no
    suffix, K, M, B or T in that order, and there is no unit beyond T. *)
Theorem abbreviateNumber_units :
  abbreviateNumber unsafe_text (Finite 999) (js "floor") = js "999" /\
  abbreviateNumber unsafe_text (Finite 1000) (js "floor") = js "1K" /\
  abbreviateNumber unsafe_text (Finite 7500000) (js "floor") = js "7M" /\
  abbreviateNumber unsafe_text (Finite 7500000) (js "round") = js "8M" /\
  abbreviateNumber unsafe_text (Finite 1000000000000) (js "floor")
    = js "1T" /\
  (forall x round,
      trillion_le x ->
      abbreviateNumber unsafe_text x round =
      Num.toString unsafe_text
        (rounded round
           (Num.div_1000 (Num.div_1000 (Num.div_1000 (Num.div_1000 x)))))
      ++ js "T") /\
  (forall x round,
      let show n u := Num.toString unsafe_text (rounded round n) ++ u in
      let d := Num.div_1000 in
      abbreviateNumber unsafe_text x round = show x [] \/
      abbreviateNumber unsafe_text x round = show (d x) (js "K") \/
      abbreviateNumber unsafe_text x round = show (d (d x)) (js "M") \/
      abbreviateNumber unsafe_text x round = show (d (d (d x))) (js "B") \/
      abbreviateNumber unsafe_text x round = show (d (d (d (d x)))) (js "T")).
Proof.
  do 5 (split; [vm_compute; reflexivity|]). split.
  - intros x round H.
    rewrite abbreviateNumber_reduce, reduce_trillion by exact H.
    reflexivity.
  - intros x round. cbv zeta. rewrite abbreviateNumber_reduce.
    assert (forall n, reduce n 3 = (n, 3%Z)) as Hend.
    { intros n. apply reduce_stop. units_length. apply andb_false_r. }
    rewrite reduce_step.
    destruct (reduce_cond x (-1)); [|left; reflexivity].
    right. simpl Z.add. rewrite reduce_step.
    destruct (reduce_cond (Num.div_1000 x) 0); [|left; reflexivity].
    right. simpl Z.add. rewrite reduce_step.
    destruct (reduce_cond (Num.div_1000 (Num.div_1000 x)) 1);
      [|left; reflexivity].
    right. simpl Z.add. rewrite reduce_step.
    destruct (reduce_cond (Num.div_1000 (Num.div_1000 (Num.div_1000 x))) 2);
      [|left; reflexivity].
    right. simpl Z.add. rewrite Hend. reflexivity.
Qed.

(** C3, as the code has it.  A value below 1000 (a negative value, NaN)
    is shown without a suffix, as the rounding of the value itself; a
    negative value is shown as a negative integer in floor mode and never as
    a positive one; the floor mode shows the largest integer not above the
    value, which is the truncation toward zero exactly when the value is
    not negative or is an integer. *)
Theorem abbreviateNumber_below_1000 :
  (forall x round,
      Num.ge_1000 x = false ->
      abbreviateNumber unsafe_text x round
      = Num.toString unsafe_text (rounded round x)) /\
  (forall q round,
      (q < 0)%Q ->
      exists z,
        abbreviateNumber unsafe_text (Finite q) round
        = Num.toString unsafe_text (IInt z) /\
        (z <= 0)%Z /\
        (Str.eqb round (js "round") = false -> (z < 0)%Z)) /\
  (forall q round,
      Str.eqb round (js "round") = false ->
      exists z,
        rounded round (Finite q) = IInt z /\
        (inject_Z z <= q)%Q /\ (q < inject_Z (z + 1))%Q) /\
  (forall q,
      Num.floor (Finite q) = Num.trunc (Finite q) <->
      (0 <= q)%Q \/ (inject_Z (Qfloor q) == q)%Q).
Proof.
  assert (forall x round,
             Num.ge_1000 x = false ->
             abbreviateNumber unsafe_text x round
             = Num.toString unsafe_text (rounded round x)) as Hsmall.
  { intros x round H. rewrite abbreviateNumber_reduce, reduce_stop.
    - simpl. apply app_nil_r.
    - unfold reduce_cond. rewrite H. reflexivity. }
  split; [exact Hsmall|]. split; [|split].
  - intros q round Hq.
    assert (Num.ge_1000 (Finite q) = false) as Hlt.
    { simpl. destruct (Qle_bool 1000 q) eqn:E; [|reflexivity].
      apply Qle_bool_iff in E. exfalso.
      apply (Qlt_irrefl q). eapply Qlt_le_trans; [exact Hq|].
      eapply Qle_trans; [|exact E]. discriminate. }
    rewrite (Hsmall _ round Hlt). unfold rounded.
    destruct (Str.eqb round (js "round")); simpl.
    + exists (Qfloor (q + (1 # 2))). split; [reflexivity|]. split.
      * assert (Qfloor (q + (1 # 2)) <= Qfloor (1 # 2))%Z as Hm.
        { apply Qfloor_resp_le.
          rewrite <- (Qplus_0_l (1 # 2)) at 2.
          apply Qplus_le_l. apply Qlt_le_weak. exact Hq. }
        exact Hm.
      * discriminate.
    + exists (Qfloor q). split; [reflexivity|].
      assert (Qfloor q < 0)%Z as Hneg.
      { assert (inject_Z (Qfloor q) < inject_Z 0)%Q as Hz.
        { eapply Qle_lt_trans; [apply Qfloor_le | exact Hq]. }
        rewrite <- Zlt_Qlt in Hz. exact Hz. }
      split; [lia | intros _; exact Hneg].
  - intros q round Hmode. exists (Qfloor q). unfold rounded. rewrite Hmode.
    split; [reflexivity|]. split; [apply Qfloor_le | apply Qlt_floor].
  - intros [n d]. unfold Num.floor, Num.trunc, Qle, Qeq.
    cbn [Qnum Qden Qfloor inject_Z].
    pose proof (Z.div_mod n (Z.pos d) ltac:(lia)) as Hdiv.
    pose proof (Z.mod_pos_bound n (Z.pos d) ltac:(lia)) as Hmod.
    pose proof (Z.quot_rem' n (Z.pos d)) as Hquot.
    split.
    + intros H. injection H as H.
      destruct (Z.le_gt_cases 0 n) as [Hn | Hn]; [left; lia|]. right.
      pose proof (Z.rem_nonpos n (Z.pos d) ltac:(lia) ltac:(lia)) as Hrem.
      rewrite <- H in Hquot. lia.
    + intros [Hn | Hn]; f_equal.
      * rewrite Z.quot_div_nonneg; lia.
      * assert (n = n / Z.pos d * Z.pos d)%Z as E by lia.
        rewrite E at 2. rewrite Z.quot_mul by lia. reflexivity.
Qed.

End AbbreviateProperties.

Lemma abbreviateNumber_units_witness :
  abbreviateNumber (fun _ => []) (Finite 5000000000000000) (js "floor")
  = js "5000T".
Proof.
  destruct (abbreviateNumber_units (fun _ => []))
    as (_ & _ & _ & _ & _ & Htrillion & _).
  rewrite (Htrillion (Finite 5000000000000000) (js "floor")).
  - vm_compute. reflexivity.
  - simpl. unfold Qle. simpl. lia.
Defined.

(** Beyond the safe integers the divisions are rounded: the binary64 value
    of 1e24, which is 999999999999999983222784, is shown as one trillion
    T. *)
Lemma abbreviateNumber_septillion :
  Num.binary64 (inject_Z (10 ^ 24))
  = Finite (inject_Z 999999999999999983222784) /\
  abbreviateNumber (fun _ => []) (Finite (inject_Z 999999999999999983222784))
    (js "floor")
  = js "1000000000000T".
Proof. split; vm_compute; reflexivity. Qed.

Lemma abbreviateNumber_below_1000_witness :
  abbreviateNumber (fun _ => []) (Finite (-5000)) (js "floor") = js "-5000" /\
  (exists z,
      abbreviateNumber (fun _ => []) (Finite (-3 # 2)%Q) (js "floor")
      = Num.toString (fun _ => []) (IInt z) /\
      (z <= 0)%Z /\ (Str.eqb (js "floor") (js "round") = false -> (z < 0)%Z)) /\
  (exists z,
      rounded (js "floor") (Finite (15 # 2)%Q) = IInt z /\
      (inject_Z z <= 15 # 2)%Q /\ (15 # 2 < inject_Z (z + 1))%Q) /\
  Num.floor (Finite (15 # 2)%Q) = Num.trunc (Finite (15 # 2)%Q) /\
  Num.floor (Finite (-2)%Q) = Num.trunc (Finite (-2)%Q).
Proof.
  destruct (abbreviateNumber_below_1000 (fun _ => []))
    as (Hsmall & Hsign & Hfloor & Htrunc).
  split; [|split; [|split; [|split]]].
  - rewrite (Hsmall (Finite (-5000)) (js "floor")).
    + vm_compute. reflexivity.
    + vm_compute. reflexivity.
  - apply (Hsign (-3 # 2)%Q (js "floor")). reflexivity.
  - apply (Hfloor (15 # 2)%Q (js "floor")). reflexivity.
  - apply Htrunc. left. unfold Qle. simpl. lia.
  - apply Htrunc. right. vm_compute. reflexivity.
Defined.

(** C3 as stated fails: in floor mode minus one and a half is shown as -2,
    and its truncation toward zero is -1. *)
Lemma floor_is_not_truncation :
  abbreviateNumber (fun _ => []) (Finite (-3 # 2)%Q) (js "floor") = js "-2" /\
  Num.toString (fun _ => []) (Num.trunc (Finite (-3 # 2)%Q)) = js "-1" /\
  abbreviateNumber (fun _ => []) (Finite (-3 # 2)%Q) (js "floor")
  <> Num.toString (fun _ => []) (Num.trunc (Finite (-3 # 2)%Q)).
Proof.
  split; [vm_compute; reflexivity|]. split; [vm_compute; reflexivity|].
  vm_compute. discriminate.
Qed.

(** ** The matcher

    What a pattern matches, stated without continuations: [Matches fl r st
    st'] holds when [r] can take the matcher from [st] to [st'].  The
    backtracking matcher finds a match whenever there is one, and only finds
    matches. *)

Module RegexFacts.
Import Regex.

Lemma state_eta (st : state) :
  {| prev := prev st; rest := rest st; cap := cap st |} = st.
Proof. destruct st; reflexivity. Qed.

Lemma quant_unfold ok lo hi greedy count p s w k :
  quant ok lo hi greedy count p s w k =
  let stop :=
    if (lo <=? count)%nat then k {| prev := p; rest := s; cap := w |}
    else None in
  let more :=
    match s with
    | c :: s' =>
        if below hi count && ok c
        then quant ok lo hi greedy (S count) (Some c) s' w k
        else None
    | [] => None
    end in
  if greedy
  then match more with Some y => Some y | None => stop end
  else match stop with Some y => Some y | None => more end.
Proof. destruct s; reflexivity. Qed.

Lemma below_within hi count :
  below hi count = true -> within hi (S count).
Proof.
  destruct hi as [h|]; simpl; [|auto]. intros H. apply Nat.ltb_lt in H. lia.
Qed.

Lemma within_below hi count n :
  within hi (count + S n) -> below hi count = true.
Proof.
  destruct hi as [h|]; simpl; [|auto]. intros H. apply Nat.ltb_lt. lia.
Qed.

Lemma quant_sound ok lo hi greedy w k y :
  forall s count p,
    quant ok lo hi greedy count p s w k = Some y ->
    exists cs s',
      s = cs ++ s' /\ forallb ok cs = true /\
      (lo <= count + List.length cs)%nat /\
      (cs = [] \/ within hi (count + List.length cs)) /\
      k {| prev := walk p cs; rest := s'; cap := w |} = Some y.
Proof.
  induction s as [|c s IH]; intros count p H; rewrite quant_unfold in H;
    cbv zeta in H.
  - assert ((if (lo <=? count)%nat
             then k {| prev := p; rest := []; cap := w |} else None) = Some y)
      as Hstop by (destruct greedy;
                   [exact H | destruct (if (lo <=? count)%nat then _ else _);
                              [exact H | discriminate]]).
    destruct (lo <=? count)%nat eqn:Hlo; [|discriminate].
    apply Nat.leb_le in Hlo.
    exists [], []. simpl. repeat split; auto. lia.
  - assert ((if (lo <=? count)%nat
             then k {| prev := p; rest := c :: s; cap := w |} else None)
            = Some y \/
            (below hi count && ok c = true /\
             quant ok lo hi greedy (S count) (Some c) s w k = Some y))
      as Hcase.
    { destruct greedy.
      - destruct (below hi count && ok c) eqn:Hb.
        + destruct (quant ok lo hi true (S count) (Some c) s w k) eqn:Hq.
          * right. split; [reflexivity | exact H].
          * left. exact H.
        + left. exact H.
      - destruct (if (lo <=? count)%nat then _ else _) eqn:Hs.
        + left. exact H.
        + right. destruct (below hi count && ok c); [auto | discriminate]. }
    destruct Hcase as [Hstop | [Hb Hq]].
    + destruct (lo <=? count)%nat eqn:Hlo; [|discriminate].
      apply Nat.leb_le in Hlo.
      exists [], (c :: s). simpl. repeat split; auto. lia.
    + apply andb_true_iff in Hb. destruct Hb as [Hbelow Hok].
      destruct (IH _ _ Hq) as [cs [s' [Hs [Hall [Hlo [Hhi Hk]]]]]].
      exists (c :: cs), s'. simpl. rewrite Hok, Hall, Hs.
      repeat split; auto; try lia.
      right. destruct Hhi as [-> | Hhi].
      * simpl. replace (count + 1)%nat with (S count) by lia.
        apply below_within. exact Hbelow.
      * replace (count + S (List.length cs))%nat
          with (S count + List.length cs)%nat by lia. exact Hhi.
Qed.

Lemma quant_complete ok lo hi greedy w k s' :
  forall cs count p,
    forallb ok cs = true ->
    (lo <= count + List.length cs)%nat ->
    (cs = [] \/ within hi (count + List.length cs)) ->
    k {| prev := walk p cs; rest := s'; cap := w |} <> None ->
    quant ok lo hi greedy count p (cs ++ s') w k <> None.
Proof.
  induction cs as [|c cs IH]; intros count p Hall Hlo Hhi Hk;
    rewrite quant_unfold; cbv zeta.
  - simpl in *. replace (lo <=? count)%nat with true
      by (symmetry; apply Nat.leb_le; lia).
    destruct greedy.
    + destruct (match s' with [] => None | _ => _ end);
        [discriminate | exact Hk].
    + destruct (k {| prev := p; rest := s'; cap := w |});
        [discriminate | contradiction].
  - simpl in Hall. apply andb_true_iff in Hall. destruct Hall as [Hok Hall].
    simpl in Hlo, Hk. destruct Hhi as [Hnil | Hhi]; [discriminate|].
    simpl in Hhi. simpl app. rewrite (within_below _ _ _ Hhi), Hok. simpl.
    assert (quant ok lo hi greedy (S count) (Some c) (cs ++ s') w k <> None)
      as Hq.
    { apply IH; auto; [lia|]. right.
      replace (S count + List.length cs)%nat
        with (count + S (List.length cs))%nat by lia. exact Hhi. }
    destruct greedy.
    + destruct (quant ok lo hi true (S count) (Some c) (cs ++ s') w k);
        [discriminate | contradiction].
    + destruct (if (lo <=? count)%nat then _ else _); [discriminate | exact Hq].
Qed.

Lemma exec_sound fl r :
  forall st k y,
    exec fl r st k = Some y ->
    exists st', Matches fl r st st' /\ k st' = Some y.
Proof.
  induction r as [|a|a lo hi greedy|r1 IH1 r2 IH2|r1 IH1 r2 IH2| | |r1 IH1|];
    intros st k y H; simpl in H.
  - exists st. simpl. auto.
  - destruct (rest st) as [|c s'] eqn:Hs; [discriminate|].
    destruct (atom_ok fl a c) eqn:Hok; [|discriminate].
    eexists. split; [|exact H]. simpl. exists c. rewrite Hs. auto.
  - apply quant_sound in H.
    destruct H as [cs [s' [Hs [Hall [Hlo [Hhi Hk]]]]]].
    eexists. split; [|exact Hk]. simpl. exists cs. repeat split; auto.
    destruct Hhi as [-> | Hhi]; [|exact Hhi].
    destruct hi; simpl; [lia | exact I].
  - apply IH1 in H. destruct H as [mid [H1 H]].
    apply IH2 in H. destruct H as [st' [H2 H]].
    exists st'. split; [|exact H]. simpl. eauto.
  - destruct (exec fl r1 st k) eqn:E1.
    + inversion H; subst. apply IH1 in E1. destruct E1 as [st' [H1 Hk]].
      exists st'. simpl. auto.
    + apply IH2 in H. destruct H as [st' [H2 Hk]]. exists st'. simpl. auto.
  - destruct (at_bol fl st) eqn:Hb; [|discriminate]. exists st. simpl. auto.
  - destruct (at_eol fl st) eqn:Hb; [|discriminate]. exists st. simpl. auto.
  - apply IH1 in H. destruct H as [st1 [H1 Hk]].
    eexists. split; [|exact Hk]. simpl. exists st1. auto.
  - destruct (cap st) as [w|] eqn:Hc.
    + destruct (skip_same fl w (prev st) (rest st)) as [[p s']|] eqn:Hsk;
        [|discriminate].
      eexists. split; [|exact H]. simpl. rewrite Hc. simpl. auto.
    + exists st. simpl. rewrite Hc. auto.
Qed.

Lemma exec_complete fl r :
  forall st st' k,
    Matches fl r st st' -> k st' <> None -> exec fl r st k <> None.
Proof.
  induction r as [|a|a lo hi greedy|r1 IH1 r2 IH2|r1 IH1 r2 IH2| | |r1 IH1|];
    intros st st' k HM Hk; simpl in HM; simpl.
  - subst st'. exact Hk.
  - destruct HM as [c [Hs [Hok [Hp Hc]]]]. rewrite Hs, Hok.
    rewrite <- Hp, <- Hc, state_eta. exact Hk.
  - destruct HM as [cs [Hs [Hall [Hlo [Hhi [Hp Hc]]]]]]. rewrite Hs.
    apply quant_complete; auto.
    rewrite <- Hp, <- Hc, state_eta. exact Hk.
  - destruct HM as [mid [H1 H2]]. apply (IH1 st mid); [exact H1|].
    apply (IH2 mid st'); assumption.
  - destruct HM as [H1 | H2].
    + pose proof (IH1 st st' k H1 Hk).
      destruct (exec fl r1 st k); [discriminate | contradiction].
    + destruct (exec fl r1 st k); [discriminate|]. apply (IH2 st st'); auto.
  - destruct HM as [-> Hb]. rewrite Hb. exact Hk.
  - destruct HM as [-> Hb]. rewrite Hb. exact Hk.
  - destruct HM as [st1 [H1 ->]]. apply (IH1 st st1); [exact H1 | exact Hk].
  - destruct (cap st) as [w|] eqn:Hc.
    + destruct HM as [Hsk Hc']. rewrite Hsk.
      rewrite <- Hc'. rewrite state_eta. exact Hk.
    + subst st'. exact Hk.
Qed.

End RegexFacts.

(** ** Lines, and patterns anchored to them *)

Module LineFacts.
Import Regex RegexFacts.

Lemma lines_not_nil (s : jsstring) : lines s <> [].
Proof.
  induction s as [|c s IH]; simpl; [discriminate|].
  destruct (Str.is_line_terminator c); [discriminate|].
  destruct (lines s); [contradiction | discriminate].
Qed.

Lemma lines_split (a b : jsstring) (t : N) :
  Str.is_line_terminator t = true ->
  lines (a ++ t :: b) = lines a ++ lines b.
Proof.
  intros Ht. induction a as [|c a IH]; simpl.
  - rewrite Ht. reflexivity.
  - rewrite IH. destruct (Str.is_line_terminator c); [reflexivity|].
    pose proof (lines_not_nil a) as Hne.
    destruct (lines a) as [|l ls]; [contradiction | reflexivity].
Qed.

Lemma lines_noterm (x : jsstring) : noterm x -> lines x = [x].
Proof.
  unfold noterm. induction x as [|c x IH]; simpl; [reflexivity|].
  intros H. apply andb_true_iff in H. destruct H as [Hc Hx].
  apply negb_true_iff in Hc. rewrite Hc, (IH Hx). reflexivity.
Qed.

Lemma lines_are_noterm (s l : jsstring) : In l (lines s) -> noterm l.
Proof.
  revert l. induction s as [|c s IH]; simpl; intros l H.
  - destruct H as [<- | []]. reflexivity.
  - destruct (Str.is_line_terminator c) eqn:Hc.
    + destruct H as [<- | H]; [reflexivity | auto].
    + pose proof (lines_not_nil s) as Hne.
      destruct (lines s) as [|l0 ls]; [contradiction|].
      destruct H as [<- | H].
      * unfold noterm. simpl. rewrite Hc. simpl. apply IH. left. reflexivity.
      * apply IH. right. exact H.
Qed.

Lemma noterm_app (x y : jsstring) : noterm (x ++ y) <-> noterm x /\ noterm y.
Proof. unfold noterm. rewrite forallb_app. apply andb_true_iff. Qed.

Lemma lines_after_eol (m y l : jsstring) :
  eolpos y -> In l (lines y) -> l = [] \/ In l (lines (m ++ y)).
Proof.
  destruct y as [|t y]; simpl; intros Ht H.
  - destruct H as [<- | []]. left. reflexivity.
  - rewrite Ht in H. destruct H as [<- | H]; [left; reflexivity|].
    right. rewrite lines_split by exact Ht. apply in_or_app. right. exact H.
Qed.

Lemma replace_erase fl r s :
  replace fl r [] s = erase (scan fl r true 0 None s).
Proof. reflexivity. Qed.

Lemma scan_skip fl r active (y : jsstring) :
  forall m p,
    scan fl r active (List.length m) p (m ++ y)
    = scan fl r active 0 (walk p m) y.
Proof.
  induction m as [|c m IH]; intros p; [reflexivity|]. simpl. apply IH.
Qed.

Lemma consumed_app (p : option N) (m : jsstring) (st' : state) :
  consumed {| prev := p; rest := m ++ rest st'; cap := None |} st' = m.
Proof.
  unfold consumed. simpl. rewrite length_app.
  replace (List.length m + List.length (rest st') - List.length (rest st'))%nat
    with (List.length m) by lia.
  rewrite firstn_app, Nat.sub_diag, firstn_all. simpl. apply app_nil_r.
Qed.

Section Erase.
Variable fl : flags.
Variable r : regex.
Hypothesis Hglobal : global fl = true.
Hypothesis Hanchored : anchored fl r.

Lemma scan_hit (p : option N) (s : jsstring) (st' : state) :
  match_at fl r p s = Some st' ->
  exists m, m <> [] /\ s = m ++ rest st' /\ bol p /\ eolpos (rest st') /\
            erase (scan fl r true 0 p s)
            = erase (scan fl r true 0 (walk p m) (rest st')).
Proof.
  intros H. destruct (Hanchored _ _ H) as [Hp [He [m [Hm Hs]]]].
  exists m. repeat split; auto.
  destruct m as [|c m']; [contradiction|]. subst s.
  change ((c :: m') ++ rest st') with (c :: (m' ++ rest st')) in *.
  simpl scan. rewrite H.
  change (c :: (m' ++ rest st')) with ((c :: m') ++ rest st').
  rewrite consumed_app. simpl List.length.
  rewrite Hglobal. simpl erase. rewrite scan_skip. reflexivity.
Qed.

Lemma scan_lines (n : nat) :
  forall s, (List.length s <= n)%nat ->
  forall p x,
    noterm x ->
    (x = [] -> bol p \/ eolpos s) ->
    (x <> [] -> ~ bol p /\
                exists p0, bol p0 /\ match_at fl r p0 (x ++ s) = None) ->
    forall l, In l (lines (x ++ erase (scan fl r true 0 p s))) ->
              survivor fl r (x ++ s) l.
Proof.
  induction n as [|n IH]; intros s Hlen p x Hx Hnil Hcons l Hl.
  - destruct s; [|simpl in Hlen; lia].
    assert (erase (scan fl r true 0 p []) = []) as He
        by (simpl; destruct (match_at fl r p []); reflexivity).
    rewrite He, app_nil_r, (lines_noterm Hx) in Hl.
    destruct Hl as [<- | []]. destruct x as [|c x]; [left; reflexivity|].
    right. rewrite app_nil_r, (lines_noterm Hx). split; [left; reflexivity|].
    destruct Hcons as [_ [p0 [Hp0 Hm]]]; [discriminate|].
    exists p0, []. repeat split; auto.
  - destruct s as [|c s'].
    { apply (IH [] ltac:(simpl; lia) p x); auto. }
    destruct (match_at fl r p (c :: s')) as [st'|] eqn:Hmatch.
    + (* a match starts here: the line so far is empty *)
      destruct (scan_hit _ _ Hmatch) as [m [Hm [Hs [Hp [He Hout]]]]].
      assert (x = []) as ->.
      { destruct x as [|d x]; [reflexivity|].
        destruct Hcons as [Hnb _]; [discriminate | contradiction]. }
      rewrite Hout in Hl. simpl app in *.
      assert (List.length (rest st') <= n)%nat as Hlen'.
      { apply (f_equal (@List.length N)) in Hs. rewrite length_app in Hs.
        simpl in Hlen, Hs. destruct m; [contradiction | simpl in Hs; lia]. }
      pose proof (IH (rest st') Hlen' (walk p m) [] eq_refl
                     (fun _ => or_intror He)
                     (fun H => False_ind _ (H eq_refl)) l Hl) as Hsurv.
      simpl in Hsurv. destruct Hsurv as [-> | [Hin Hex]]; [left; reflexivity|].
      destruct (lines_after_eol m _ l He Hin) as [-> | Hin'];
        [left; reflexivity|].
      right. rewrite Hs. auto.
    + (* no match here: the code unit is kept *)
      assert (erase (scan fl r true 0 p (c :: s'))
              = c :: erase (scan fl r true 0 (Some c) s')) as Hout
          by (simpl scan; rewrite Hmatch; reflexivity).
      rewrite Hout in Hl.
      assert ((exists p0, bol p0 /\ match_at fl r p0 (x ++ c :: s') = None)
              \/ (x = [] /\ Str.is_line_terminator c = true)) as Hline.
      { destruct x as [|d x].
        - destruct (Hnil eq_refl) as [Hp | He].
          + left. exists p. auto.
          + right. auto.
        - left. destruct Hcons as [_ H]; [discriminate | exact H]. }
      destruct (Str.is_line_terminator c) eqn:Hc.
      * (* the line ends here *)
        rewrite lines_split, (lines_noterm Hx) in Hl by exact Hc.
        destruct Hl as [<- | Hl].
        -- destruct Hline as [[p0 [Hp0 Hm]] | [-> _]]; [|left; reflexivity].
           destruct x as [|d x]; [left; reflexivity|]. right.
           rewrite lines_split, (lines_noterm Hx) by exact Hc.
           split; [left; reflexivity|].
           exists p0, (c :: s'). repeat split; auto.
        -- pose proof (IH s' ltac:(simpl in Hlen; lia) (Some c) [] eq_refl
                          (fun _ => or_introl Hc)
                          (fun H => False_ind _ (H eq_refl)) l Hl) as Hsurv.
           destruct Hsurv as [-> | [Hin Hex]]; [left; reflexivity|].
           right. rewrite lines_split by exact Hc. split; [|exact Hex].
           apply in_or_app. right. exact Hin.
      * (* the line goes on *)
        destruct Hline as [[p0 [Hp0 Hm]] | [_ Habs]]; [|discriminate].
        replace (x ++ c :: erase (scan fl r true 0 (Some c) s'))
          with ((x ++ [c]) ++ erase (scan fl r true 0 (Some c) s')) in Hl
          by (rewrite <- app_assoc; reflexivity).
        replace (x ++ c :: s') with ((x ++ [c]) ++ s')
          by (rewrite <- app_assoc; reflexivity).
        apply (IH s' ltac:(simpl in Hlen; lia) (Some c) (x ++ [c])); auto.
        -- apply noterm_app. split; [exact Hx|].
           unfold noterm. simpl. rewrite Hc. reflexivity.
        -- intros H. destruct x; discriminate.
        -- intros _. split.
           ++ simpl. rewrite Hc. discriminate.
           ++ exists p0. split; [exact Hp0|].
              rewrite <- app_assoc. exact Hm.
Qed.

Lemma replace_lines (s l : jsstring) :
  In l (lines (replace fl r [] s)) -> survivor fl r s l.
Proof.
  intros H. rewrite replace_erase in H.
  apply (@scan_lines (List.length s) s (le_n _) None []); auto.
  - reflexivity.
  - intros _. left. exact I.
  - intros H0. contradiction.
Qed.

End Erase.

End LineFacts.

(** ** The markdown cleaner *)

Module MarkdownFacts.
Import Regex RegexFacts LineFacts Markdown.

Lemma Matches_quant fl a lo hi greedy p cs s w :
  forallb (atom_ok fl a) cs = true ->
  (lo <= List.length cs)%nat -> within hi (List.length cs) ->
  Matches fl (Quant a lo hi greedy)
    {| prev := p; rest := cs ++ s; cap := w |}
    {| prev := walk p cs; rest := s; cap := w |}.
Proof. intros H1 H2 H3. simpl. exists cs. auto 10. Qed.

Lemma at_bol_gm (st : state) : at_bol gm st = true <-> bol (prev st).
Proof.
  unfold at_bol, bol. destruct (prev st); simpl; [reflexivity|].
  split; auto.
Qed.

Lemma at_eol_gm (st : state) : at_eol gm st = true <-> eolpos (rest st).
Proof.
  unfold at_eol, eolpos. destruct (rest st); simpl; [|reflexivity].
  split; auto.
Qed.

Lemma atx_heading_anchored : anchored gm atx_heading.
Proof.
  intros p s st' H. apply exec_sound in H. destruct H as [st1 [HM Heq]].
  inversion Heq; subst st1; clear Heq. simpl in HM.
  destruct HM as [m0 [[-> Hbol] [m1 [[cs1 [Hr1 _]]
                 [m2 [[cs2 [Hr2 [_ [Hlo2 _]]]]
                 [m3 [[cs3 [Hr3 _]]
                 [m4 [[cs4 [Hr4 _]]
                 [m5 [[-> Heol] ->]]]]]]]]]]]].
  simpl in Hr1. split; [apply (at_bol_gm (Build_state p s None)); exact Hbol|].
  split; [apply at_eol_gm; exact Heol|].
  exists (cs1 ++ cs2 ++ cs3 ++ cs4). split.
  - destruct cs2; [simpl in Hlo2; lia|]. destruct cs1; discriminate.
  - rewrite Hr1, Hr2, Hr3, Hr4, <- !app_assoc. reflexivity.
Qed.

Lemma setext_underline_anchored : anchored gm setext_underline.
Proof.
  intros p s st' H. apply exec_sound in H. destruct H as [st1 [HM Heq]].
  inversion Heq; subst st1; clear Heq. simpl in HM.
  destruct HM as [m0 [[-> Hbol] [m1 [[cs1 [Hr1 _]]
                 [m2 [[cs2 [Hr2 [_ [Hlo2 _]]]]
                 [m3 [[cs3 [Hr3 _]]
                 [m5 [[-> Heol] ->]]]]]]]]]].
  simpl in Hr1. split; [apply (at_bol_gm (Build_state p s None)); exact Hbol|].
  split; [apply at_eol_gm; exact Heol|].
  exists (cs1 ++ cs2 ++ cs3). split.
  - destruct cs2; [simpl in Hlo2; lia|]. destruct cs1; discriminate.
  - rewrite Hr1, Hr2, Hr3, <- !app_assoc. reflexivity.
Qed.

Lemma forallb_hashes (n : nat) :
  forallb (atom_ok gm (Char (code "#"))) (repeat (code "#") n) = true.
Proof. induction n; [reflexivity | simpl repeat; simpl forallb; exact IHn]. Qed.

Lemma Matches_seq fl r1 r2 st mid st' :
  Matches fl r1 st mid -> Matches fl r2 mid st' ->
  Matches fl (Seq r1 r2) st st'.
Proof. intros H1 H2. simpl. eauto. Qed.

Lemma Matches_bol (p : option N) (s : jsstring) (w : option jsstring) :
  bol p ->
  Matches gm Bol {| prev := p; rest := s; cap := w |}
                 {| prev := p; rest := s; cap := w |}.
Proof.
  intros H. split; [reflexivity|].
  apply (at_bol_gm {| prev := p; rest := s; cap := w |}). exact H.
Qed.

Lemma Matches_eol (p : option N) (s : jsstring) (w : option jsstring) :
  eolpos s ->
  Matches gm (Seq Eol Empty) {| prev := p; rest := s; cap := w |}
                             {| prev := p; rest := s; cap := w |}.
Proof.
  intros H. eapply Matches_seq; [|reflexivity]. split; [reflexivity|].
  apply (at_eol_gm {| prev := p; rest := s; cap := w |}). exact H.
Qed.

(** The pattern of ATX headings matches on every heading line. *)
Lemma atx_heading_matches (p : option N) (l b : jsstring) :
  atx_line l -> noterm l -> bol p -> eolpos b ->
  match_at gm atx_heading p (l ++ b) <> None.
Proof.
  intros [indent [n [gap [text [Hl [Hind [Hsp [Hn [Hgap Hgsp]]]]]]]]]
         Hnt Hp Hb.
  subst l. rewrite <- !app_assoc.
  apply noterm_app in Hnt. destruct Hnt as [_ Hnt].
  apply noterm_app in Hnt. destruct Hnt as [_ Hnt].
  apply noterm_app in Hnt. destruct Hnt as [_ Htext].
  unfold match_at. eapply exec_complete; [|discriminate].
  unfold atx_heading, between, plus, star, seq. cbn [fold_right].
  eapply Matches_seq; [apply Matches_bol; exact Hp|].
  eapply Matches_seq.
  { apply Matches_quant; [exact Hsp | lia | exact Hind]. }
  eapply Matches_seq.
  { apply Matches_quant.
    - apply forallb_hashes.
    - rewrite repeat_length. lia.
    - simpl. rewrite repeat_length. lia. }
  eapply Matches_seq.
  { apply Matches_quant; [exact Hgsp | | exact I].
    destruct gap; [contradiction | simpl; lia]. }
  eapply Matches_seq.
  { apply Matches_quant; [exact Htext | lia | exact I]. }
  apply Matches_eol. exact Hb.
Qed.

Lemma forallb_marks (marks : jsstring) :
  forallb is_underline_mark marks = true ->
  forallb (atom_ok gm (one_of [code "-"; code "="])) marks = true.
Proof.
  induction marks as [|c marks IH]; [reflexivity|]. simpl forallb.
  rewrite !andb_true_iff. intros [Hc Hm]. split; [|exact (IH Hm)].
  unfold is_underline_mark in Hc. simpl. rewrite orb_false_r. exact Hc.
Qed.

(** The pattern of Setext underlines matches on every underline line. *)
Lemma setext_underline_matches (p : option N) (l b : jsstring) :
  setext_line l -> bol p -> eolpos b ->
  match_at gm setext_underline p (l ++ b) <> None.
Proof.
  intros [indent [marks [trail [Hl [Hind [Hlen [Hmarks Htrail]]]]]]] Hp Hb.
  subst l. rewrite <- !app_assoc. unfold match_at.
  eapply exec_complete; [|discriminate].
  unfold setext_underline, at_least, star, seq. cbn [fold_right].
  eapply Matches_seq; [apply Matches_bol; exact Hp|].
  eapply Matches_seq.
  { apply Matches_quant; [exact Hind | lia | exact I]. }
  eapply Matches_seq.
  { apply Matches_quant; [apply forallb_marks; exact Hmarks | exact Hlen
                         | exact I]. }
  eapply Matches_seq.
  { apply Matches_quant; [exact Htrail | lia | exact I]. }
  apply Matches_eol. exact Hb.
Qed.

Lemma atx_line_not_nil : ~ atx_line [].
Proof.
  intros [indent [n [gap [text [Hl [_ [_ [Hn _]]]]]]]].
  apply (f_equal (@List.length N)) in Hl.
  rewrite !length_app, repeat_length in Hl. simpl in Hl. lia.
Qed.

Lemma setext_line_not_nil : ~ setext_line [].
Proof.
  intros [indent [marks [trail [Hl [_ [Hlen _]]]]]].
  apply (f_equal (@List.length N)) in Hl.
  rewrite !length_app in Hl. simpl in Hl. lia.
Qed.

(** C5, as the code has it.  After step 5 every line of the text is a line
    of the text before it or is blank, and none of them is a heading line
    (up to three white space characters, one to six [#], white space, any
    text) or an underline line (three or more [-] or [=], white space
    allowed around them): these lines of the input are all blanked. *)
Theorem drop_headings_lines (s l : jsstring) :
  In l (lines (drop_headings s)) ->
  (l = [] \/ In l (lines s)) /\ ~ atx_line l /\ ~ setext_line l.
Proof.
  intros H. unfold drop_headings, drop_setext_underlines in H.
  apply (@replace_lines gm _ eq_refl setext_underline_anchored) in H.
  destruct H as [-> | [Hin [p0 [b [Hp0 [Hb Hnone]]]]]].
  { split; [left; reflexivity|].
    split; [apply atx_line_not_nil | apply setext_line_not_nil]. }
  assert (~ setext_line l) as Hsetext.
  { intros Hl. exact (@setext_underline_matches p0 l b Hl Hp0 Hb Hnone). }
  unfold drop_atx_headings in Hin.
  apply (@replace_lines gm _ eq_refl atx_heading_anchored) in Hin.
  destruct Hin as [-> | [Hin [p1 [b1 [Hp1 [Hb1 Hnone1]]]]]].
  { split; [left; reflexivity|].
    split; [apply atx_line_not_nil | exact Hsetext]. }
  split; [right; exact Hin|]. split; [|exact Hsetext].
  intros Hl.
  exact (@atx_heading_matches p1 l b1 Hl (@lines_are_noterm s l Hin)
           Hp1 Hb1 Hnone1).
Qed.

Lemma drop_headings_lines_witness :
  (js "body" = [] \/
   In (js "body")
      (lines (js "## Title" ++ [10] ++ js "body" ++ [10] ++ js "====="))) /\
  ~ atx_line (js "body") /\ ~ setext_line (js "body").
Proof.
  apply (@drop_headings_lines
           (js "## Title" ++ [10] ++ js "body" ++ [10] ++ js "=====")
           (js "body")).
  vm_compute. right. left. reflexivity.
Defined.

(** C5 as stated fails: the text "#tag", one line that begins with [#] and
    has no white space after it, is kept, by step 5 and by the whole
    cleaner. *)
Lemma hashtag_line_is_kept :
  Str.startsWith (js "#tag") (js "#") = true /\
  In (js "#tag") (lines (drop_headings (js "#tag"))) /\
  cleanMarkdown (Some (js "#tag")) = Ok (js "#tag...").
Proof.
  split; [reflexivity|]. split; [vm_compute; left; reflexivity|].
  vm_compute. reflexivity.
Qed.

(** The white space that the heading pattern asks for after the run of [#]
    may be a line feed: a line of [#] alone is removed together with the
    line after it, whatever that line is. *)
Lemma heading_takes_next_line :
  drop_headings (js "#" ++ [10] ++ js "#tag") = [] /\
  drop_headings (js "#" ++ [10] ++ js "text" ++ [10] ++ js "more")
  = [10] ++ js "more".
Proof. split; vm_compute; reflexivity. Qed.

(** *** The cut at 1021 code units *)

Lemma scan_keeps fl r (c : N) :
  forall s active skip p,
    In c (erase (scan fl r active skip p s)) -> In c s.
Proof.
  induction s as [|a s IH]; intros active skip p H.
  - simpl in H. destruct (active && (skip =? 0)%nat); [|contradiction].
    destruct (match_at fl r p []); simpl in H; contradiction.
  - simpl in H. destruct skip as [|skip'].
    + destruct active.
      * destruct (match_at fl r p (a :: s)) as [st'|].
        -- simpl in H.
           destruct (List.length
                       (consumed {| prev := p; rest := a :: s; cap := None |}
                                 st')).
           ++ simpl in H. destruct H as [-> | H]; [left; reflexivity|].
              right. exact (IH _ _ _ H).
           ++ right. exact (IH _ _ _ H).
        -- simpl in H. destruct H as [-> | H]; [left; reflexivity|].
           right. exact (IH _ _ _ H).
      * simpl in H. destruct H as [-> | H]; [left; reflexivity|].
        right. exact (IH _ _ _ H).
    + right. exact (IH _ _ _ H).
Qed.

Lemma replace_keeps fl r (s : jsstring) (c : N) :
  In c (replace fl r [] s) -> In c s.
Proof. apply scan_keeps. Qed.

(** A pattern that matches nowhere in a text leaves it as it is. *)
Lemma scan_no_match fl r (c0 : N) :
  (forall p s, ~ In c0 s -> match_at fl r p s = None) ->
  forall s p, ~ In c0 s -> scan fl r true 0 p s = map Keep s.
Proof.
  intros Hnone. induction s as [|a s IH]; intros p Hs.
  - simpl. rewrite (Hnone p [] Hs). reflexivity.
  - simpl. rewrite (Hnone p (a :: s) Hs). f_equal. apply IH.
    intros H. apply Hs. right. exact H.
Qed.

Lemma erase_keep new (s : jsstring) :
  flat_map (fun seg => match seg with Keep c => [c] | Hit _ _ => new end)
           (map Keep s) = s.
Proof. induction s as [|a s IH]; simpl; [|rewrite IH]; reflexivity. Qed.

Lemma substitute_keep fn (s : jsstring) : substitute fn (map Keep s) = Ok s.
Proof. induction s as [|a s IH]; simpl; [|rewrite IH]; reflexivity. Qed.

Lemma replace_no_match fl r new (c0 : N) (s : jsstring) :
  (forall p s, ~ In c0 s -> match_at fl r p s = None) ->
  ~ In c0 s -> replace fl r new s = s.
Proof.
  intros Hnone Hs. unfold replace.
  rewrite (@scan_no_match fl r c0 Hnone) by exact Hs. apply erase_keep.
Qed.

Lemma replace_fn_no_match fl r fn (c0 : N) (s : jsstring) :
  (forall p s, ~ In c0 s -> match_at fl r p s = None) ->
  ~ In c0 s -> replace_fn fl r fn s = Ok s.
Proof.
  intros Hnone Hs. unfold replace_fn.
  rewrite (@scan_no_match fl r c0 Hnone) by exact Hs. apply substitute_keep.
Qed.

Ltac no_ampersand :=
  let p := fresh "p" in let s := fresh "s" in let H := fresh "H" in
  let c := fresh "c" in
  intros p s H; destruct s as [|c s]; [reflexivity|];
  assert ((c =? code "&") = false) as Hc
    by (apply N.eqb_neq; intros ->; apply H; left; reflexivity);
  unfold match_at; simpl; unfold canon; simpl;
  change (c =? 38) with (c =? code "&"); rewrite Hc; reflexivity.

Lemma decode_entities_plain (s : jsstring) :
  ~ In (code "&") s -> decode_entities s = Ok s.
Proof.
  intros Hs. unfold decode_entities.
  rewrite (@replace_no_match g (lit "&nbsp;") _ (code "&") s)
    by (try exact Hs; no_ampersand).
  rewrite (@replace_no_match g (lit "&amp;") _ (code "&") s)
    by (try exact Hs; no_ampersand).
  rewrite (@replace_no_match g (lit "&lt;") _ (code "&") s)
    by (try exact Hs; no_ampersand).
  rewrite (@replace_no_match g (lit "&gt;") _ (code "&") s)
    by (try exact Hs; no_ampersand).
  rewrite (@replace_fn_no_match g hex_entity _ (code "&") s)
    by (try exact Hs; no_ampersand).
  simpl rbind.
  rewrite (@replace_fn_no_match g dec_entity _ (code "&") s)
    by (try exact Hs; no_ampersand).
  reflexivity.
Qed.

Lemma cleaned_plain (t : jsstring) :
  ~ In (code "&") t -> exists s, cleaned (Some t) = Ok s.
Proof.
  intros Ht. unfold cleaned. cbv zeta.
  rewrite decode_entities_plain; [simpl; eauto|].
  intros H. apply Ht.
  unfold drop_table_rows, drop_images, drop_headings, drop_setext_underlines,
    drop_atx_headings, strip_tags, drop_void_tags, drop_html_blocks,
    strip_frontmatter in H.
  repeat apply replace_keeps in H. exact H.
Qed.

(** C4, as the code has it.  The result is the first 1021 code units of the
    cleaned text (the text after the steps 1) to 11) of the source, not the
    input) followed by three dots: it ends with the three dots, has at most
    1024 code units,
    and exactly 1024 when the cleaned text has 1021 or more.  The cleaner
    returns on every input without an ampersand. *)
Theorem cleanMarkdown_cut :
  (forall md s,
      cleaned md = Ok s ->
      cleanMarkdown md = Ok (Str.slice_to 1021 s ++ js "...") /\
      List.length (Str.slice_to 1021 s ++ js "...")
      = (Nat.min 1021 (List.length s) + 3)%nat /\
      ((1021 <= List.length s)%nat ->
       List.length (Str.slice_to 1021 s ++ js "...") = 1024%nat)) /\
  (forall md out,
      cleanMarkdown md = Ok out ->
      exists pre, out = pre ++ js "..." /\ (List.length pre <= 1021)%nat) /\
  (forall t : jsstring,
      ~ In (code "&") t -> exists out, cleanMarkdown (Some t) = Ok out).
Proof.
  split; [|split].
  - intros md s H. unfold cleanMarkdown. rewrite H. simpl rbind.
    split; [reflexivity|]. unfold Str.slice_to.
    rewrite length_app, length_firstn.
    change (List.length (js "...")) with 3%nat. split; [reflexivity|].
    intros Hlen. rewrite Nat.min_l by exact Hlen. reflexivity.
  - intros md out H. unfold cleanMarkdown in H.
    destruct (cleaned md) as [s|e]; simpl in H; [|discriminate].
    inversion H; subst out. exists (Str.slice_to 1021 s).
    split; [reflexivity|]. unfold Str.slice_to. rewrite length_firstn. lia.
  - intros t Ht. destruct (@cleaned_plain t Ht) as [s Hs].
    eexists. unfold cleanMarkdown. rewrite Hs. reflexivity.
Qed.

Lemma cleanMarkdown_cut_witness :
  cleanMarkdown (Some (js "plain text")) = Ok (js "plain text...") /\
  exists out, cleanMarkdown (Some (repeat (code "a") 1500)) = Ok out /\
              exists pre, out = pre ++ js "..." /\
                          (List.length pre <= 1021)%nat.
Proof.
  destruct cleanMarkdown_cut as (Hcut & Hsuffix & Hreturns). split.
  - apply (Hcut (Some (js "plain text")) (js "plain text")).
    vm_compute. reflexivity.
  - destruct (Hreturns (repeat (code "a") 1500)) as [out Hout].
    + intros H. apply repeat_spec in H. vm_compute in H. discriminate H.
    + exists out. split; [exact Hout|]. exact (Hsuffix _ _ Hout).
Defined.

(** Three scenarios of the specification: clean text, frontmatter, a table
    inside other text. *)
Lemma cleanMarkdown_scenarios :
  cleanMarkdown (Some (js "  plain text ")) = Ok (js "plain text...") /\
  cleanMarkdown
    (Some (js "---" ++ [10] ++ js "title: x" ++ [10] ++ js "---" ++ [10] ++
           js "Body text"))
  = Ok (js "Body text...") /\
  cleanMarkdown
    (Some (js "before <table><tr><td>cell</td></tr></table> after"))
  = Ok (js "before  after...").
Proof. repeat split; vm_compute; reflexivity. Qed.

(** C4 as stated fails: an input of 1021 spaces is trimmed to nothing, and
    the result has three code units, not 1024. *)
Lemma long_input_short_output :
  (1021 <= List.length (repeat 32 1021))%nat /\
  cleanMarkdown (Some (repeat 32 1021)) = Ok (js "...") /\
  List.length (js "...") <> 1024%nat.
Proof.
  split; [rewrite repeat_length; apply le_n|].
  split; [vm_compute; reflexivity | discriminate].
Qed.

(** The cleaner fails on a numeric entity beyond U+10FFFF. *)
Lemma cleanMarkdown_range_error :
  cleanMarkdown (Some (js "&#x110000;")) = Throw RangeError.
Proof. vm_compute. reflexivity. Qed.

End MarkdownFacts.

(** ** The pipeline *)

Section PipelineProperties.
Variable unsafe_text : Z -> jsstring.
Variable coerce : JSON -> number.

Lemma has_path_of (outer inner : jsstring) (model_info : JSON) :
  path_of outer inner model_info <> Malformed ->
  has_path outer inner model_info
  = Ok (match path_of outer inner model_info with
        | Exposed _ => true
        | _ => false
        end) /\
  (forall v, path_of outer inner model_info = Exposed v ->
             get_path outer inner model_info = Some v).
Proof.
  unfold path_of, has_path, get_path. destruct model_info as [| | | | |members];
    simpl; try congruence; [intros _; split; [reflexivity | discriminate]|].
  destruct (Json.lookup outer members) as [[| | | | |inner_members]|];
    simpl; try congruence;
    try (intros _; split; [reflexivity | discriminate]).
  destruct (Json.lookup inner inner_members) as [v|]; intros _;
    (split; [reflexivity|]); intros v' H; congruence.
Qed.

(** An accepted event whose two reads succeed is posted, once, with the
    expected document. *)
Lemma sendToDiscord_posts (w : World) (payload : HFWebhookPayload)
    (webhookUrl : jsstring) (tr : list request) (model_info : JSON)
    (readme_res : Response) (description : jsstring) :
  reads w payload tr model_info readme_res ->
  Markdown.cleanMarkdown
    (if (status readme_res =? 200)%Z then Some (text readme_res) else None)
  = Ok description ->
  let post :=
    Post webhookUrl (js "application/json")
         {| embeds := [ expected_embed unsafe_text coerce w payload
                          model_info description ] |} in
  let issued :=
    tr ++ [Get (Repo.url_api (repo payload))] ++
    [Get (readme_url (Repo.name (repo payload)))] in
  sendToDiscord unsafe_text coerce w payload webhookUrl tr =
  (delivery w issued post, issued ++ [post]).
Proof.
  intros [Hacc [model_info_res [Hapi Hjson]] Hreadme Htotal Hlicense] Hdesc.
  cbv zeta. unfold isRelevant in Hacc. apply negb_true_iff in Hacc.
  destruct (@has_path_of _ _ _ Htotal) as [Hhas_t Hget_t].
  destruct (@has_path_of _ _ _ Hlicense) as [Hhas_l Hget_l].
  unfold sendToDiscord. rewrite Hacc. unfold bind, fetch, lift, ret.
  rewrite Hapi, Hjson, Hreadme, Hdesc, Hhas_t, Hhas_l.
  rewrite <- !app_assoc.
  assert (forall (b : bool) (xs ys : list field),
             (if b then xs ++ ys else xs) = xs ++ (if b then ys else []))
    as Hif
    by (intros [|] xs ys; [reflexivity | rewrite app_nil_r; reflexivity]).
  rewrite !Hif.
  unfold delivery, expected_embed, expected_fields, type_field,
    parameters_field, license_field.
  destruct (path_of (js "safetensors") (js "total") model_info) as [total| |]
    eqn:Et; [rewrite (Hget_t total eq_refl)| |contradiction];
    (destruct (path_of (js "cardData") (js "license") model_info)
       as [license| |] eqn:El;
     [rewrite (Hget_l license eq_refl)| |contradiction]);
    cbn [app];
    match goal with
    | |- match ?a with _ => _ end = _ => destruct a as [response|e]
    end; try reflexivity;
    destruct (ok response); reflexivity.
Qed.

(** C6. When the documentation fetch answers with a status other than 200
    (a 404, say), the event is still posted, and the description of the
    notification is the three dots: the run ends as the delivery ends. *)
Theorem readme_absent_description (w : World) (payload : HFWebhookPayload)
    (webhookUrl : jsstring) (tr : list request) (model_info : JSON)
    (readme_res : Response) :
  reads w payload tr model_info readme_res ->
  status readme_res <> 200%Z ->
  exists e,
    let post := Post webhookUrl (js "application/json") {| embeds := [e] |} in
    let issued :=
      tr ++ [Get (Repo.url_api (repo payload))] ++
      [Get (readme_url (Repo.name (repo payload)))] in
    sendToDiscord unsafe_text coerce w payload webhookUrl tr
    = (delivery w issued post, issued ++ [post]) /\
    description e = js "...".
Proof.
  intros Hreads Hstatus.
  exists (expected_embed unsafe_text coerce w payload model_info (js "...")).
  cbv zeta.
  split; [|reflexivity].
  apply (@sendToDiscord_posts w payload webhookUrl tr model_info readme_res
           (js "...") Hreads).
  apply Z.eqb_neq in Hstatus. rewrite Hstatus. reflexivity.
Qed.

(** The field list of a posted notification, for metadata in which
    [safetensors] and [cardData] are objects where they are present: Type
    (the type with its first code unit in upper case), then Parameters
    exactly when the key [total] is in [safetensors] (its value, whatever it
    is, converted to a number and abbreviated in floor mode), then License
    exactly when the key [license] is in [cardData] (its value as it is, a
    string or not). *)
Theorem fields_in_order (w : World) (payload : HFWebhookPayload)
    (webhookUrl : jsstring) (tr : list request) (model_info : JSON)
    (readme_res : Response) (summary : jsstring) :
  reads w payload tr model_info readme_res ->
  Markdown.cleanMarkdown
    (if (status readme_res =? 200)%Z then Some (text readme_res) else None)
  = Ok summary ->
  exists e,
    snd (sendToDiscord unsafe_text coerce w payload webhookUrl tr)
    = tr ++ [ Get (Repo.url_api (repo payload));
              Get (readme_url (Repo.name (repo payload)));
              Post webhookUrl (js "application/json") {| embeds := [e] |} ] /\
    fields e =
    [type_field w payload] ++
    match path_of (js "safetensors") (js "total") model_info with
    | Exposed total => [parameters_field unsafe_text coerce total]
    | _ => []
    end ++
    match path_of (js "cardData") (js "license") model_info with
    | Exposed license => [license_field license]
    | _ => []
    end.
Proof.
  intros Hreads Hsummary.
  exists (expected_embed unsafe_text coerce w payload model_info summary).
  rewrite (@sendToDiscord_posts w payload webhookUrl tr model_info readme_res
             summary Hreads Hsummary).
  cbv zeta. simpl snd. rewrite <- !app_assoc. split; reflexivity.
Qed.

Lemma has_path_malformed (outer inner : jsstring) (model_info : JSON) :
  path_of outer inner model_info = Malformed ->
  has_path outer inner model_info = Throw TypeError.
Proof.
  unfold path_of, has_path. destruct model_info as [| | | | |members];
    simpl; try congruence.
  destruct (Json.lookup outer members) as [[| | | | |inner_members]|];
    simpl; try congruence.
  destruct (Json.lookup inner inner_members); discriminate.
Qed.

(** C7 on the code: when [safetensors] or [cardData] holds a value that is
    no object ([null], a number, a string) the metadata has no total or no
    license at that path, and the run of an accepted event whose two reads
    succeed does not leave the field out: the [in] operator throws a
    TypeError after the two reads, and nothing is posted. *)
Theorem absent_path_throws (w : World) (payload : HFWebhookPayload)
    (webhookUrl : jsstring) (tr : list request) (model_info : JSON)
    (readme_res : Response) (summary : jsstring) :
  isRelevant (Repo.name (repo payload)) = true ->
  (exists model_info_res,
      answer w tr (api_get payload) = Ok model_info_res /\
      json model_info_res = Ok model_info) ->
  answer w (tr ++ [api_get payload]) (readme_get payload) = Ok readme_res ->
  Markdown.cleanMarkdown
    (if (status readme_res =? 200)%Z then Some (text readme_res) else None)
  = Ok summary ->
  path_of (js "safetensors") (js "total") model_info = Malformed \/
  path_of (js "cardData") (js "license") model_info = Malformed ->
  sendToDiscord unsafe_text coerce w payload webhookUrl tr
  = (Throw TypeError, tr ++ [api_get payload; readme_get payload]).
Proof.
  intros Hacc [model_info_res [Hapi Hjson]] Hreadme Hsummary Hpath.
  unfold isRelevant in Hacc. apply negb_true_iff in Hacc.
  unfold api_get, readme_get in *.
  unfold sendToDiscord. rewrite Hacc. unfold bind, fetch, lift, ret.
  rewrite Hapi, Hjson, Hreadme, Hsummary, <- app_assoc.
  destruct (path_of (js "safetensors") (js "total") model_info) eqn:Et.
  - destruct Hpath as [Hpath | Hpath]; [discriminate|].
    destruct (@has_path_of (js "safetensors") (js "total") model_info)
      as [-> _]; [congruence|].
    rewrite (has_path_malformed _ _ _ Hpath). reflexivity.
  - destruct Hpath as [Hpath | Hpath]; [discriminate|].
    destruct (@has_path_of (js "safetensors") (js "total") model_info)
      as [-> _]; [congruence|].
    rewrite (has_path_malformed _ _ _ Hpath). reflexivity.
  - rewrite (has_path_malformed _ _ _ Et). reflexivity.
Qed.

(** C9. A rejected event issues no request at all, neither fetch nor post,
    and its run returns at once; a run that issues a request is the run of
    an accepted event. *)
Theorem rejected_event_is_silent (w : World) (payload : HFWebhookPayload)
    (webhookUrl : jsstring) (tr : list request) :
  (isRelevant (Repo.name (repo payload)) = false ->
   sendToDiscord unsafe_text coerce w payload webhookUrl tr = (Ok tt, tr)) /\
  (snd (sendToDiscord unsafe_text coerce w payload webhookUrl tr) <> tr ->
   isRelevant (Repo.name (repo payload)) = true).
Proof.
  assert (isRelevant (Repo.name (repo payload)) = false ->
          sendToDiscord unsafe_text coerce w payload webhookUrl tr
          = (Ok tt, tr)) as Hsilent.
  { intros H. unfold isRelevant in H. apply negb_false_iff in H.
    unfold sendToDiscord. rewrite H. reflexivity. }
  split; [exact Hsilent|]. intros Htrace.
  destruct (isRelevant (Repo.name (repo payload))) eqn:E; [reflexivity|].
  rewrite (Hsilent eq_refl) in Htrace. contradiction Htrace. reflexivity.
Qed.

(** C10. The visibility flag is never read: with the flag set either way
    the event is filtered the same and its run is the same, requests and
    posted document included. *)
Theorem visibility_is_ignored (w : World) (payload : HFWebhookPayload)
    (webhookUrl : jsstring) (tr : list request) (b : bool) :
  isRelevant (Repo.name (repo (with_private b payload)))
  = isRelevant (Repo.name (repo payload)) /\
  sendToDiscord unsafe_text coerce w (with_private b payload) webhookUrl tr
  = sendToDiscord unsafe_text coerce w payload webhookUrl tr.
Proof. split; reflexivity. Qed.

End PipelineProperties.

(** The colour of a type outside the table that is no member of
    [Object.prototype] is the gray default. *)
Lemma color_of_default (type : jsstring) :
  own_color type colors = None ->
  existsb (Str.eqb type) Object_prototype = false ->
  color_of type = ColorNumber 0x808080%Z.
Proof.
  intros Hown Hproto. unfold color_of, colors_at. rewrite Hown, Hproto.
  reflexivity.
Qed.

Lemma color_of_table :
  color_of (js "model") = ColorNumber 0xFF9D00%Z /\
  color_of (js "dataset") = ColorNumber 0x00D1FF%Z /\
  color_of (js "space") = ColorNumber 0xFF006E%Z.
Proof. repeat split. Qed.

(** C8 on the code: the type "constructor" is outside the table, and its
    colour is not the gray default but the member that the [colors] object
    inherits; the notification of such an event is posted with it. *)
Theorem color_of_constructor :
  own_color (js "constructor") colors = None /\
  color_of (js "constructor") = Inherited (js "constructor") /\
  color_of (js "constructor") <> ColorNumber 0x808080%Z /\
  exists e,
    snd (sendToDiscord Scenario.no_unsafe Scenario.no_coercion
           Scenario.world (Scenario.payload_of_type (js "constructor"))
           Scenario.webhook [])
    = [ Get Scenario.api_url;
        Get (readme_url (js "acme/small-model"));
        Post Scenario.webhook (js "application/json") {| embeds := [e] |} ] /\
    color e = Inherited (js "constructor").
Proof.
  split; [reflexivity|]. split; [reflexivity|]. split; [discriminate|].
  eexists. split; [vm_compute; reflexivity | reflexivity].
Qed.

Lemma reads_example :
  reads Scenario.world Scenario.payload [] Scenario.metadata
        Scenario.not_found.
Proof.
  constructor.
  - vm_compute. reflexivity.
  - eexists. split; vm_compute; reflexivity.
  - vm_compute. reflexivity.
  - vm_compute. discriminate.
  - vm_compute. discriminate.
Defined.

(** A metadata document with [null] at [safetensors]: the path to a total
    is absent, the [in] operator throws after the two reads, and nothing is
    posted. *)
Lemma absent_path_throws_witness :
  Json.get (js "total")
    (Json.get (js "safetensors")
       (Some (JObject [ (js "safetensors", JNull) ]))) = None /\
  sendToDiscord Scenario.no_unsafe Scenario.no_coercion
    (Scenario.world_of (JObject [ (js "safetensors", JNull) ]))
    Scenario.payload Scenario.webhook []
  = (Throw TypeError,
     [ Get Scenario.api_url; Get (readme_url (js "acme/small-model")) ]).
Proof.
  split; [reflexivity|].
  apply (@absent_path_throws Scenario.no_unsafe Scenario.no_coercion
           (Scenario.world_of (JObject [ (js "safetensors", JNull) ]))
           Scenario.payload Scenario.webhook []
           (JObject [ (js "safetensors", JNull) ]) Scenario.not_found
           (js "...")).
  - vm_compute. reflexivity.
  - eexists. split; vm_compute; reflexivity.
  - vm_compute. reflexivity.
  - vm_compute. reflexivity.
  - left. vm_compute. reflexivity.
Defined.

Lemma readme_absent_description_witness :
  exists e,
    snd (sendToDiscord Scenario.no_unsafe Scenario.no_coercion Scenario.world
           Scenario.payload Scenario.webhook [])
    = [ Get Scenario.api_url;
        Get (readme_url (js "acme/small-model"));
        Post Scenario.webhook (js "application/json") {| embeds := [e] |} ] /\
    description e = js "...".
Proof.
  destruct (@readme_absent_description Scenario.no_unsafe
              Scenario.no_coercion Scenario.world Scenario.payload
              Scenario.webhook [] Scenario.metadata Scenario.not_found
              reads_example) as [e [Hrun Hdesc]].
  - vm_compute. discriminate.
  - exists e. cbv zeta in Hrun. rewrite Hrun.
    split; [reflexivity | exact Hdesc].
Defined.

Lemma fields_in_order_witness :
  exists e,
    snd (sendToDiscord Scenario.no_unsafe Scenario.no_coercion Scenario.world
           Scenario.payload Scenario.webhook [])
    = [ Get Scenario.api_url;
        Get (readme_url (js "acme/small-model"));
        Post Scenario.webhook (js "application/json") {| embeds := [e] |} ] /\
    map (fun f => (field_name f, field_value f)) (fields e)
    = [ (js "Type", JString (js "Model"));
        (js "Parameters", JString (js "7B"));
        (js "License", JString (js "mit")) ].
Proof.
  destruct (@fields_in_order Scenario.no_unsafe Scenario.no_coercion
              Scenario.world Scenario.payload Scenario.webhook []
              Scenario.metadata Scenario.not_found (js "...")
              reads_example) as [e [Hrun Hfields]].
  - vm_compute. reflexivity.
  - exists e. split; [exact Hrun|]. rewrite Hfields. vm_compute. reflexivity.
Defined.

Lemma rejected_event_is_silent_witness :
  sendToDiscord Scenario.no_unsafe Scenario.no_coercion Scenario.world
    (with_private false
       {| event_action := js "create"; event_scope := js "repo";
          repo := {| Repo.type := js "model";
                     Repo.name := js "acme/model-gguf";
                     Repo.id := js "1"; Repo.private := false;
                     Repo.url_web := []; Repo.url_api := Scenario.api_url;
                     Repo.owner_id := js "2"; Repo.tags := None |};
          webhook_id := js "3"; webhook_version := 3 |})
    Scenario.webhook []
  = (Ok tt, []) /\
  isRelevant (Repo.name (repo Scenario.payload)) = true.
Proof.
  split.
  - apply (proj1 (rejected_event_is_silent Scenario.no_unsafe
                    Scenario.no_coercion Scenario.world _ Scenario.webhook [])).
    vm_compute. reflexivity.
  - apply (proj2 (rejected_event_is_silent Scenario.no_unsafe
                    Scenario.no_coercion Scenario.world Scenario.payload
                    Scenario.webhook [])).
    vm_compute. discriminate.
Defined.

(** * Further properties *)

(** ** The requests of [sendToDiscord] *)

Section RunProperties.
Variable unsafe_text : Z -> jsstring.
Variable coerce : JSON -> number.

Lemma sendToDiscord_denied (w : World) (payload : HFWebhookPayload)
    (webhookUrl : jsstring) (tr : list request) :
  denied (Repo.name (repo payload)) = true ->
  sendToDiscord unsafe_text coerce w payload webhookUrl tr = (Ok tt, tr).
Proof. intros H. unfold sendToDiscord. rewrite H. reflexivity. Qed.

(** The requests of one run, whatever the world answers: none for a
    rejected event; else the metadata read, then the documentation read,
    then one post, to the webhook and to nothing else, each issued only when
    the one before it was answered.  A run that returns has issued nothing
    or all three. *)
Theorem sendToDiscord_requests (w : World) (payload : HFWebhookPayload)
    (webhookUrl : jsstring) (tr : list request) :
  exists ext,
    snd (sendToDiscord unsafe_text coerce w payload webhookUrl tr)
    = tr ++ ext /\
    (ext = [] <-> isRelevant (Repo.name (repo payload)) = false) /\
    (ext = [] \/
     ext = [api_get payload] \/
     ext = [api_get payload; readme_get payload] \/
     exists doc,
       ext = [ api_get payload; readme_get payload;
               Post webhookUrl (js "application/json") doc ]) /\
    (fst (sendToDiscord unsafe_text coerce w payload webhookUrl tr) = Ok tt ->
     ext = [] \/
     exists doc,
       ext = [ api_get payload; readme_get payload;
               Post webhookUrl (js "application/json") doc ]).
Proof.
  unfold isRelevant.
  destruct (denied (Repo.name (repo payload))) eqn:Hd.
  - rewrite sendToDiscord_denied by exact Hd. exists []. simpl.
    rewrite app_nil_r. repeat split; auto.
  - unfold sendToDiscord. rewrite Hd. unfold bind, fetch, lift, ret.
    unfold api_get, readme_get. cbn [negb].
    assert (forall ext : list request,
               ext <> [] -> (ext = [] <-> true = false)) as Hne
      by (intros ext H; split; [contradiction | discriminate]).
    destruct (answer w tr (Get (Repo.url_api (repo payload))))
      as [model_info_res|e].
    2:{ eexists. split; [reflexivity|]. split; [apply Hne; discriminate|].
        split; [auto | discriminate]. }
    destruct (json model_info_res) as [model_info|e].
    2:{ eexists. split; [reflexivity|]. split; [apply Hne; discriminate|].
        split; [auto | discriminate]. }
    destruct (answer w (tr ++ [Get (Repo.url_api (repo payload))])
                (Get (readme_url (Repo.name (repo payload)))))
      as [readme_res|e].
    2:{ eexists. split; [rewrite <- app_assoc; reflexivity|].
        split; [apply Hne; discriminate|]. split; [auto | discriminate]. }
    destruct (Markdown.cleanMarkdown _) as [description|e].
    2:{ eexists. split; [rewrite <- app_assoc; reflexivity|].
        split; [apply Hne; discriminate|]. split; [auto | discriminate]. }
    destruct (has_path (js "safetensors") (js "total") model_info)
      as [has_total|e].
    2:{ eexists. split; [rewrite <- app_assoc; reflexivity|].
        split; [apply Hne; discriminate|]. split; [auto | discriminate]. }
    destruct (has_path (js "cardData") (js "license") model_info)
      as [has_license|e].
    2:{ eexists. split; [rewrite <- app_assoc; reflexivity|].
        split; [apply Hne; discriminate|]. split; [auto | discriminate]. }
    match goal with
    | |- context [answer w ?t ?post] =>
        destruct (answer w t post) as [response|e]
    end.
    + destruct (negb (ok response)); (eexists; split;
        [rewrite <- !app_assoc; reflexivity|]);
        (split; [apply Hne; discriminate|]);
        (split; [right; right; right; eexists; reflexivity|]);
        intros _; right; eexists; reflexivity.
    + eexists. split; [rewrite <- !app_assoc; reflexivity|].
      split; [apply Hne; discriminate|].
      split; [right; right; right; eexists; reflexivity | discriminate].
Qed.

(** A failure of the metadata read is fatal and stops the run: when the
    metadata request is rejected, or its body is not JSON, the run throws
    that error and the documentation is not even requested; a rejected
    documentation request is fatal too, and nothing is posted. *)
Theorem metadata_failure_is_fatal (w : World) (payload : HFWebhookPayload)
    (webhookUrl : jsstring) (tr : list request) :
  isRelevant (Repo.name (repo payload)) = true ->
  (forall e,
      answer w tr (api_get payload) = Throw e ->
      sendToDiscord unsafe_text coerce w payload webhookUrl tr
      = (Throw e, tr ++ [api_get payload])) /\
  (forall model_info_res e,
      answer w tr (api_get payload) = Ok model_info_res ->
      json model_info_res = Throw e ->
      sendToDiscord unsafe_text coerce w payload webhookUrl tr
      = (Throw e, tr ++ [api_get payload])) /\
  (forall model_info_res model_info e,
      answer w tr (api_get payload) = Ok model_info_res ->
      json model_info_res = Ok model_info ->
      answer w (tr ++ [api_get payload]) (readme_get payload) = Throw e ->
      sendToDiscord unsafe_text coerce w payload webhookUrl tr
      = (Throw e, tr ++ [api_get payload; readme_get payload])).
Proof.
  intros Hacc. unfold isRelevant in Hacc. apply negb_true_iff in Hacc.
  unfold api_get, readme_get. split; [|split].
  - intros e H. unfold sendToDiscord. rewrite Hacc.
    unfold bind, fetch. rewrite H. reflexivity.
  - intros r e H Hj. unfold sendToDiscord. rewrite Hacc.
    unfold bind, fetch, lift. rewrite H, Hj. reflexivity.
  - intros r mi e H Hj Hr. unfold sendToDiscord. rewrite Hacc.
    unfold bind, fetch, lift. rewrite H, Hj, Hr, <- app_assoc. reflexivity.
Qed.

(** The run reads four fields of the event and no other: two events with
    the same type, identifier, web URL and API URL have the same run,
    whatever their tags, ids, owner, visibility, event kind and webhook
    data. *)
Theorem sendToDiscord_reads_four_fields (w : World)
    (p1 p2 : HFWebhookPayload) (webhookUrl : jsstring) (tr : list request) :
  Repo.type (repo p1) = Repo.type (repo p2) ->
  Repo.name (repo p1) = Repo.name (repo p2) ->
  Repo.url_web (repo p1) = Repo.url_web (repo p2) ->
  Repo.url_api (repo p1) = Repo.url_api (repo p2) ->
  sendToDiscord unsafe_text coerce w p1 webhookUrl tr
  = sendToDiscord unsafe_text coerce w p2 webhookUrl tr.
Proof.
  intros Ht Hn Hw Ha. unfold sendToDiscord. cbv zeta.
  rewrite Ht, Hn, Hw, Ha. reflexivity.
Qed.

(** When the documentation is there (status 200), the posted document has
    one embed: its title is the identifier, its description the cleaned
    documentation text, its colour that of the type, its link the web URL,
    its time the clock, its footer the fixed branding; the run ends as the
    delivery ends. *)
Theorem posted_document (w : World) (payload : HFWebhookPayload)
    (webhookUrl : jsstring) (tr : list request) (model_info : JSON)
    (readme_res : Response) (summary : jsstring) :
  reads w payload tr model_info readme_res ->
  status readme_res = 200%Z ->
  Markdown.cleanMarkdown (Some (text readme_res)) = Ok summary ->
  exists e,
    let post := Post webhookUrl (js "application/json") {| embeds := [e] |} in
    let issued := tr ++ [api_get payload; readme_get payload] in
    sendToDiscord unsafe_text coerce w payload webhookUrl tr
    = (delivery w issued post, issued ++ [post]) /\
    title e = Repo.name (repo payload) /\
    description e = summary /\
    color e = color_of (Repo.type (repo payload)) /\
    url e = Repo.url_web (repo payload) /\
    timestamp e = now w /\
    footer_text e = js "Hugging Face" /\
    footer_icon_url e = huggingface_logo.
Proof.
  intros Hreads Hstatus Hsummary.
  exists (expected_embed unsafe_text coerce w payload model_info summary).
  cbv zeta. split; [|repeat split].
  apply (@sendToDiscord_posts unsafe_text coerce w payload webhookUrl tr
           model_info readme_res summary Hreads).
  rewrite Hstatus. exact Hsummary.
Qed.

End RunProperties.

(** ** The entry point *)

Section HandlerProperties.
Variable unsafe_text : Z -> jsstring.
Variable coerce : JSON -> number.

Lemma authorized_check (req : Worker.Request) (env : Worker.Env) :
  Worker.truthy (Worker.HF_WEBHOOK_SECRET env) &&
  Worker.differs (Worker.secret_header req) (Worker.HF_WEBHOOK_SECRET env)
  = negb (authorized req env).
Proof.
  unfold authorized, Worker.truthy, Worker.differs.
  destruct (Worker.HF_WEBHOOK_SECRET env) as [[|c secret]|];
    destruct (Worker.secret_header req) as [provided|];
    reflexivity.
Qed.

(** The answers of the handler.  A method other than POST is answered 405;
    a POST that fails the secret check (a secret is configured, not empty,
    and the header is missing or different) is answered 401; in both cases
    nothing is requested and nothing is logged.  Every other request is
    answered 200 "OK", whatever happens while it is processed: with an
    empty or unset secret every POST is of this kind. *)
Theorem fetch_answers (w : World) (req : Worker.Request)
    (env : Worker.Env) (tr : list request) :
  (Str.eqb (Worker.method req) (js "POST") = false ->
   Worker.fetch unsafe_text coerce w req env tr
   = (Ok (Worker.method_not_allowed, None), tr)) /\
  (Str.eqb (Worker.method req) (js "POST") = true ->
   authorized req env = false ->
   Worker.fetch unsafe_text coerce w req env tr
   = (Ok (Worker.unauthorized, None), tr)) /\
  (Str.eqb (Worker.method req) (js "POST") = true ->
   authorized req env = true ->
   exists logged tr',
     Worker.fetch unsafe_text coerce w req env tr
     = (Ok (Worker.OK, logged), tr')).
Proof.
  unfold Worker.fetch. rewrite authorized_check. split; [|split].
  - intros H. rewrite H. reflexivity.
  - intros H Ha. rewrite H, Ha. reflexivity.
  - intros H Ha. rewrite H, Ha. cbn [negb]. cbv beta iota.
    unfold Worker.try_catch, bind, lift, ret. cbv beta.
    destruct (Worker.json_body req) as [payload|e];
      [|do 2 eexists; reflexivity].
    destruct (Str.eqb (event_scope payload) (js "repo") &&
              Str.eqb (event_action payload) (js "create"));
      [|do 2 eexists; reflexivity].
    destruct (sendToDiscord unsafe_text coerce w payload
                (Worker.DISCORD_WEBHOOK_URL env) tr) as [[u|e] tr'];
      do 2 eexists; reflexivity.
Qed.

(** The handler issues a request only for a POST that passes the secret
    check, whose body is a repository creation event with an identifier
    that the denylist accepts. *)
Theorem fetch_gate (w : World) (req : Worker.Request)
    (env : Worker.Env) (tr : list request) :
  snd (Worker.fetch unsafe_text coerce w req env tr) <> tr ->
  Str.eqb (Worker.method req) (js "POST") = true /\
  authorized req env = true /\
  exists payload,
    Worker.json_body req = Ok payload /\
    is_create payload = true /\
    isRelevant (Repo.name (repo payload)) = true.
Proof.
  unfold Worker.fetch. rewrite authorized_check.
  destruct (Str.eqb (Worker.method req) (js "POST"));
    [|intros H; contradiction H; reflexivity].
  destruct (authorized req env);
    [|intros H; contradiction H; reflexivity].
  cbn [negb]. cbv beta iota.
  unfold Worker.try_catch, bind, lift, ret. cbv beta.
  destruct (Worker.json_body req) as [payload|e];
    [|intros H; contradiction H; reflexivity].
  fold (is_create payload).
  destruct (is_create payload) eqn:Hc;
    [|intros H; contradiction H; reflexivity].
  intros H. split; [reflexivity|]. split; [reflexivity|].
  exists payload. split; [reflexivity|]. split; [exact Hc|].
  unfold isRelevant.
  destruct (denied (Repo.name (repo payload))) eqn:Hd; [|reflexivity].
  rewrite (@sendToDiscord_denied unsafe_text coerce w payload _ tr Hd) in H.
  contradiction H. reflexivity.
Qed.


End HandlerProperties.

(** ** Matches and scans *)

Module ScanFacts.
Import Regex RegexFacts LineFacts.

Lemma needs_atom_eq (fl : flags) (a : atom) (c0 c : N) :
  needs_atom c0 a = true -> atom_ok fl a c = true -> c = c0.
Proof.
  destruct a as [d|p]; simpl; [|discriminate].
  rewrite !andb_true_iff, !negb_true_iff. intros [[Hd Hup] Hlow] Hok.
  apply N.eqb_eq in Hd. subst d. apply N.eqb_eq in Hok.
  unfold canon, Str.upper_unit in Hok. rewrite Hlow in Hok.
  destruct (ignoreCase fl); [|exact Hok].
  destruct (Str.is_lower c) eqn:Hc; [|exact Hok]. exfalso.
  unfold Str.is_lower in Hc. unfold Str.is_upper in Hup.
  apply andb_true_iff in Hc. destruct Hc as [H1 H2].
  apply N.leb_le in H1. apply N.leb_le in H2.
  apply andb_false_iff in Hup.
  destruct Hup as [Hup | Hup]; apply N.leb_gt in Hup; lia.
Qed.

Lemma skip_same_app (fl : flags) :
  forall w p s p' s',
    skip_same fl w p s = Some (p', s') -> exists m, s = m ++ s'.
Proof.
  induction w as [|d w IH]; intros p s p' s' H.
  - destruct s; simpl in H; inversion H; subst; exists []; reflexivity.
  - destruct s as [|c s]; simpl in H; [discriminate|].
    destruct (canon fl c =? canon fl d); [|discriminate].
    destruct (IH _ _ _ _ H) as [m Hm]. exists (c :: m). rewrite Hm.
    reflexivity.
Qed.

(** What a match passes: at least [min_len] code units, and each code unit
    that the pattern needs. *)
Lemma Matches_passed (fl : flags) (r : regex) :
  forall st st',
    Matches fl r st st' ->
    exists m,
      rest st = m ++ rest st' /\ (min_len r <= List.length m)%nat /\
      (forall c, needs c r = true -> In c m).
Proof.
  induction r as [|a|a lo hi greedy|r1 IH1 r2 IH2|r1 IH1 r2 IH2| | |r1 IH1|];
    intros st st' H; simpl in H.
  - subst st'. exists []. simpl. repeat split; auto. discriminate.
  - destruct H as [c [Hs [Hok _]]]. exists [c]. simpl.
    repeat split; auto. intros c0 Hn. left.
    exact (@needs_atom_eq fl a c0 c Hn Hok).
  - destruct H as [cs [Hs [Hall [Hlo _]]]]. exists cs. simpl.
    repeat split; auto. intros c0 Hn.
    apply andb_true_iff in Hn. destruct Hn as [H1 Hn].
    destruct lo as [|lo]; [discriminate H1|].
    destruct cs as [|c cs]; [simpl in Hlo; lia|].
    simpl in Hall. apply andb_true_iff in Hall. destruct Hall as [Hok _].
    left. exact (@needs_atom_eq fl a c0 c Hn Hok).
  - destruct H as [mid [H1 H2]].
    destruct (IH1 _ _ H1) as [m1 [Hs1 [Hl1 Hn1]]].
    destruct (IH2 _ _ H2) as [m2 [Hs2 [Hl2 Hn2]]].
    exists (m1 ++ m2). rewrite Hs1, Hs2, <- app_assoc, length_app. simpl.
    repeat split; auto; [lia|]. intros c Hn. apply in_or_app.
    apply orb_true_iff in Hn. destruct Hn; auto.
  - destruct H as [H | H].
    + destruct (IH1 _ _ H) as [m [Hs [Hl Hn]]]. exists m. simpl.
      repeat split; auto; [lia|]. intros c Hc.
      apply andb_true_iff in Hc. destruct Hc; auto.
    + destruct (IH2 _ _ H) as [m [Hs [Hl Hn]]]. exists m. simpl.
      repeat split; auto; [lia|]. intros c Hc.
      apply andb_true_iff in Hc. destruct Hc; auto.
  - destruct H as [-> _]. exists []. simpl. repeat split; auto. discriminate.
  - destruct H as [-> _]. exists []. simpl. repeat split; auto. discriminate.
  - destruct H as [st1 [H ->]]. destruct (IH1 _ _ H) as [m [Hs [Hl Hn]]].
    exists m. simpl. auto.
  - destruct (cap st) as [w|].
    + destruct H as [H _]. apply skip_same_app in H. destruct H as [m Hm].
      exists m. simpl. repeat split; auto; [lia | discriminate].
    + subst st'. exists []. simpl. repeat split; auto. discriminate.
Qed.

(** The same for a match attempt, with the matched text. *)
Lemma match_at_passed (fl : flags) (r : regex) (p : option N)
    (s : jsstring) (st' : state) :
  match_at fl r p s = Some st' ->
  exists m,
    s = m ++ rest st' /\
    consumed {| prev := p; rest := s; cap := None |} st' = m /\
    (min_len r <= List.length m)%nat /\
    (forall c, needs c r = true -> In c m).
Proof.
  intros H. unfold match_at in H. apply exec_sound in H.
  destruct H as [st1 [HM Heq]]. inversion Heq; subst st1.
  destruct (Matches_passed _ _ _ _ HM) as [m [Hs [Hl Hn]]]. simpl in Hs.
  exists m. repeat split; auto. subst s. apply consumed_app.
Qed.

Lemma match_at_needs (fl : flags) (r : regex) (c : N) (p : option N)
    (s : jsstring) :
  needs c r = true -> ~ In c s -> match_at fl r p s = None.
Proof.
  intros Hn Hs. destruct (match_at fl r p s) as [st'|] eqn:H; [|reflexivity].
  destruct (match_at_passed _ _ _ _ H) as [m [Hm [_ [_ Hin]]]].
  exfalso. apply Hs. rewrite Hm. apply in_or_app. left. auto.
Qed.

(** A pattern that matches at no position of a text leaves it as it is. *)
Lemma scan_all_kept (fl : flags) (r : regex) :
  forall s p,
    (forall a b, s = a ++ b -> match_at fl r (walk p a) b = None) ->
    scan fl r true 0 p s = map Keep s.
Proof.
  induction s as [|c s IH]; intros p H.
  - pose proof (H [] [] eq_refl) as H0. simpl in H0. simpl.
    rewrite H0. reflexivity.
  - pose proof (H [] (c :: s) eq_refl) as H0. simpl in H0. simpl.
    rewrite H0. f_equal. apply IH.
    intros a b Hab. apply (H (c :: a) b). rewrite Hab. reflexivity.
Qed.

Lemma replace_all_kept (fl : flags) (r : regex) (new s : jsstring) :
  (forall a b, s = a ++ b -> match_at fl r (walk None a) b = None) ->
  replace fl r new s = s.
Proof.
  intros H. unfold replace. rewrite scan_all_kept by exact H.
  induction s as [|c s IH]; [reflexivity|]. simpl. f_equal.
  clear IH H. induction s as [|d s IH]; [reflexivity|]. simpl. f_equal.
  exact IH.
Qed.

Lemma replace_needs (fl : flags) (r : regex) (c : N) (new s : jsstring) :
  needs c r = true -> ~ In c s -> replace fl r new s = s.
Proof.
  intros Hn Hs. apply replace_all_kept. intros a b Hab.
  apply (@match_at_needs fl r c); [exact Hn|].
  intros H. apply Hs. rewrite Hab. apply in_or_app. right. exact H.
Qed.

End ScanFacts.

(** ** More on the markdown cleaner *)

Module CleanerFacts.
Import Regex RegexFacts LineFacts Markdown MarkdownFacts ScanFacts.

Lemma walk_last (a : jsstring) :
  forall p, a <> [] -> exists c, walk p a = Some c /\ In c a.
Proof.
  induction a as [|d a IH]; intros p H; [contradiction|].
  destruct a as [|d' a'].
  - exists d. simpl. auto.
  - destruct (IH (Some d) ltac:(discriminate)) as [c [Hw Hin]].
    exists c. split; [exact Hw | right; exact Hin].
Qed.

Lemma markup_free_spec (s : jsstring) (c : N) :
  markup_free s = true -> In c s ->
  c <> code "<" /\ c <> code "#" /\ c <> code "!" /\ c <> code "|" /\
  c <> code "&" /\ Str.is_line_terminator c = false.
Proof.
  unfold markup_free. rewrite forallb_forall. intros H Hin.
  specialize (H c Hin). apply andb_true_iff in H. destruct H as [H1 H2].
  apply negb_true_iff in H1, H2. simpl in H1.
  repeat (apply orb_false_iff in H1; destruct H1 as [?H H1]).
  repeat split; try exact H2; intros ->; discriminate.
Qed.

Lemma markup_free_not_in (s : jsstring) (c : N) :
  markup_free s = true ->
  In c [code "<"; code "#"; code "!"; code "|"; code "&"; 10] ->
  ~ In c s.
Proof.
  intros Hs Hc Hin.
  destruct (@markup_free_spec s c Hs Hin) as (H1 & H2 & H3 & H4 & H5 & H6).
  simpl in Hc.
  destruct Hc as [<- | [<- | [<- | [<- | [<- | [<- | []]]]]]];
    try congruence. discriminate H6.
Qed.

(** What the pattern of underlines matches. *)
Lemma setext_match_shape (p : option N) (s : jsstring) (st' : state) :
  match_at gm setext_underline p s = Some st' ->
  exists m,
    s = m ++ rest st' /\ eolpos (rest st') /\
    forallb (fun c => Str.is_space c || is_underline_mark c) m = true.
Proof.
  intros H. apply exec_sound in H. destruct H as [st1 [HM Heq]].
  inversion Heq; subst st1; clear Heq. simpl in HM.
  destruct HM as [m0 [[-> _] [m1 [[cs1 [Hr1 [Ha1 _]]]
                 [m2 [[cs2 [Hr2 [Ha2 _]]]
                 [m3 [[cs3 [Hr3 [Ha3 _]]]
                 [m5 [[-> Heol] ->]]]]]]]]]].
  simpl in Hr1. exists (cs1 ++ cs2 ++ cs3).
  split; [rewrite Hr1, Hr2, Hr3, <- !app_assoc; reflexivity|].
  split; [apply at_eol_gm; exact Heol|].
  rewrite !forallb_app, !andb_true_iff. repeat split.
  - rewrite forallb_forall in *. intros c Hc.
    pose proof (Ha1 c Hc) as Hx. simpl in Hx. rewrite Hx. reflexivity.
  - rewrite forallb_forall in *. intros c Hc.
    pose proof (Ha2 c Hc) as Hx. simpl in Hx. rewrite orb_false_r in Hx.
    unfold is_underline_mark. rewrite Hx. apply orb_true_r.
  - rewrite forallb_forall in *. intros c Hc.
    pose proof (Ha3 c Hc) as Hx. simpl in Hx. rewrite Hx. reflexivity.
Qed.

Lemma setext_no_match_plain (s : jsstring) :
  markup_free s = true -> has_word s = true ->
  forall a b, s = a ++ b ->
              match_at gm setext_underline (walk None a) b = None.
Proof.
  intros Hfree Hword a b Hab.
  destruct (match_at gm setext_underline (walk None a) b) as [st'|] eqn:H;
    [|reflexivity]. exfalso.
  destruct (setext_underline_anchored _ _ H) as [Hbol _].
  destruct a as [|d a].
  - simpl in Hab. subst b.
    destruct (setext_match_shape _ _ H) as [m [Hs [Heol Hall]]].
    assert (rest st' = []) as Hrest.
    { destruct (rest st') as [|t y]; [reflexivity|]. simpl in Heol.
      assert (In t s) as Hin
          by (rewrite Hs; apply in_or_app; right; left; reflexivity).
      destruct (@markup_free_spec s t Hfree Hin) as (_ & _ & _ & _ & _ & Ht).
      congruence. }
    rewrite Hrest, app_nil_r in Hs. subst m.
    unfold has_word in Hword. apply existsb_exists in Hword.
    destruct Hword as [c [Hin Hc]]. rewrite forallb_forall in Hall.
    specialize (Hall c Hin). apply andb_true_iff in Hc.
    destruct Hc as [H1 H2]. apply negb_true_iff in H1, H2.
    rewrite H1, H2 in Hall. discriminate.
  - destruct (@walk_last (d :: a) None ltac:(discriminate)) as [c [Hw Hin]].
    rewrite Hw in Hbol. simpl in Hbol.
    assert (In c s) as Hs by (rewrite Hab; apply in_or_app; left; exact Hin).
    destruct (@markup_free_spec s c Hfree Hs) as (_ & _ & _ & _ & _ & Ht).
    congruence.
Qed.

Lemma markup_free_cleaned (s : jsstring) :
  markup_free s = true -> has_word s = true ->
  cleaned (Some s) = Ok (Str.trim s).
Proof.
  intros Hfree Hword.
  assert (forall c,
             In c [code "<"; code "#"; code "!"; code "|"; code "&"; 10] ->
             ~ In c s) as Hno
      by (intros c Hc; exact (@markup_free_not_in s c Hfree Hc)).
  unfold cleaned. cbv zeta.
  unfold strip_frontmatter, drop_html_blocks, drop_void_tags, strip_tags,
    drop_headings, drop_atx_headings, drop_setext_underlines, drop_images,
    drop_table_rows.
  rewrite (@replace_needs no_flags frontmatter 10 [] s)
    by (try reflexivity; apply Hno; simpl; auto 10).
  rewrite (@replace_needs gi html_block (code "<") [] s)
    by (try reflexivity; apply Hno; simpl; auto 10).
  rewrite (@replace_needs gi void_tag (code "<") [] s)
    by (try reflexivity; apply Hno; simpl; auto 10).
  rewrite (@replace_needs g any_tag (code "<") [] s)
    by (try reflexivity; apply Hno; simpl; auto 10).
  rewrite (@replace_needs gm atx_heading (code "#") [] s)
    by (try reflexivity; apply Hno; simpl; auto 10).
  rewrite (@replace_all_kept gm setext_underline [] s)
    by (exact (@setext_no_match_plain s Hfree Hword)).
  rewrite (@replace_needs g image (code "!") [] s)
    by (try reflexivity; apply Hno; simpl; auto 10).
  rewrite (@replace_needs gm table_row (code "|") [] s)
    by (try reflexivity; apply Hno; simpl; auto 10).
  rewrite decode_entities_plain by (apply Hno; simpl; auto 10).
  simpl rbind. unfold collapse_whitespace. cbv zeta.
  rewrite (@replace_needs g trailing_blanks 10 [10] s)
    by (try reflexivity; apply Hno; simpl; auto 10).
  rewrite (@replace_needs g blank_lines 10 [10; 10] s)
    by (try reflexivity; apply Hno; simpl; auto 10).
  reflexivity.
Qed.

(** Plain text comes out as it went in, trimmed and cut: for a text without
    [<], [#], [!], [|], [&] and line terminators that has a code unit other
    than white space, [-] and [=], the result is the trimmed text, cut at
    1021 code units, and the three dots. *)
Theorem cleanMarkdown_plain (s : jsstring) :
  markup_free s = true -> has_word s = true ->
  cleanMarkdown (Some s)
  = Ok (Str.slice_to 1021 (Str.trim s) ++ js "...").
Proof.
  intros Hfree Hword. unfold cleanMarkdown.
  rewrite (@markup_free_cleaned s Hfree Hword). reflexivity.
Qed.

(** *** The only failure *)

Lemma substitute_decode_throw (radix : N) (e : exn) :
  forall segs, substitute (decode radix) segs = Throw e -> e = RangeError.
Proof.
  induction segs as [|[c|m h] segs IH]; simpl; intros H.
  - discriminate.
  - destruct (substitute (decode radix) segs); [discriminate|].
    simpl in H. inversion H; subst. apply IH. reflexivity.
  - destruct (decode radix m h) as [u|e'] eqn:Hd; simpl in H.
    + destruct (substitute (decode radix) segs); [discriminate|].
      simpl in H. inversion H; subst. apply IH. reflexivity.
    + inversion H; subst. unfold decode, fromCodePoint in Hd.
      destruct h as [digits|]; [|congruence].
      destruct (parseInt radix digits <=? 65535); [discriminate|].
      destruct (parseInt radix digits <=? 1114111); congruence.
Qed.

(** The cleaner throws nothing but the RangeError of
    [String.fromCodePoint]. *)
Theorem cleanMarkdown_throws_range_error (md : option jsstring) (e : exn) :
  cleanMarkdown md = Throw e -> e = RangeError.
Proof.
  unfold cleanMarkdown, cleaned. cbv zeta.
  destruct (decode_entities _) as [t|e'] eqn:Hd; simpl; [discriminate|].
  intros H. inversion H; subst e'. clear H.
  unfold decode_entities in Hd. cbv zeta in Hd.
  destruct (replace_fn g hex_entity (decode 16) _) as [u|e'] eqn:Hh;
    simpl in Hd.
  - exact (@substitute_decode_throw 10 e _ Hd).
  - inversion Hd; subst e'. exact (@substitute_decode_throw 16 e _ Hh).
Qed.

(** *** White space at the ends *)

Lemma trimStart_head (s : jsstring) (c : N) (t : jsstring) :
  Str.trimStart s = c :: t -> Str.is_space c = false.
Proof.
  induction s as [|d s IH]; simpl; [discriminate|].
  destruct (Str.is_space d) eqn:Hd; [exact IH|].
  intros H. inversion H; subst. exact Hd.
Qed.

Lemma trimStart_suffix (s : jsstring) :
  exists a, s = a ++ Str.trimStart s.
Proof.
  induction s as [|d s [a IH]]; simpl; [exists []; reflexivity|].
  destruct (Str.is_space d).
  - exists (d :: a). simpl. rewrite <- IH. reflexivity.
  - exists []. reflexivity.
Qed.

Lemma trimEnd_prefix (s : jsstring) :
  exists b, s = Str.trimEnd s ++ b.
Proof.
  unfold Str.trimEnd. destruct (trimStart_suffix (rev s)) as [a Ha].
  exists (rev a). rewrite <- rev_app_distr, <- Ha, rev_involutive.
  reflexivity.
Qed.

Lemma trim_head (s : jsstring) (c : N) (t : jsstring) :
  Str.trim s = c :: t -> Str.is_space c = false.
Proof.
  unfold Str.trim. intros H.
  destruct (trimEnd_prefix (Str.trimStart s)) as [b Hb].
  rewrite H in Hb. simpl in Hb. exact (@trimStart_head s c _ Hb).
Qed.

Lemma trim_last (s t : jsstring) (c : N) :
  Str.trim s = t ++ [c] -> Str.is_space c = false.
Proof.
  unfold Str.trim, Str.trimEnd. intros H.
  apply (f_equal (@rev N)) in H. rewrite rev_involutive, rev_app_distr in H.
  simpl in H. exact (@trimStart_head _ c _ H).
Qed.

(** The description begins with text: the result of the cleaner is never
    empty and its first code unit is never white space; when the cleaned
    text is not cut, the code unit before the three dots is not white space
    either. *)
Theorem cleanMarkdown_trimmed (md : option jsstring) (out : jsstring) :
  cleanMarkdown md = Ok out ->
  (exists c t, out = c :: t /\ Str.is_space c = false) /\
  (forall t c, out = t ++ [c] ++ js "..." ->
               (List.length out < 1024)%nat -> Str.is_space c = false).
Proof.
  unfold cleanMarkdown, cleaned. cbv zeta.
  destruct (decode_entities _) as [u|e]; cbn [rbind]; [|discriminate].
  unfold collapse_whitespace. cbv zeta.
  set (x := Str.trim _). remember (Str.slice_to 1021 x) as y eqn:Hy.
  intros H. injection H as <-. subst y. split.
  - destruct x as [|c t] eqn:Hx.
    + exists (code "."), (js ".."). split; reflexivity.
    + exists c, (firstn 1020 t ++ js "..."). split; [reflexivity|].
      exact (@trim_head _ c t Hx).
  - intros t c Ht Hlen. unfold Str.slice_to in *.
    assert (firstn 1021 x = x) as Hall.
    { apply firstn_all2. rewrite length_app, length_firstn in Hlen.
      change (List.length (js "...")) with 3%nat in Hlen. lia. }
    rewrite Hall in Ht.
    change (t ++ [c] ++ js "...") with (t ++ ([c] ++ js "...")) in Ht.
    rewrite app_assoc in Ht. apply app_inv_tail in Ht.
    exact (@trim_last _ t c Ht).
Qed.

(** *** No step makes the text longer *)

Lemma firstn_length_eq (k j : nat) (l : jsstring) :
  List.length (firstn k l) = S j -> firstn k l = firstn (S j) l.
Proof.
  intros H. rewrite length_firstn in H.
  destruct (Nat.le_gt_cases k (List.length l)) as [Hk | Hk].
  - rewrite Nat.min_l in H by exact Hk. rewrite H. reflexivity.
  - rewrite Nat.min_r in H by lia.
    rewrite !firstn_all2 by lia. reflexivity.
Qed.

(** The segments of a scan are the input, cut. *)
Lemma scan_source (fl : flags) (r : regex) :
  forall s active skip p,
    source (scan fl r active skip p s) = skipn skip s.
Proof.
  induction s as [|c s IH]; intros active skip p.
  - simpl. rewrite skipn_nil.
    destruct (active && (skip =? 0)%nat); [|reflexivity].
    destruct (match_at fl r p []); reflexivity.
  - simpl. destruct skip as [|skip']; [|apply IH].
    destruct active; [|simpl; rewrite IH; reflexivity].
    destruct (match_at fl r p (c :: s)) as [st'|];
      [|simpl; rewrite IH; reflexivity].
    unfold consumed. simpl rest.
    set (k := (List.length (c :: s) - List.length (rest st'))%nat).
    destruct (List.length (firstn k (c :: s))) as [|j] eqn:Hlen.
    + apply length_zero_iff_nil in Hlen. rewrite Hlen.
      simpl. rewrite IH. reflexivity.
    + rewrite (firstn_length_eq _ _ Hlen).
      change (source (Hit (firstn (S j) (c :: s)) (cap st')
                      :: scan fl r (global fl) j (Some c) s))
        with (firstn (S j) (c :: s)
              ++ source (scan fl r (global fl) j (Some c) s)).
      rewrite IH. simpl. rewrite firstn_skipn. reflexivity.
Qed.

(** Every match of a scan is a match of the pattern. *)
Lemma scan_hits (fl : flags) (r : regex) (m : jsstring)
    (h : option jsstring) :
  forall s active skip p,
    In (Hit m h) (scan fl r active skip p s) ->
    exists p' s' st',
      match_at fl r p' s' = Some st' /\
      m = consumed {| prev := p'; rest := s'; cap := None |} st'.
Proof.
  induction s as [|c s IH]; intros active skip p H.
  - simpl in H. destruct (active && (skip =? 0)%nat); [|contradiction].
    destruct (match_at fl r p []) as [st'|] eqn:Hm; [|contradiction].
    destruct H as [H | []]. inversion H; subst.
    exists p, [], st'. split; [exact Hm|].
    unfold consumed. simpl rest. rewrite firstn_nil. reflexivity.
  - simpl in H. destruct skip as [|skip']; [|exact (IH _ _ _ H)].
    destruct active.
    + destruct (match_at fl r p (c :: s)) as [st'|] eqn:Hm.
      * destruct H as [H | H].
        -- inversion H; subst. exists p, (c :: s), st'. auto.
        -- destruct (List.length _) in H.
           ++ destruct H as [H | H]; [discriminate | exact (IH _ _ _ H)].
           ++ exact (IH _ _ _ H).
      * destruct H as [H | H]; [discriminate | exact (IH _ _ _ H)].
    + destruct H as [H | H]; [discriminate | exact (IH _ _ _ H)].
Qed.

Lemma scan_hit_length (fl : flags) (r : regex) (m : jsstring)
    (h : option jsstring) (s : jsstring) :
  In (Hit m h) (scan fl r true 0 None s) ->
  (min_len r <= List.length m)%nat.
Proof.
  intros H. destruct (scan_hits _ _ _ _ _ _ _ _ H) as [p' [s' [st' [Hm ->]]]].
  destruct (match_at_passed _ _ _ _ Hm) as [m [_ [Hc [Hl _]]]].
  rewrite Hc. exact Hl.
Qed.

Lemma flat_map_shorter (new : jsstring) (segs : list segment) :
  (forall m h, In (Hit m h) segs ->
               (List.length new <= List.length m)%nat) ->
  (List.length (flat_map (fun seg => match seg with
                                     | Keep c => [c]
                                     | Hit _ _ => new
                                     end) segs)
   <= List.length (source segs))%nat.
Proof.
  induction segs as [|[c|m h] segs IH]; intros Hhit.
  - apply le_n.
  - simpl. apply le_n_S. apply IH.
    intros m h H. apply (Hhit m h). right. exact H.
  - change (source (Hit m h :: segs)) with (m ++ source segs).
    change (flat_map ?f (Hit m h :: segs)) with (new ++ flat_map f segs).
    rewrite !length_app.
    pose proof (Hhit m h (or_introl eq_refl)).
    assert (forall m h, In (Hit m h) segs ->
                        (List.length new <= List.length m)%nat) as Hrest
        by (intros m' h' H'; apply (Hhit m' h'); right; exact H').
    specialize (IH Hrest). lia.
Qed.

Lemma substitute_shorter
    (fn : jsstring -> option jsstring -> result jsstring) (k : nat) :
  (forall m h u, fn m h = Ok u -> (List.length u <= k)%nat) ->
  forall segs t,
    (forall m h, In (Hit m h) segs -> (k <= List.length m)%nat) ->
    substitute fn segs = Ok t ->
    (List.length t <= List.length (source segs))%nat.
Proof.
  intros Hfn. induction segs as [|[c|m h] segs IH]; intros t Hhit H.
  - simpl in H. injection H as <-. apply le_n.
  - simpl in H.
    destruct (substitute fn segs) as [t'|]; simpl in H; [|discriminate].
    injection H as <-. simpl. apply le_n_S. apply IH; [|reflexivity].
    intros m h Hin. apply (Hhit m h). right. exact Hin.
  - simpl in H. destruct (fn m h) as [u|] eqn:Hu; simpl in H; [|discriminate].
    destruct (substitute fn segs) as [t'|]; simpl in H; [|discriminate].
    injection H as <-.
    change (source (Hit m h :: segs)) with (m ++ source segs).
    rewrite !length_app.
    pose proof (Hfn m h u Hu). pose proof (Hhit m h (or_introl eq_refl)).
    assert (List.length t' <= List.length (source segs))%nat
      by (apply IH; [|reflexivity];
          intros m' h' H'; apply (Hhit m' h'); right; exact H').
    lia.
Qed.

Lemma replace_shorter (fl : flags) (r : regex) (new s : jsstring) :
  (List.length new <= min_len r)%nat ->
  (List.length (replace fl r new s) <= List.length s)%nat.
Proof.
  intros Hnew. unfold replace.
  eapply Nat.le_trans.
  - apply flat_map_shorter. intros m h H.
    pose proof (scan_hit_length _ _ _ _ _ H). lia.
  - rewrite scan_source. apply le_n.
Qed.

Lemma replace_fn_shorter (fl : flags) (r : regex)
    (fn : jsstring -> option jsstring -> result jsstring)
    (s t : jsstring) :
  (forall m h u, fn m h = Ok u -> (List.length u <= min_len r)%nat) ->
  replace_fn fl r fn s = Ok t ->
  (List.length t <= List.length s)%nat.
Proof.
  intros Hfn H. unfold replace_fn in H.
  eapply Nat.le_trans.
  - refine (@substitute_shorter fn _ Hfn _ t _ H). intros m h Hin.
    exact (scan_hit_length _ _ _ _ _ Hin).
  - rewrite scan_source. apply le_n.
Qed.

Lemma decode_short (radix : N) (m : jsstring) (h : option jsstring)
    (u : jsstring) :
  decode radix m h = Ok u -> (List.length u <= 2)%nat.
Proof.
  unfold decode, fromCodePoint. destruct h as [digits|]; [|discriminate].
  generalize (parseInt radix digits). intros cp.
  destruct (cp <=? 65535); [intros [= <-]; apply le_S, le_n|].
  destruct (cp <=? 1114111); [|discriminate].
  generalize (55296 + (cp - 65536) / 1024) (56320 + (cp - 65536) mod 1024).
  intros a b [= <-]. apply le_n.
Qed.

Lemma trim_shorter (s : jsstring) :
  (List.length (Str.trim s) <= List.length s)%nat.
Proof.
  unfold Str.trim.
  destruct (trimEnd_prefix (Str.trimStart s)) as [b Hb].
  destruct (trimStart_suffix s) as [a Ha].
  apply (f_equal (@List.length N)) in Hb, Ha.
  rewrite length_app in Hb, Ha. lia.
Qed.

(** The description is never longer than the documentation and the three
    dots: no step of the cleaner makes the text longer. *)
Theorem cleanMarkdown_never_longer (s out : jsstring) :
  cleanMarkdown (Some s) = Ok out ->
  (List.length out <= Nat.min (List.length s) 1021 + 3)%nat.
Proof.
  unfold cleanMarkdown, cleaned. cbv zeta.
  set (s7 := drop_table_rows _).
  assert (List.length s7 <= List.length s)%nat as H7.
  { unfold s7, drop_table_rows, drop_images, drop_headings,
      drop_setext_underlines, drop_atx_headings, strip_tags, drop_void_tags,
      drop_html_blocks, strip_frontmatter.
    repeat (eapply Nat.le_trans;
            [apply replace_shorter; vm_compute; lia|]). apply le_n. }
  clearbody s7.
  destruct (decode_entities s7) as [s8|e] eqn:Hd; cbn [rbind];
    [|discriminate].
  assert (List.length s8 <= List.length s7)%nat as H8.
  { unfold decode_entities in Hd. cbv zeta in Hd.
    destruct (replace_fn g hex_entity (decode 16) _) as [u|e] eqn:Hh;
      simpl in Hd; [|discriminate].
    apply replace_fn_shorter in Hd;
      [|intros m h v Hv; apply decode_short in Hv;
       vm_compute min_len; lia].
    apply replace_fn_shorter in Hh;
      [|intros m h v Hv; apply decode_short in Hv;
       vm_compute min_len; lia].
    eapply Nat.le_trans; [exact Hd|]. eapply Nat.le_trans; [exact Hh|].
    repeat (eapply Nat.le_trans;
            [apply replace_shorter; vm_compute; lia|]). apply le_n. }
  assert (List.length (collapse_whitespace s8) <= List.length s8)%nat as H9.
  { unfold collapse_whitespace. cbv zeta.
    eapply Nat.le_trans; [apply trim_shorter|].
    repeat (eapply Nat.le_trans;
            [apply replace_shorter; vm_compute; lia|]). apply le_n. }
  remember (Str.slice_to 1021 (collapse_whitespace s8)) as y eqn:Hy.
  intros H. injection H as <-. subst y. unfold Str.slice_to.
  rewrite length_app, length_firstn.
  change (List.length (js "...")) with 3%nat. lia.
Qed.

(** *** Table rows *)

Lemma table_row_anchored : anchored gm table_row.
Proof.
  intros p s st' H. apply exec_sound in H. destruct H as [st1 [HM Heq]].
  inversion Heq; subst st1; clear Heq. simpl in HM.
  destruct HM as [m0 [[-> Hbol] [m1 [[cs1 [Hr1 _]]
                 [m2 [[m2' [[c1 [Hr2 _]] ->]]
                 [m3 [[cs3 [Hr3 _]]
                 [m4 [[m4' [[c2 [Hr4 _]] ->]]
                 [m5 [[cs5 [Hr5 _]]
                 [m6 [[-> Heol] ->]]]]]]]]]]]]]].
  simpl in Hr1. split; [apply (at_bol_gm (Build_state p s None)); exact Hbol|].
  split; [apply at_eol_gm; exact Heol|].
  exists (cs1 ++ c1 :: cs3 ++ c2 :: cs5). split.
  - destruct cs1; discriminate.
  - rewrite Hr1, Hr2, Hr3, Hr4, Hr5, <- !app_assoc. simpl.
    rewrite <- !app_assoc. reflexivity.
Qed.

Lemma Matches_chr (c : N) (p : option N) (s : jsstring)
    (w : option jsstring) :
  Matches gm (lit (String (ascii_of_N c) EmptyString))
    {| prev := p; rest := N_of_ascii (ascii_of_N c) :: s; cap := w |}
    {| prev := Some (N_of_ascii (ascii_of_N c)); rest := s; cap := w |}.
Proof.
  eapply Matches_seq; [|reflexivity].
  exists (N_of_ascii (ascii_of_N c)). simpl. rewrite N.eqb_refl. auto.
Qed.

(** The pattern of table rows matches on every table row. *)
Lemma table_row_matches (p : option N) (l b : jsstring) :
  table_line l -> noterm l -> bol p -> eolpos b ->
  match_at gm table_row p (l ++ b) <> None.
Proof.
  intros [indent [body [trail [Hl [Hind Htrail]]]]] Hnt Hp Hb.
  subst l. apply noterm_app in Hnt. destruct Hnt as [_ Hnt].
  change (code "|" :: body ++ code "|" :: trail)
    with ([code "|"] ++ body ++ code "|" :: trail) in Hnt.
  apply noterm_app in Hnt. destruct Hnt as [_ Hnt].
  apply noterm_app in Hnt. destruct Hnt as [Hbody _].
  rewrite <- app_assoc. cbn [app]. rewrite <- app_assoc. cbn [app].
  unfold match_at. eapply exec_complete; [|discriminate].
  unfold table_row, star, seq. cbn [fold_right].
  eapply Matches_seq; [apply Matches_bol; exact Hp|].
  eapply Matches_seq.
  { apply Matches_quant; [exact Hind | lia | exact I]. }
  eapply Matches_seq; [exact (Matches_chr 124 _ _ _)|].
  eapply Matches_seq.
  { apply Matches_quant; [exact Hbody | lia | exact I]. }
  eapply Matches_seq; [exact (Matches_chr 124 _ _ _)|].
  eapply Matches_seq.
  { apply Matches_quant; [exact Htrail | lia | exact I]. }
  apply Matches_eol. exact Hb.
Qed.

(** After step 9 every line of the text is a line of the text before it or
    is blank, and none of them is a table row (a line whose first and last
    code units other than white space are two distinct [|]): these lines of
    the input are all blanked. *)
Theorem drop_table_rows_lines (s l : jsstring) :
  In l (lines (drop_table_rows s)) ->
  (l = [] \/ In l (lines s)) /\ ~ table_line l.
Proof.
  intros H. unfold drop_table_rows in H.
  apply (@replace_lines gm _ eq_refl table_row_anchored) in H.
  destruct H as [-> | [Hin [p0 [b [Hp0 [Hb Hnone]]]]]].
  - split; [left; reflexivity|].
    intros [indent [body [trail [Hl _]]]].
    apply (f_equal (@List.length N)) in Hl.
    rewrite length_app in Hl. simpl in Hl. lia.
  - split; [right; exact Hin|]. intros Hl.
    exact (@table_row_matches p0 l b Hl (@lines_are_noterm s l Hin)
             Hp0 Hb Hnone).
Qed.

(** *** Blank lines *)

(** The pattern of blank lines is greedy: it takes all the line feeds at
    a position, when there are three or more. *)
Lemma blank_lines_quant :
  forall s count p,
    quant (atom_ok g (Char 10)) 3 None true count p s None Some =
    if (3 <=? count + lead s)%nat
    then Some {| prev := walk p (firstn (lead s) s);
                 rest := skipn (lead s) s; cap := None |}
    else None.
Proof.
  induction s as [|c s IH]; intros count p.
  - simpl. rewrite Nat.add_0_r. reflexivity.
  - cbn [quant below andb lead].
    change (atom_ok g (Char 10) c) with (c =? 10).
    destruct (c =? 10) eqn:Hc.
    + rewrite IH. rewrite Nat.add_succ_r. cbn [Nat.add].
      destruct (3 <=? S (count + lead s))%nat eqn:H3; [reflexivity|].
      replace (3 <=? count)%nat with false; [reflexivity|].
      symmetry. apply Nat.leb_gt. apply Nat.leb_gt in H3. lia.
    + rewrite Nat.add_0_r. reflexivity.
Qed.

Lemma blank_lines_match (p : option N) (s : jsstring) :
  match_at g blank_lines p s =
  if (3 <=? lead s)%nat
  then Some {| prev := walk p (firstn (lead s) s);
               rest := skipn (lead s) s; cap := None |}
  else None.
Proof. exact (blank_lines_quant s 0 p). Qed.

Lemma lead_length (s : jsstring) : (lead s <= List.length s)%nat.
Proof.
  induction s as [|c s IH]; simpl; [lia|]. destruct (c =? 10); lia.
Qed.

Lemma lead_skipn (s : jsstring) : lead (skipn (lead s) s) = 0%nat.
Proof.
  induction s as [|c s IH]; [reflexivity|]. simpl.
  destruct (c =? 10) eqn:Hc; [exact IH|]. simpl. rewrite Hc. reflexivity.
Qed.

Lemma blank_lines_other (c : N) (t : jsstring) :
  (c =? 10) = false -> has_blank_lines (c :: t) -> has_blank_lines t.
Proof.
  intros Hc [a [b H]]. destruct a as [|x a]; simpl in H.
  - injection H as -> _. discriminate.
  - injection H as _ ->. exists a, b. reflexivity.
Qed.

Lemma blank_lines_feed (c : N) (t : jsstring) :
  has_blank_lines (c :: t) -> (2 <= lead t)%nat \/ has_blank_lines t.
Proof.
  intros [a [b H]]. destruct a as [|x a]; simpl in H.
  - injection H as _ ->. left. simpl. lia.
  - injection H as _ ->. right. exists a, b. reflexivity.
Qed.

(** After the replacement at most two line feeds stand together. *)
Lemma collapse_runs (n : nat) :
  forall s p,
    (List.length s <= n)%nat ->
    let out := flat_map (fun seg => match seg with
                                    | Keep c => [c]
                                    | Hit _ _ => [10; 10]
                                    end)
                        (scan g blank_lines true 0 p s) in
    (lead out <= Nat.min (lead s) 2)%nat /\ ~ has_blank_lines out.
Proof.
  induction n as [|n IH]; intros s p Hn; cbv zeta.
  - destruct s; [|simpl in Hn; lia]. simpl. split; [lia|].
    intros [a [b H]]. destruct a; discriminate.
  - destruct s as [|c s]; [apply IH; simpl; lia|].
    cbn [scan]. rewrite blank_lines_match.
    destruct (3 <=? lead (c :: s))%nat eqn:H3.
    + apply Nat.leb_le in H3.
      set (st' := {| prev := walk p (firstn (lead (c :: s)) (c :: s));
                     rest := skipn (lead (c :: s)) (c :: s);
                     cap := None |}).
      assert (c :: s = firstn (lead (c :: s)) (c :: s) ++ rest st') as Hs
          by (symmetry; apply firstn_skipn).
      assert (consumed {| prev := p; rest := c :: s; cap := None |} st'
              = firstn (lead (c :: s)) (c :: s)) as Hm.
      { rewrite Hs at 1. apply consumed_app. }
      rewrite Hm. clear Hm.
      pose proof (lead_length (c :: s)) as Hlen.
      pose proof (lead_skipn (c :: s)) as Hrest.
      destruct (lead (c :: s)) as [|j] eqn:Hl; [lia|].
      rewrite length_firstn, Nat.min_l by exact Hlen.
      clear Hs.
      assert (List.length (firstn j s) = j) as Hj
          by (rewrite length_firstn; simpl in Hlen; lia).
      pose proof (@scan_skip g blank_lines true (skipn j s) (firstn j s)
                    (Some c)) as Hk.
      rewrite Hj, firstn_skipn in Hk.
      change (global g) with true. rewrite Hk. clear Hk.
      cbn [flat_map app].
      destruct (IH (skipn j s) (walk (Some c) (firstn j s)))
        as [Hlead Hfree].
      { rewrite length_skipn. simpl in Hn. lia. }
      change (skipn (S j) (c :: s)) with (skipn j s) in Hrest.
      rewrite Hrest in Hlead. split.
      * simpl. lia.
      * intros H. apply blank_lines_feed in H. destruct H as [H | H].
        -- simpl in H. lia.
        -- apply blank_lines_feed in H. destruct H as [H | H]; [lia|].
           exact (Hfree H).
    + apply Nat.leb_gt in H3. cbn [flat_map app].
      destruct (IH s (Some c)) as [Hlead Hfree]; [simpl in Hn; lia|].
      cbn [lead] in *. destruct (c =? 10) eqn:Hc.
      * split; [lia|]. intros H.
        apply blank_lines_feed in H. destruct H as [H | H]; [lia|].
        exact (Hfree H).
      * split; [lia|]. intros H. apply blank_lines_other in H; auto.
Qed.

Lemma blank_lines_inside (a t b : jsstring) :
  has_blank_lines t -> has_blank_lines (a ++ t ++ b).
Proof.
  intros [x [y ->]]. exists (a ++ x), (y ++ b).
  rewrite <- !app_assoc. reflexivity.
Qed.

Lemma blank_lines_dots (t : jsstring) :
  has_blank_lines (t ++ js "...") -> has_blank_lines t.
Proof.
  intros [a [b H]]. apply (f_equal (@rev N)) in H.
  rewrite !rev_app_distr in H. simpl in H. rewrite <- !app_assoc in H.
  destruct (rev b) as [|x [|y [|z b']]] eqn:Hb; simpl in H;
    try (injection H; intros; subst; discriminate).
  injection H as _ _ _ H. apply (f_equal (@rev N)) in H.
  rewrite rev_involutive in H. rewrite H.
  change (10 :: 10 :: 10 :: rev a) with ([10; 10; 10] ++ rev a).
  rewrite !rev_app_distr, rev_involutive.
  exists a, (rev b'). rewrite <- !app_assoc. reflexivity.
Qed.

(** The description never has three line feeds in a row: step 11 leaves at
    most two together, and the trimming and the cut add none. *)
Theorem cleanMarkdown_no_blank_lines (md : option jsstring)
    (out : jsstring) :
  cleanMarkdown md = Ok out -> ~ has_blank_lines out.
Proof.
  unfold cleanMarkdown, cleaned. cbv zeta.
  destruct (decode_entities _) as [u|e]; cbn [rbind]; [|discriminate].
  unfold collapse_whitespace. cbv zeta.
  set (x := replace g blank_lines [10; 10] _).
  remember (Str.slice_to 1021 (Str.trim x)) as y eqn:Hy.
  intros H. injection H as <-. intros Hout.
  apply blank_lines_dots in Hout. subst y.
  assert (has_blank_lines (Str.trim x)) as Htrim.
  { rewrite <- (firstn_skipn 1021 (Str.trim x)).
    apply (@blank_lines_inside [] _ _ Hout). }
  assert (has_blank_lines x) as Hx.
  { unfold Str.trim in Htrim.
    destruct (trimStart_suffix x) as [a Ha].
    destruct (trimEnd_prefix (Str.trimStart x)) as [b Hb].
    rewrite Ha, Hb. apply blank_lines_inside. exact Htrim. }
  unfold x, replace in Hx.
  exact (proj2 (@collapse_runs _ _ None (le_n _)) Hx).
Qed.

End CleanerFacts.

(** ** The unit of a magnitude *)

Module MagnitudeFacts.
Import FloatFacts.
#[local] Unset Implicit Arguments.
Local Open Scope Z_scope.
Local Open Scope Q_scope.

Lemma thousand_pos (k : nat) : (0 < 1000 ^ Z.of_nat k)%Z.
Proof. apply Z.pow_pos_nonneg; lia. Qed.

Lemma thousand_succ (k : nat) :
  (1000 ^ Z.of_nat (S k) = 1000 * 1000 ^ Z.of_nat k)%Z.
Proof. rewrite Nat2Z.inj_succ, Z.pow_succ_r by lia. reflexivity. Qed.

Lemma magnitude_le (j k : nat) :
  (j <= k)%nat -> magnitude j <= magnitude k.
Proof.
  intros H. unfold magnitude. rewrite <- Zle_Qle.
  apply Z.pow_le_mono_r; lia.
Qed.

Lemma magnitude_half (k : nat) (T : Z) :
  inject_Z (2 * T * 1000 ^ Z.of_nat k) / 2 == inject_Z T * magnitude k.
Proof.
  unfold magnitude. rewrite !inject_Z_mult. change (inject_Z 2) with 2.
  field.
Qed.

(** [k] divisions of a binary64 value of magnitude [k] or more, below 2^53:
    each quotient is rounded, and the last one is on the same side of every
    integer and of every half of an integer as the exact quotient. *)
Lemma divs_threshold (k : nat) :
  forall x,
    is_binary64 x -> magnitude k <= x -> x < inject_Z (2 ^ 53) ->
    exists v,
      divs k (Finite x) = Finite v /\ is_binary64 v /\
      v < inject_Z (2 ^ 53) /\
      forall T2 : Z,
        (x < inject_Z (T2 * 1000 ^ Z.of_nat k) / 2 -> v < inject_Z T2 / 2) /\
        (inject_Z (T2 * 1000 ^ Z.of_nat k) / 2 <= x -> inject_Z T2 / 2 <= v).
Proof.
  induction k as [|k IH]; intros x Hx Hlo Hhi.
  - exists x. split; [reflexivity|]. split; [exact Hx|].
    split; [exact Hhi|]. intros T2.
    change (1000 ^ Z.of_nat 0)%Z with 1%Z. rewrite Z.mul_1_r. tauto.
  - pose proof (thousand_pos k) as Hp.
    assert (magnitude (S k) == 1000 * magnitude k) as Em.
    { unfold magnitude. rewrite thousand_succ, inject_Z_mult. reflexivity. }
    assert (1 <= magnitude k) as H1.
    { unfold magnitude. change 1 with (inject_Z 1). rewrite <- Zle_Qle. lia. }
    destruct (div_1000_step x Hx) as [v1 [Hd [Hv1 [Hv1hi Hthr]]]];
      [lra | exact Hhi|].
    assert (magnitude k <= v1) as Hv1lo.
    { destruct (Hthr (2 * 1000 ^ Z.of_nat k)%Z) as [_ H].
      setoid_replace (magnitude k)
        with (inject_Z (2 * 1000 ^ Z.of_nat k) / 2)
        by (unfold magnitude; rewrite inject_Z_mult;
            change (inject_Z 2) with 2; field).
      apply H. rewrite Z.mul_assoc. change (500 * 2)%Z with 1000%Z.
      rewrite <- thousand_succ. exact Hlo. }
    destruct (IH v1 Hv1 Hv1lo Hv1hi) as [v [Hv [Hb [Hvhi Hthr']]]].
    exists v. split; [cbn [divs]; rewrite Hd; exact Hv|].
    split; [exact Hb|]. split; [exact Hvhi|].
    intros T2. destruct (Hthr' T2) as [Ha Hb'].
    destruct (Hthr (T2 * 1000 ^ Z.of_nat k)%Z) as [Hc Hd'].
    assert (inject_Z (T2 * 1000 ^ Z.of_nat (S k)) / 2
            == inject_Z (500 * (T2 * 1000 ^ Z.of_nat k))) as E.
    { rewrite thousand_succ. rewrite !inject_Z_mult.
      change (inject_Z 500) with 500. change (inject_Z 1000) with 1000.
      field. }
    rewrite E. split; intros H; auto.
Qed.

(** The loop makes [k] divisions when the first [k] values are one thousand
    or more and the loop then stops. *)
Lemma reduce_divs (k : nat) :
  forall x i,
    (forall j, (j < k)%nat -> Num.ge_1000 (divs j x) = true) ->
    (i + Z.of_nat k <= 3)%Z ->
    (i + Z.of_nat k = 3)%Z \/ Num.ge_1000 (divs k x) = false ->
    reduce x i = (divs k x, (i + Z.of_nat k)%Z).
Proof.
  induction k as [|k IH]; intros x i Hgo Hi Hstop.
  - cbn [divs]. replace (i + Z.of_nat 0)%Z with i in * by lia.
    apply reduce_stop. units_length.
    destruct Hstop as [-> | Hs]; [apply andb_false_r|].
    cbn [divs] in Hs. rewrite Hs. reflexivity.
  - rewrite reduce_go; [|exact (Hgo 0%nat ltac:(lia)) | lia].
    rewrite (IH (Num.div_1000 x) (i + 1)%Z).
    + cbn [divs]. f_equal. lia.
    + intros j Hj. exact (Hgo (S j) ltac:(lia)).
    + lia.
    + destruct Hstop as [H | H]; [left; lia | right; exact H].
Qed.

(** The loop on a binary64 value of magnitude [k]: [k] divisions, the unit
    of index [k - 1], and a value that is on the same side of every integer
    and of every half of an integer as the exact quotient. *)
Lemma reduce_magnitude (q : Q) (k : nat) :
  is_binary64 q -> (1 <= k <= 4)%nat ->
  magnitude k <= q -> q < magnitude (S k) ->
  exists v,
    reduce (Finite q) (-1) = (Finite v, (Z.of_nat k - 1)%Z) /\
    forall T : Z,
      (q < inject_Z T / 2 * magnitude k -> v < inject_Z T / 2) /\
      (inject_Z T / 2 * magnitude k <= q -> inject_Z T / 2 <= v).
Proof.
  intros Hq Hk Hlo Hhi.
  assert (q < inject_Z (2 ^ 53)) as H53.
  { eapply Qlt_le_trans; [exact Hhi|]. unfold magnitude.
    rewrite <- Zle_Qle. apply (Z.le_trans _ (1000 ^ 5)%Z).
    - apply Z.pow_le_mono_r; lia.
    - vm_compute. discriminate. }
  assert (forall j, (j <= k)%nat ->
            exists v,
              divs j (Finite q) = Finite v /\
              (magnitude (S j) <= q -> 1000 <= v) /\
              (q < magnitude (S j) -> v < 1000) /\
              forall T : Z,
                (q < inject_Z T / 2 * magnitude j -> v < inject_Z T / 2) /\
                (inject_Z T / 2 * magnitude j <= q -> inject_Z T / 2 <= v))
    as Hstage.
  { intros j Hj.
    destruct (divs_threshold j q Hq) as [v [Hv [_ [_ Hthr]]]];
      [eapply Qle_trans; [apply magnitude_le; exact Hj | exact Hlo]
      |exact H53|].
    assert (forall T : Z,
               inject_Z (T * 1000 ^ Z.of_nat j) / 2
               == inject_Z T / 2 * magnitude j) as E.
    { intros T. unfold magnitude. rewrite inject_Z_mult. field. }
    assert (magnitude (S j) == inject_Z 2000 / 2 * magnitude j) as Em.
    { unfold magnitude. rewrite thousand_succ, inject_Z_mult.
      change (inject_Z 2000) with 2000. change (inject_Z 1000) with 1000.
      field. }
    exists v. split; [exact Hv|]. split; [|split].
    - intros H. rewrite Em, <- E in H. apply (Hthr 2000%Z) in H.
      setoid_replace (inject_Z 2000 / 2) with 1000 in H by reflexivity.
      exact H.
    - intros H. rewrite Em, <- E in H. apply (Hthr 2000%Z) in H.
      setoid_replace (inject_Z 2000 / 2) with 1000 in H by reflexivity.
      exact H.
    - intros T. rewrite <- E. exact (Hthr T). }
  destruct (Hstage k (le_n _)) as [v [Hv [_ [Hstop Hthr]]]].
  exists v. split; [|exact Hthr].
  rewrite (reduce_divs k (Finite q) (-1)%Z).
  - rewrite Hv. f_equal. lia.
  - intros j Hj. destruct (Hstage j ltac:(lia)) as [vj [Hvj [Hgo _]]].
    rewrite Hvj. apply Qle_bool_iff. apply Hgo.
    eapply Qle_trans; [apply (magnitude_le (S j) k); lia | exact Hlo].
  - lia.
  - destruct (Nat.eq_dec k 4) as [-> | Hne]; [left; reflexivity|].
    right. rewrite Hv. cbn [Num.ge_1000].
    destruct (Qle_bool 1000 v) eqn:E; [|reflexivity].
    apply Qle_bool_iff in E. specialize (Hstop Hhi). lra.
Qed.

Lemma Qfloor_unique (x : Q) (z : Z) :
  inject_Z z <= x -> x < inject_Z z + 1 -> Qfloor x = z.
Proof.
  intros H1 H2. pose proof (Qfloor_le x) as H3.
  pose proof (Qlt_floor x) as H4. rewrite inject_Z_plus in H4.
  change (inject_Z 1) with 1 in H4.
  assert (Qfloor x < z + 1)%Z as Ha.
  { rewrite Zlt_Qlt, inject_Z_plus. change (inject_Z 1) with 1. lra. }
  assert (z < Qfloor x + 1)%Z as Hb.
  { rewrite Zlt_Qlt, inject_Z_plus. change (inject_Z 1) with 1. lra. }
  lia.
Qed.

Lemma Qfloor_bounds (x : Q) (lo hi : Z) :
  inject_Z lo <= x -> x < inject_Z hi -> (lo <= Qfloor x < hi)%Z.
Proof.
  intros Hlo Hhi. split.
  - rewrite <- (Qfloor_Z lo). apply Qfloor_resp_le. exact Hlo.
  - rewrite Zlt_Qlt. eapply Qle_lt_trans; [apply Qfloor_le | exact Hhi].
Qed.

(** What the loop leaves has the floor and the rounding of the exact
    quotient. *)
Lemma reduce_rounded (q : Q) (k : nat) :
  is_binary64 q -> (1 <= k <= 4)%nat ->
  magnitude k <= q -> q < magnitude (S k) ->
  exists v,
    reduce (Finite q) (-1) = (Finite v, (Z.of_nat k - 1)%Z) /\
    Qfloor v = Qfloor (q / magnitude k) /\
    Qfloor (v + (1 # 2)) = Qfloor (q / magnitude k + (1 # 2)).
Proof.
  intros Hq Hk Hlo Hhi.
  destruct (reduce_magnitude q k Hq Hk Hlo Hhi) as [v [Hred Hthr]].
  exists v. split; [exact Hred|].
  assert (0 < magnitude k) as Hm.
  { unfold magnitude. change 0 with (inject_Z 0). rewrite <- Zlt_Qlt.
    apply thousand_pos. }
  set (r := q / magnitude k).
  assert (q == r * magnitude k) as Er by (unfold r; field; lra).
  assert (forall T : Z,
             (r < inject_Z T / 2 -> v < inject_Z T / 2) /\
             (inject_Z T / 2 <= r -> inject_Z T / 2 <= v)) as Hside.
  { intros T. destruct (Hthr T) as [Ha Hb]. split; intros H.
    - apply Ha. rewrite Er. apply Qmult_lt_compat_r; assumption.
    - apply Hb. rewrite Er. apply Qmult_le_compat_r; [exact H | lra]. }
  split.
  - apply Qfloor_unique.
    + destruct (Hside (2 * Qfloor r)%Z) as [_ H].
      rewrite inject_Z_mult in H. change (inject_Z 2) with 2 in H.
      pose proof (Qfloor_le r).
      setoid_replace (2 * inject_Z (Qfloor r) / 2)
        with (inject_Z (Qfloor r)) in H by field.
      auto.
    + destruct (Hside (2 * (Qfloor r + 1))%Z) as [H _].
      rewrite inject_Z_mult, inject_Z_plus in H.
      change (inject_Z 2) with 2 in H. change (inject_Z 1) with 1 in H.
      pose proof (Qlt_floor r) as Hf. rewrite inject_Z_plus in Hf.
      change (inject_Z 1) with 1 in Hf.
      setoid_replace (2 * (inject_Z (Qfloor r) + 1) / 2)
        with (inject_Z (Qfloor r) + 1) in H by field.
      auto.
  - set (n := Qfloor (r + (1 # 2))).
    pose proof (Qfloor_le (r + (1 # 2))) as Hn1.
    pose proof (Qlt_floor (r + (1 # 2))) as Hn2.
    fold n in Hn1, Hn2. rewrite inject_Z_plus in Hn2.
    change (inject_Z 1) with 1 in Hn2.
    apply Qfloor_unique.
    + destruct (Hside (2 * n - 1)%Z) as [_ H].
      assert (inject_Z (2 * n - 1) / 2 == inject_Z n - (1 # 2)) as E.
      { unfold Z.sub. rewrite inject_Z_plus, inject_Z_mult.
        change (inject_Z 2) with 2. change (inject_Z (- (1))) with (- (1)).
        field. }
      rewrite E in H. assert (inject_Z n - (1 # 2) <= v) by (apply H; lra).
      lra.
    + destruct (Hside (2 * n + 1)%Z) as [H _].
      assert (inject_Z (2 * n + 1) / 2 == inject_Z n + (1 # 2)) as E.
      { rewrite inject_Z_plus, inject_Z_mult.
        change (inject_Z 2) with 2. change (inject_Z 1) with 1. field. }
      rewrite E in H. assert (v < inject_Z n + (1 # 2)) by (apply H; lra).
      lra.
Qed.

End MagnitudeFacts.

Section MagnitudeProperties.
Variable unsafe_text : Z -> jsstring.

(** A binary64 value from one thousand to below one quadrillion is shown
    with the unit of its magnitude: the value divided by the thousand to the
    power [k] and rounded as the mode says, then the unit of index [k - 1];
    the roundings of the [k] divisions of the loop do not change the number
    shown.  It is from 1 to 999 in the floor mode; the mode ['round'] can
    show 1000. *)
Theorem abbreviateNumber_magnitude (q : Q) (k : nat) (round : jsstring) :
  is_binary64 q ->
  (1 <= k <= 4)%nat -> (magnitude k <= q)%Q -> (q < magnitude (S k))%Q ->
  let z := if Str.eqb round (js "round")
           then Qfloor (q / magnitude k + (1 # 2))
           else Qfloor (q / magnitude k) in
  abbreviateNumber unsafe_text (Finite q) round
  = Num.decimal z ++ nth (k - 1) units [] /\
  (1 <= z <= 1000)%Z /\
  (Str.eqb round (js "round") = false -> (z <= 999)%Z).
Proof.
  intros Hq Hk Hlo Hhi z.
  destruct (MagnitudeFacts.reduce_rounded q k Hq Hk Hlo Hhi)
    as [v [Hred [Hfloor Hround]]].
  assert (0 < magnitude k)%Q as Hm.
  { unfold magnitude. change 0%Q with (inject_Z 0). rewrite <- Zlt_Qlt.
    apply MagnitudeFacts.thousand_pos. }
  assert (magnitude (S k) == 1000 * magnitude k)%Q as Em.
  { unfold magnitude. rewrite MagnitudeFacts.thousand_succ, inject_Z_mult.
    reflexivity. }
  assert (inject_Z 1 <= q / magnitude k)%Q as H1.
  { apply Qle_shift_div_l; [exact Hm|]. change (inject_Z 1) with 1%Q. lra. }
  assert (q / magnitude k < inject_Z 1000)%Q as H2.
  { apply Qlt_shift_div_r; [exact Hm|]. change (inject_Z 1000) with 1000%Q.
    lra. }
  assert ((1 <= z <= 1000)%Z /\
          (Str.eqb round (js "round") = false -> (z <= 999)%Z)) as Hz.
  { unfold z. destruct (Str.eqb round (js "round")).
    - split; [|discriminate].
      assert (1 <= Qfloor (q / magnitude k + (1 # 2)) < 1001)%Z; [|lia].
      apply MagnitudeFacts.Qfloor_bounds.
      + change (inject_Z 1) with 1%Q in *. lra.
      + change (inject_Z 1000) with 1000%Q in H2.
        change (inject_Z 1001) with 1001%Q. lra.
    - assert (1 <= Qfloor (q / magnitude k) < 1000)%Z; [|lia].
      apply MagnitudeFacts.Qfloor_bounds; assumption. }
  split; [|exact Hz]. destruct Hz as [Hz _].
  rewrite abbreviateNumber_reduce, Hred. cbn [fst snd].
  replace (0 <=? Z.of_nat k - 1)%Z with true
    by (symmetry; apply Z.leb_le; lia).
  assert (rounded round (Finite v) = IInt z) as ->.
  { unfold rounded, z, Num.round, Num.floor.
    destruct (Str.eqb round (js "round")); congruence. }
  f_equal.
  - unfold Num.toString.
    replace (Z.abs z <? 2 ^ 53)%Z with true; [reflexivity|].
    symmetry. apply Z.ltb_lt.
    change (2 ^ 53)%Z with 9007199254740992%Z. lia.
  - assert (k = 1 \/ k = 2 \/ k = 3 \/ k = 4)%nat as Hcases by lia.
    destruct Hcases as [-> | [-> | [-> | ->]]]; reflexivity.
Qed.

End MagnitudeProperties.

(** ** Instances *)

Lemma reads_found :
  reads (Scenario.world_with (js "Hello") 500) Scenario.payload []
        Scenario.metadata (Scenario.found (js "Hello")).
Proof.
  constructor.
  - vm_compute. reflexivity.
  - eexists. split; vm_compute; reflexivity.
  - vm_compute. reflexivity.
  - vm_compute. discriminate.
  - vm_compute. discriminate.
Defined.

Lemma sendToDiscord_requests_witness :
  exists ext,
    snd (sendToDiscord Scenario.no_unsafe Scenario.no_coercion
           Scenario.offline Scenario.payload Scenario.webhook [])
    = [] ++ ext /\
    (ext = [] <-> isRelevant (Repo.name (repo Scenario.payload)) = false) /\
    (ext = [] \/
     ext = [api_get Scenario.payload] \/
     ext = [api_get Scenario.payload; readme_get Scenario.payload] \/
     exists doc,
       ext = [ api_get Scenario.payload; readme_get Scenario.payload;
               Post Scenario.webhook (js "application/json") doc ]) /\
    (fst (sendToDiscord Scenario.no_unsafe Scenario.no_coercion
            Scenario.offline Scenario.payload Scenario.webhook []) = Ok tt ->
     ext = [] \/
     exists doc,
       ext = [ api_get Scenario.payload; readme_get Scenario.payload;
               Post Scenario.webhook (js "application/json") doc ]).
Proof.
  exact (sendToDiscord_requests Scenario.no_unsafe Scenario.no_coercion
           Scenario.offline Scenario.payload Scenario.webhook []).
Defined.

Lemma metadata_failure_is_fatal_witness :
  sendToDiscord Scenario.no_unsafe Scenario.no_coercion Scenario.offline
    Scenario.payload Scenario.webhook []
  = (Throw NetworkError, [] ++ [api_get Scenario.payload]).
Proof.
  apply (@metadata_failure_is_fatal Scenario.no_unsafe
           Scenario.no_coercion Scenario.offline Scenario.payload
           Scenario.webhook []).
  - vm_compute. reflexivity.
  - vm_compute. reflexivity.
Defined.

Lemma sendToDiscord_reads_four_fields_witness :
  sendToDiscord Scenario.no_unsafe Scenario.no_coercion Scenario.world
    Scenario.payload Scenario.webhook []
  = sendToDiscord Scenario.no_unsafe Scenario.no_coercion Scenario.world
      Scenario.other_payload Scenario.webhook [].
Proof.
  apply (@sendToDiscord_reads_four_fields Scenario.no_unsafe
           Scenario.no_coercion Scenario.world Scenario.payload
           Scenario.other_payload Scenario.webhook []);
    vm_compute; reflexivity.
Defined.

Lemma posted_document_witness :
  exists e,
    sendToDiscord Scenario.no_unsafe Scenario.no_coercion
      (Scenario.world_with (js "Hello") 500) Scenario.payload
      Scenario.webhook []
    = (Throw (DeliveryError 500 (js "status")),
       [ Get Scenario.api_url;
         Get (readme_url (js "acme/small-model"));
         Post Scenario.webhook (js "application/json")
              {| embeds := [e] |} ]) /\
    title e = js "acme/small-model" /\
    description e = js "Hello...".
Proof.
  destruct (@posted_document Scenario.no_unsafe Scenario.no_coercion
              (Scenario.world_with (js "Hello") 500) Scenario.payload
              Scenario.webhook [] Scenario.metadata
              (Scenario.found (js "Hello")) (js "Hello...") reads_found)
    as [e [Hrun [Htitle [Hdescription _]]]].
  - vm_compute. reflexivity.
  - vm_compute. reflexivity.
  - exists e. split; [|split; [exact Htitle | exact Hdescription]].
    rewrite Hrun. reflexivity.
Defined.

Lemma fetch_answers_witness :
  Worker.fetch Scenario.no_unsafe Scenario.no_coercion Scenario.world
    Scenario.get_request Scenario.env []
  = (Ok (Worker.method_not_allowed, None), []) /\
  Worker.fetch Scenario.no_unsafe Scenario.no_coercion Scenario.world
    Scenario.unsigned_request Scenario.env []
  = (Ok (Worker.unauthorized, None), []) /\
  exists logged tr',
    Worker.fetch Scenario.no_unsafe Scenario.no_coercion Scenario.world
      Scenario.request Scenario.env []
    = (Ok (Worker.OK, logged), tr').
Proof.
  split; [|split].
  - apply (@fetch_answers Scenario.no_unsafe Scenario.no_coercion
             Scenario.world Scenario.get_request Scenario.env []).
    vm_compute. reflexivity.
  - apply (@fetch_answers Scenario.no_unsafe Scenario.no_coercion
             Scenario.world Scenario.unsigned_request Scenario.env []).
    + vm_compute. reflexivity.
    + vm_compute. reflexivity.
  - apply (@fetch_answers Scenario.no_unsafe Scenario.no_coercion
             Scenario.world Scenario.request Scenario.env []).
    + vm_compute. reflexivity.
    + vm_compute. reflexivity.
Defined.

Lemma fetch_gate_witness :
  Str.eqb (Worker.method Scenario.request) (js "POST") = true /\
  authorized Scenario.request Scenario.env = true /\
  exists payload,
    Worker.json_body Scenario.request = Ok payload /\
    is_create payload = true /\
    isRelevant (Repo.name (repo payload)) = true.
Proof.
  apply (@fetch_gate Scenario.no_unsafe Scenario.no_coercion
           Scenario.world Scenario.request Scenario.env []).
  vm_compute. discriminate.
Defined.


Lemma cleanMarkdown_plain_witness :
  Markdown.cleanMarkdown (Some (js "  Hello world "))
  = Ok (Str.slice_to 1021 (Str.trim (js "  Hello world ")) ++ js "...").
Proof.
  apply (@CleanerFacts.cleanMarkdown_plain (js "  Hello world "));
    vm_compute; reflexivity.
Defined.

Lemma cleanMarkdown_throws_range_error_witness :
  Markdown.cleanMarkdown (Some (js "&#x110000;")) = Throw RangeError /\
  RangeError = RangeError.
Proof.
  split; [vm_compute; reflexivity|].
  apply (@CleanerFacts.cleanMarkdown_throws_range_error
           (Some (js "&#x110000;")) RangeError).
  vm_compute. reflexivity.
Defined.

Lemma cleanMarkdown_trimmed_witness :
  (exists c t, js "Hi..." = c :: t /\ Str.is_space c = false) /\
  (forall t c, js "Hi..." = t ++ [c] ++ js "..." ->
               (List.length (js "Hi...") < 1024)%nat ->
               Str.is_space c = false).
Proof.
  apply (@CleanerFacts.cleanMarkdown_trimmed (Some (js "  Hi  "))
           (js "Hi...")).
  vm_compute. reflexivity.
Defined.

Lemma cleanMarkdown_never_longer_witness :
  (List.length (js "a & b...")
   <= Nat.min (List.length (js "a &amp; b")) 1021 + 3)%nat.
Proof.
  apply (@CleanerFacts.cleanMarkdown_never_longer (js "a &amp; b")
           (js "a & b...")).
  vm_compute. reflexivity.
Defined.

Lemma drop_table_rows_lines_witness :
  (js "text" = [] \/
   In (js "text") (lines (js "| a | b |" ++ [10] ++ js "text"))) /\
  ~ table_line (js "text").
Proof.
  apply (@CleanerFacts.drop_table_rows_lines
           (js "| a | b |" ++ [10] ++ js "text") (js "text")).
  vm_compute. right. left. reflexivity.
Defined.

Lemma cleanMarkdown_no_blank_lines_witness :
  ~ has_blank_lines (js "a" ++ [10; 10] ++ js "b...").
Proof.
  apply (@CleanerFacts.cleanMarkdown_no_blank_lines
           (Some (js "a" ++ [10; 10; 10; 10] ++ js "b"))
           (js "a" ++ [10; 10] ++ js "b...")).
  vm_compute. reflexivity.
Defined.

Lemma abbreviateNumber_magnitude_witness :
  abbreviateNumber Scenario.no_unsafe (Finite 999500) (js "round")
  = js "1000K" /\
  (1 <= Qfloor (999500 / magnitude 1 + (1 # 2)) <= 1000)%Z.
Proof.
  assert (H := @abbreviateNumber_magnitude Scenario.no_unsafe 999500 1
                 (js "round")).
  cbv zeta in H. destruct H as [Hshown [Hrange _]].
  - eexists. split; vm_compute; reflexivity.
  - lia.
  - vm_compute. discriminate.
  - vm_compute. reflexivity.
  - split; [|exact Hrange]. rewrite Hshown. vm_compute. reflexivity.
Defined.
